(** * tg_bot: signal generation and position tracking

    A shallow embedding of the signal-scoring / level-construction engine
    ([technical_analysis.py], [ml_predictor.py], [signal_generator.py]) and of
    the position lifecycle tracker ([database.py], [data_fetcher.py],
    [signal_tracker.py]), followed by the properties established about them.

    Conventions of the embedding.
    - Python floats are idealised as rationals ([Q]); integer scores are [Z].
    - A pandas frame that left [add_all_indicators] is a [list Row]: the
      function ends with [dropna], so every row carries every indicator as a
      number.
    - The contents of [config.py] are a type class [Config]; the external
      libraries (ta, scikit-learn, ccxt) are parameters.
    - An exception is an explicit result ([None], or [Raised] in the tracker
      monad). *)

From Stdlib Require Import QArith ZArith Lia Lqa String List.
From stdpp Require Import gmap strings list.

(** ** Float helpers *)

Definition Qltb (x y : Q) : bool :=
  match (x ?= y)%Q with Lt => true | _ => false end.
Definition Qleb (x y : Q) : bool :=
  match (x ?= y)%Q with Gt => false | _ => true end.
Definition Qgtb (x y : Q) : bool := Qltb y x.
Definition Qgeb (x y : Q) : bool := Qleb y x.
(** Truthiness of a float: [not x] holds exactly for zero. *)
Definition Qis_zero (x : Q) : bool := Qeq_bool x 0.
(** Python's [max(a, b)]: the first argument unless the second is larger. *)
Definition Qmax_py (a b : Q) : Q := if Qltb a b then b else a.

Declare Scope float_scope.
Delimit Scope float_scope with float.
Infix "<?" := Qltb (at level 70) : float_scope.
Infix "<=?" := Qleb (at level 70) : float_scope.
Infix ">?" := Qgtb (at level 70) : float_scope.
Infix ">=?" := Qgeb (at level 70) : float_scope.

(** ** config.py (not part of the sources: its constants are parameters) *)

Class Config := {
  ENABLE_AVERAGING : bool;
  AVERAGING_DISTANCE : Q;
  ATR_MULTIPLIER_SL : Q;
  ATR_MULTIPLIER_TP1 : Q;
  ATR_MULTIPLIER_TP2 : Q;
  ATR_MULTIPLIER_TP3 : Q;
  MIN_CONFIDENCE : Q;
  MIN_ADX : Q;
  POSITION_SIZE_A : Q;
  POSITION_SIZE_B : Q
}.

Inductive Side := LONG | SHORT.

Definition is_long_side (s : Side) : bool :=
  match s with LONG => true | SHORT => false end.

(** ** technical_analysis.py *)

Module TechnicalAnalyzer.

(** One row of the frame returned by [add_all_indicators], restricted to
    the columns read by the scorer, the predictor and the generator. *)
Record Row := {
  open : Q; high : Q; low : Q; close : Q; volume : Q;
  rsi : Q; macd : Q; macd_signal : Q; macd_histogram : Q;
  sma_20 : Q; sma_50 : Q; bb_upper : Q; bb_lower : Q; bb_pband : Q;
  stoch_k : Q; stoch_d : Q; adx : Q; atr : Q; atr_percent : Q;
  volume_ratio : Q
}.

Definition columns : list string :=
  ["open"; "high"; "low"; "close"; "volume"; "rsi"; "macd"; "macd_signal";
   "macd_histogram"; "sma_20"; "sma_50"; "bb_upper"; "bb_lower"; "bb_pband";
   "stoch_k"; "stoch_d"; "adx"; "atr"; "atr_percent"; "volume_ratio"]%string.

(** [df.iloc[-k]], [None] standing for pandas' IndexError. *)
Definition iloc_neg {A} (k : nat) (df : list A) : option A :=
  rev df !! (k - 1)%nat.

Record Strength := {
  bullish_score : Z;
  bearish_score : Z;
  trend_strength : Q;
  net_score : Z;
  confidence : Q
}.

(** The running pair (bullish_signals, bearish_signals). *)
Definition bull (n : Z) (s : Z * Z) : Z * Z := (s.1 + n, s.2)%Z.
Definition bear (n : Z) (s : Z * Z) : Z * Z := (s.1, s.2 + n)%Z.

Section Rules.
Local Open Scope float_scope.
Variables last prev : Row.

Definition rsi_rule (s : Z * Z) : Z * Z :=
  if rsi last <? 30 then bull 2 s
  else if rsi last >? 70 then bear 2 s
  else if rsi last <? 45 then bull 1 s
  else if rsi last >? 55 then bear 1 s
  else s.

Definition macd_rule (s : Z * Z) : Z * Z :=
  if (macd last >? macd_signal last) && (macd prev <=? macd_signal prev)
  then bull 2 s
  else if (macd last <? macd_signal last) && (macd prev >=? macd_signal prev)
  then bear 2 s
  else if macd last >? macd_signal last then bull 1 s
  else bear 1 s.

Definition ma_rule (s : Z * Z) : Z * Z :=
  if (close last >? sma_20 last) && (sma_20 last >? sma_50 last)
  then bull 2 s
  else if (close last <? sma_20 last) && (sma_20 last <? sma_50 last)
  then bear 2 s
  else s.

Definition bb_rule (s : Z * Z) : Z * Z :=
  if close last <? bb_lower last then bull 2 s
  else if close last >? bb_upper last then bear 2 s
  else s.

Definition stoch_rule (s : Z * Z) : Z * Z :=
  if (stoch_k last <? 20) && (stoch_k last >? stoch_d last) then bull 1 s
  else if (stoch_k last >? 80) && (stoch_k last <? stoch_d last)
  then bear 1 s
  else s.

Definition volume_rule (s : Z * Z) : Z * Z :=
  if volume_ratio last >? 1.5 then
    if close last >? open last then bull 1 s else bear 1 s
  else s.
End Rules.

(** [get_signal_strength]: the six rules in source order. [adx] is a number
    in every row (no NaN survives [dropna]), so [trend_strength] is the
    last row's [adx]. *)
Definition get_signal_strength (df : list Row) : option Strength :=
  last ← iloc_neg 1 df;
  prev ← iloc_neg 2 df;
  let s := (0, 0)%Z in
  let s := rsi_rule last s in
  let s := macd_rule last prev s in
  let s := ma_rule last s in
  let s := bb_rule last s in
  let s := stoch_rule last s in
  let trend_strength := adx last in
  let s := volume_rule last s in
  let bullish_signals := s.1 in
  let bearish_signals := s.2 in
  let total_signals := (bullish_signals + bearish_signals)%Z in
  Some {| bullish_score := bullish_signals;
          bearish_score := bearish_signals;
          trend_strength := trend_strength;
          net_score := (bullish_signals - bearish_signals)%Z;
          confidence := (inject_Z (Z.abs (bullish_signals - bearish_signals))
                         / inject_Z (Z.max total_signals 1))%Q |}.

End TechnicalAnalyzer.

(** ** ml_predictor.py *)

Module MLPredictor.
Import TechnicalAnalyzer.

(** A fitted scikit-learn classifier, seen through the two members the
    adapter reads. [predict_proba] yields the probability row of its single
    input row, [None] when it raises. *)
Record Classifier := {
  classes_ : list Z;
  predict_proba : list Q -> option (list Q)
}.

Definition Dataset : Type := list (list Q * Z).

(** scikit-learn, as far as [train_on_historical] calls it. *)
Class Sklearn := {
  train_test_split : Dataset -> Dataset * Dataset;
  fit : Classifier -> Dataset -> Classifier;
  score : Classifier -> Dataset -> Q
}.

Definition FEATURES : list string :=
  ["rsi"; "macd"; "macd_histogram"; "adx"; "stoch_k"; "bb_pband";
   "atr_percent"]%string.

(** [df[self.FEATURES]] on one row. *)
Definition features (r : Row) : list Q :=
  [rsi r; macd r; macd_histogram r; adx r; stoch_k r; bb_pband r;
   atr_percent r].

Definition missing_features : list string :=
  filter (fun f => f ∉ columns) FEATURES.

(** The predictor object: the classifier and the [trained] flag. *)
Record self := { model : Classifier; trained : bool }.

Record Prediction := { direction : Z; confidence : Q }.

Definition neutral : Prediction := {| direction := 0; confidence := 0 |}.

(** [np.where(df.close.shift(-1) > df.close, 1, -1)]: the last row compares
    against NaN and gets -1. *)
Fixpoint target (df : list Row) : list Z :=
  match df with
  | [] => []
  | r :: rest =>
      match rest with
      | r' :: _ => if (close r' >? close r)%float then 1%Z else (-1)%Z
      | [] => (-1)%Z
      end :: target rest
  end.

(** [np.where(classes == v)[0]]. *)
Fixpoint np_where_eq (v : Z) (classes : list Z) (i : nat) : list nat :=
  match classes with
  | [] => []
  | c :: rest =>
      if (c =? v)%Z then i :: np_where_eq v rest (S i)
      else np_where_eq v rest (S i)
  end.

Section WithSklearn.
Context {sk : Sklearn}.

Definition train_on_historical (ml : self) (df : list Row) : Q * self :=
  match missing_features with
  | _ :: _ => (0%Q, ml)
  | [] =>
      let X := map features df in
      let y := target df in
      if (length X <? 50)%nat then (0%Q, ml)
      else
        let '(train, test) := train_test_split (zip X y) in
        let model' := fit (model ml) train in
        let accuracy := score model' test in
        (accuracy, {| model := model'; trained := true |})
  end.

(** The body of [predict] below the lazy training step. The NaN test on
    the last row never fires: the rows carry numbers. *)
Definition predict_trained (ml : self) (df : list Row) : Prediction :=
  match missing_features with
  | _ :: _ => neutral
  | [] =>
      match last df with
      | None => neutral (* predict_proba rejects the empty frame *)
      | Some last_row =>
          match predict_proba (model ml) (features last_row) with
          | None => neutral
          | Some proba =>
              let classes := classes_ (model ml) in
              if (2 <=? length proba)%nat then
                let idx_long := np_where_eq 1 classes 0 in
                let idx_short := np_where_eq (-1) classes 0 in
                let probs :=
                  match idx_long, idx_short with
                  | i_long :: _, i_short :: _ =>
                      pl ← proba !! i_long; ps ← proba !! i_short;
                      Some (pl, ps)
                  | _, _ =>
                      pl ← proba !! 1%nat; ps ← proba !! 0%nat;
                      Some (pl, ps)
                  end in
                match probs with
                | None => neutral (* IndexError, caught *)
                | Some (prob_long, prob_short) =>
                    {| direction :=
                         if (prob_long >? prob_short)%float
                         then 1 else (-1);
                       confidence := Qmax_py prob_long prob_short |}
                end
              else neutral
          end
      end
  end.

Definition predict (ml : self) (df : list Row) : Prediction * self :=
  if negb (trained ml) then
    let '(accuracy, ml') := train_on_historical ml df in
    if Qeq_bool accuracy 0 then (neutral, ml')
    else (predict_trained ml' df, ml')
  else (predict_trained ml df, ml).
End WithSklearn.

End MLPredictor.

(** ** signal_generator.py *)

Module SignalGenerator.
Import TechnicalAnalyzer.

Record Signal := {
  symbol : string;
  side : Side;
  entry_a : Q;
  entry_b : option Q;
  stop : Q;
  tp1 : Q;
  tp2 : Q;
  tp3 : Q;
  confidence : Q
}.

(** Raw OHLCV bars, before the indicators are attached. *)
Record PriceBar := {
  bar_open : Q; bar_high : Q; bar_low : Q; bar_close : Q; bar_volume : Q
}.

(** The ta library behind [add_all_indicators]; [None] when it raises. *)
Class Indicators := {
  add_all_indicators : list PriceBar -> option (list Row)
}.

Section Generate.
Context {cfg : Config} {sk : MLPredictor.Sklearn} {ta : Indicators}.
Local Open Scope Q_scope.

(** Step 7 of [generate]: the levels around [price]. *)
Definition levels (symbol : string) (side : Side) (price atr : Q)
    (combined_conf : Q) : Signal :=
  let sl_dist := atr * ATR_MULTIPLIER_SL in
  let tp1_dist := atr * ATR_MULTIPLIER_TP1 in
  let tp2_dist := atr * ATR_MULTIPLIER_TP2 in
  let tp3_dist := atr * ATR_MULTIPLIER_TP3 in
  match side with
  | LONG =>
      {| symbol := symbol; side := LONG;
         entry_a := price;
         entry_b := if ENABLE_AVERAGING
                    then Some (price * (1 - AVERAGING_DISTANCE)) else None;
         stop := price - sl_dist;
         tp1 := price + tp1_dist;
         tp2 := price + tp2_dist;
         tp3 := price + tp3_dist;
         confidence := combined_conf |}
  | SHORT =>
      {| symbol := symbol; side := SHORT;
         entry_a := price;
         entry_b := if ENABLE_AVERAGING
                    then Some (price * (1 + AVERAGING_DISTANCE)) else None;
         stop := price + sl_dist;
         tp1 := price - tp1_dist;
         tp2 := price - tp2_dist;
         tp3 := price - tp3_dist;
         confidence := combined_conf |}
  end.

(** The direction gate of step 6. *)
Definition disagree (direction net_score : Z) : bool :=
  ((direction =? 1)%Z && (net_score <=? 0)%Z)
  || ((direction =? -1)%Z && (net_score >=? 0)%Z).

(** [generate]: every exception inside the [try] yields [None]; the
    predictor may have been trained on the way. *)
Definition generate (ml : MLPredictor.self) (df : list PriceBar)
    (symbol : string) : option Signal * MLPredictor.self :=
  match add_all_indicators df with
  | None => (None, ml)
  | Some df =>
      if (length df <? 10)%nat then (None, ml)
      else
        match get_signal_strength df with
        | None => (None, ml)
        | Some strength =>
            let '(ml_pred, ml) := MLPredictor.predict ml df in
            let combined_conf :=
              (TechnicalAnalyzer.confidence strength
               + MLPredictor.confidence ml_pred) / 2 in
            if (combined_conf <? MIN_CONFIDENCE)%float then (None, ml)
            else
              match iloc_neg 1 df with
              | None => (None, ml)
              | Some last =>
                  let current_adx := adx last in
                  if (current_adx <? MIN_ADX)%float then (None, ml)
                  else
                    let direction := MLPredictor.direction ml_pred in
                    let net_score := net_score strength in
                    if disagree direction net_score then (None, ml)
                    else
                      let side :=
                        if (direction =? 1)%Z then LONG else SHORT in
                      let price := close last in
                      let atr := atr last in
                      (Some (levels symbol side price atr combined_conf),
                       ml)
              end
        end
  end.
End Generate.

End SignalGenerator.

(** ** database.py

    The [trades] table as the list of its rows in rowid order. The two
    timestamp columns are left out: no decision reads them. *)

Module db.

Inductive Status := OPEN | CLOSED.

Record Trade := {
  id : Z;
  symbol : string;
  side : Side;
  entry_a : Q;
  entry_b : option Q;
  stop : Q;
  tp1 : Q;
  tp2 : Q;
  tp3 : Q;
  status : Status;
  pnl : option Q;
  tp1_hit : bool;
  tp2_hit : bool;
  tp3_hit : bool
}.

Definition is_open (r : Trade) : bool :=
  match status r with OPEN => true | CLOSED => false end.

(** [SET status='CLOSED', pnl=?] on one row. *)
Definition set_closed (p : Q) (r : Trade) : Trade :=
  {| id := id r; symbol := symbol r; side := side r; entry_a := entry_a r;
     entry_b := entry_b r; stop := stop r; tp1 := tp1 r; tp2 := tp2 r;
     tp3 := tp3 r; status := CLOSED; pnl := Some p; tp1_hit := tp1_hit r;
     tp2_hit := tp2_hit r; tp3_hit := tp3_hit r |}.

(** [SET tp{level}_hit = 1] on one row, for a level in 1..3. *)
Definition set_tp_hit (tp_level : Z) (r : Trade) : Trade :=
  {| id := id r; symbol := symbol r; side := side r; entry_a := entry_a r;
     entry_b := entry_b r; stop := stop r; tp1 := tp1 r; tp2 := tp2 r;
     tp3 := tp3 r; status := status r; pnl := pnl r;
     tp1_hit := if (tp_level =? 1)%Z then true else tp1_hit r;
     tp2_hit := if (tp_level =? 2)%Z then true else tp2_hit r;
     tp3_hit := if (tp_level =? 3)%Z then true else tp3_hit r |}.

(** The column [tp{level}_hit] of one row. *)
Definition get_tp_hit (tp_level : Z) (r : Trade) : bool :=
  if (tp_level =? 1)%Z then tp1_hit r
  else if (tp_level =? 2)%Z then tp2_hit r
  else tp3_hit r.

Definition valid_level (tp_level : Z) : bool :=
  bool_decide (tp_level ∈ [1; 2; 3]%Z).

(** [UPDATE trades SET ... WHERE id = ?]. *)
Definition update_where_id (trade_id : Z) (f : Trade -> Trade)
    (table : list Trade) : list Trade :=
  map (fun r => if (id r =? trade_id)%Z then f r else r) table.

(** [SELECT ... FROM trades WHERE id = ?] followed by [fetchone]. *)
Definition fetchone (trade_id : Z) (table : list Trade) : option Trade :=
  find (fun r => (id r =? trade_id)%Z) table.

Definition init_db : list Trade := [].

(** The id an AUTOINCREMENT key gives to the next row: one more than the
    largest id of the table (rows are never deleted). *)
Definition lastrowid (table : list Trade) : Z :=
  (1 + foldr Z.max 0 (map id table))%Z.

Definition open_trade (table : list Trade) (symbol : string) (side : Side)
    (entry_a : Q) (entry_b : option Q) (stop tp1 tp2 tp3 : Q)
    : Z * list Trade :=
  let trade_id := lastrowid table in
  (trade_id,
   table ++ [{| id := trade_id; symbol := symbol; side := side;
                entry_a := entry_a; entry_b := entry_b; stop := stop;
                tp1 := tp1; tp2 := tp2; tp3 := tp3; status := OPEN;
                pnl := None; tp1_hit := false; tp2_hit := false;
                tp3_hit := false |}]).

Definition close_trade (table : list Trade) (trade_id : Z) (pnl : Q)
    : list Trade :=
  update_where_id trade_id (set_closed pnl) table.

Definition mark_tp_hit (table : list Trade) (trade_id : Z) (tp_level : Z)
    : list Trade :=
  if negb (valid_level tp_level) then table
  else update_where_id trade_id (set_tp_hit tp_level) table.

Definition get_open_trades (table : list Trade) : list Trade :=
  List.filter is_open table.

Definition is_tp_hit (table : list Trade) (trade_id : Z) (tp_level : Z)
    : bool :=
  if negb (valid_level tp_level) then false
  else match fetchone trade_id table with
       | Some row => get_tp_hit tp_level row
       | None => false
       end.

End db.

(** ** data_fetcher.py *)

Module DataFetcher.

(** The exchange as one check cycle sees it: [fetch_ticker(symbol)['last']],
    or [None] when the call raises. *)
Definition Exchange : Type := string -> option Q.

Definition get_current_price (exchange : Exchange) (symbol : string) : Q :=
  match exchange symbol with
  | Some last => last
  | None => 0
  end.

End DataFetcher.

(** ** signal_tracker.py *)

Module SignalTracker.

Inductive EventType := STOP_LOSS | TP1 | TP2 | TP3_FULL.

(** The result dictionary of [_check_signal]; [signal] is the row as it was
    loaded at the start of the cycle. *)
Record Result := {
  type : EventType;
  signal : db.Trade;
  hit_price : Q;
  pnl : Q
}.

(** Everything a check cycle reads and writes: the table behind [db], the
    tracker's [price_cache], and the results handed to the notifier. *)
Record State := {
  table : list db.Trade;
  price_cache : gmap string Q;
  notified : list Result
}.

(** *** State and exception monad *)

Inductive outcome (A : Type) := Ok (a : A) | Raised.
Arguments Ok {A} a.
Arguments Raised {A}.

Definition M (A : Type) : Type := State -> outcome A * State.

#[export] Instance M_ret : MRet M := fun A a st => (Ok a, st).
#[export] Instance M_bind : MBind M := fun A B f m st =>
  match m st with
  | (Ok a, st') => f a st'
  | (Raised, st') => (Raised, st')
  end.

Definition raise {A} : M A := fun st => (Raised, st).
Definition read {A} (f : State -> A) : M A := fun st => (Ok (f st), st).
Definition write_table (f : list db.Trade -> list db.Trade) : M unit :=
  fun st => (Ok tt, {| table := f (table st);
                       price_cache := price_cache st;
                       notified := notified st |}).
Definition write_cache (f : gmap string Q -> gmap string Q) : M unit :=
  fun st => (Ok tt, {| table := table st;
                       price_cache := f (price_cache st);
                       notified := notified st |}).
(** [await self.notifier.send_signal_result(result)]: delivery failures are
    swallowed inside the bot, so the call always returns. *)
Definition send_signal_result (result : Result) : M unit :=
  fun st => (Ok tt, {| table := table st;
                       price_cache := price_cache st;
                       notified := notified st ++ [result] |}).
Definition of_option {A} (o : option A) : M A :=
  match o with Some a => mret a | None => raise end.

Section Tracker.
Context {cfg : Config}.
Local Open Scope Q_scope.

Fixpoint _update_prices (exchange : DataFetcher.Exchange)
    (symbols : list string) : M unit :=
  match symbols with
  | [] => mret tt
  | symbol :: rest =>
      let price := DataFetcher.get_current_price exchange symbol in
      (if (price >? 0)%float
       then write_cache (fun cache => <[symbol := price]> cache)
       else mret tt) ≫= fun _ =>
      _update_prices exchange rest
  end.

Definition _calculate_weighted_entry (entry_a : Q) (entry_b : option Q)
    : Q :=
  match entry_b with
  | None => entry_a
  | Some entry_b => entry_a * POSITION_SIZE_A + entry_b * POSITION_SIZE_B
  end.

(** [None] is Python's ZeroDivisionError. *)
Definition _calculate_pnl (entry_avg exit_price : Q) (is_long : bool)
    : option Q :=
  if Qis_zero entry_avg then None
  else if is_long
       then Some (((exit_price - entry_avg) / entry_avg) * 100)
       else Some (((entry_avg - exit_price) / entry_avg) * 100).

Definition _check_signal (signal : db.Trade) : M (option Result) :=
  let symbol := db.symbol signal in
  current_price ← read (fun st => price_cache st !! symbol);
  match current_price with
  | None => mret None
  | Some current_price =>
  if Qis_zero current_price then mret None else
  let signal_id := db.id signal in
  let direction := db.side signal in
  let entry_a := db.entry_a signal in
  let entry_b := db.entry_b signal in
  let stop := db.stop signal in
  let tp1 := db.tp1 signal in
  let tp2 := db.tp2 signal in
  let tp3 := db.tp3 signal in
  let is_long := is_long_side direction in
  let entry_avg := _calculate_weighted_entry entry_a entry_b in
  let stop_hit := (is_long && (current_price <=? stop)%float)
                  || (negb is_long && (current_price >=? stop)%float) in
  if stop_hit then
    pnl ← of_option (_calculate_pnl entry_avg stop is_long);
    write_table (fun t => db.close_trade t signal_id pnl);;
    let result := {| type := STOP_LOSS; signal := signal;
                     hit_price := current_price; pnl := pnl |} in
    send_signal_result result;;
    mret (Some result)
  else
    let tp_results := [] in
    (* TP1 *)
    let tp1_hit := (is_long && (current_price >=? tp1)%float)
                   || (negb is_long && (current_price <=? tp1)%float) in
    seen ← read (fun st => db.is_tp_hit (table st) signal_id 1);
    tp_results ←
      (if tp1_hit && negb seen then
         pnl ← of_option (_calculate_pnl entry_avg tp1 is_long);
         write_table (fun t => db.mark_tp_hit t signal_id 1);;
         let result := {| type := TP1; signal := signal;
                          hit_price := current_price; pnl := pnl |} in
         send_signal_result result;;
         mret (tp_results ++ [result])
       else mret tp_results);
    (* TP2 *)
    let tp2_hit := (is_long && (current_price >=? tp2)%float)
                   || (negb is_long && (current_price <=? tp2)%float) in
    seen ← read (fun st => db.is_tp_hit (table st) signal_id 2);
    tp_results ←
      (if tp2_hit && negb seen then
         pnl ← of_option (_calculate_pnl entry_avg tp2 is_long);
         write_table (fun t => db.mark_tp_hit t signal_id 2);;
         let result := {| type := TP2; signal := signal;
                          hit_price := current_price; pnl := pnl |} in
         send_signal_result result;;
         mret (tp_results ++ [result])
       else mret tp_results);
    (* TP3 *)
    let tp3_hit := (is_long && (current_price >=? tp3)%float)
                   || (negb is_long && (current_price <=? tp3)%float) in
    seen ← read (fun st => db.is_tp_hit (table st) signal_id 3);
    tp_results ←
      (if tp3_hit && negb seen then
         pnl ← of_option (_calculate_pnl entry_avg tp3 is_long);
         write_table (fun t => db.mark_tp_hit t signal_id 3);;
         write_table (fun t => db.close_trade t signal_id pnl);;
         let result := {| type := TP3_FULL; signal := signal;
                          hit_price := current_price; pnl := pnl |} in
         send_signal_result result;;
         mret (tp_results ++ [result])
       else mret tp_results);
    mret (head tp_results)
  end.

(** The [for signal in active_signals] loop of [check_all_signals]. *)
Fixpoint check_each (active_signals : list db.Trade)
    (results : list Result) : M (list Result) :=
  match active_signals with
  | [] => mret results
  | signal :: rest =>
      result ← _check_signal signal;
      check_each rest
        (match result with
         | Some r => results ++ [r]
         | None => results
         end)
  end.

Definition check_all_signals (exchange : DataFetcher.Exchange)
    : M (list Result) :=
  active_signals ← read (fun st => db.get_open_trades (table st));
  let results := [] in
  match active_signals with
  | [] => mret results
  | _ :: _ =>
      let symbols :=
        elements (list_to_set (map db.symbol active_signals)
                  : gset string) in
      _update_prices exchange symbols;;
      check_each active_signals results
  end.
End Tracker.

End SignalTracker.

(** ** main.py: the two scheduled tasks, as far as they touch the state *)

Module Engine.
Import SignalTracker.

Inductive Task :=
| Scan (sig : SignalGenerator.Signal)
    (** [run]: one generated signal goes through [db.open_trade] *)
| Cycle (exchange : DataFetcher.Exchange)
    (** [check_signals]: one cycle of the tracker *)
| Restart
    (** the process starts again: [init_db] keeps the table, the new
        tracker has an empty cache *).

Definition persist (sig : SignalGenerator.Signal) (st : State) : State :=
  {| table :=
       (db.open_trade (table st)
          (SignalGenerator.symbol sig) (SignalGenerator.side sig)
          (SignalGenerator.entry_a sig) (SignalGenerator.entry_b sig)
          (SignalGenerator.stop sig) (SignalGenerator.tp1 sig)
          (SignalGenerator.tp2 sig) (SignalGenerator.tp3 sig)).2;
     price_cache := price_cache st;
     notified := notified st |}.

Definition restart (st : State) : State :=
  {| table := table st; price_cache := ∅; notified := notified st |}.

Section Tasks.
Context {cfg : Config}.

(** [check_signals] logs an exception of the cycle and goes on: the state
    reached when it was raised stays. *)
Definition check_signals (exchange : DataFetcher.Exchange) (st : State)
    : State :=
  (check_all_signals exchange st).2.

Definition step (st : State) (task : Task) : State :=
  match task with
  | Scan sig => persist sig st
  | Cycle exchange => check_signals exchange st
  | Restart => restart st
  end.

Definition run (tasks : list Task) (st : State) : State :=
  foldl step st tasks.
End Tasks.

(** A fresh process on an empty table: [init_db], [SignalTracker.__init__]. *)
Definition boot : State :=
  {| table := db.init_db; price_cache := ∅; notified := [] |}.

End Engine.

(** ** Concrete configurations, frames and positions used below *)

Module Scenario.
Import TechnicalAnalyzer MLPredictor SignalGenerator.
Local Open Scope Q_scope.

Definition config : Config := {|
  ENABLE_AVERAGING := true;
  AVERAGING_DISTANCE := 0.02;
  ATR_MULTIPLIER_SL := 1.5;
  ATR_MULTIPLIER_TP1 := 2;
  ATR_MULTIPLIER_TP2 := 3;
  ATR_MULTIPLIER_TP3 := 5;
  MIN_CONFIDENCE := 0.5;
  MIN_ADX := 20;
  POSITION_SIZE_A := 0.7;
  POSITION_SIZE_B := 0.3
|}.

(** The row a bar becomes once the indicators are attached, for a given
    ATR and trend strength [the_adx]: an oversold RSI, MACD above its
    signal line and a bullish stack of averages. *)
Definition row_at (the_adx the_atr : Q) (b : PriceBar) : Row := {|
  open := bar_open b; high := bar_high b; low := bar_low b;
  close := bar_close b; volume := bar_volume b;
  rsi := 25; macd := 1; macd_signal := 0; macd_histogram := 1;
  sma_20 := bar_close b - 1; sma_50 := bar_close b - 2;
  bb_upper := bar_close b + 10; bb_lower := bar_close b - 10;
  bb_pband := 0.5; stoch_k := 50; stoch_d := 50; adx := the_adx;
  atr := the_atr;
  atr_percent := 1; volume_ratio := 1
|}.

(** The same with the bar's own range as ATR. *)
Definition row_of_bar (the_adx : Q) (b : PriceBar) : Row :=
  row_at the_adx (bar_high b - bar_low b) b.

Definition highest (l : list Q) : Q :=
  foldr (fun x acc => if Qltb acc x then x else acc) (hd 0 l) l.
Definition lowest (l : list Q) : Q :=
  foldr (fun x acc => if Qltb x acc then x else acc) (hd 0 l) l.

(** The range of the 14 bars that end at bar [i], and the range of the
    closes of the 20 bars that end there. *)
Definition window_range (bars : list PriceBar) (i : nat) : Q :=
  let w := take 14 (drop (i - 13) bars) in
  highest (map bar_high w) - lowest (map bar_low w).
Definition close_range (bars : list PriceBar) (i : nat) : Q :=
  let w := take 20 (drop (i - 19) bars) in
  highest (map bar_close w) - lowest (map bar_close w).

(** A stand-in for the ta library behind [add_all_indicators], used to
    instantiate theorems. It keeps what [add_all_indicators] does to the
    shape of a frame: [dropna] leaves no row for the first 99 bars, where
    the 100-bar average is not defined, nor for a bar whose last 14 bars
    never moved, where the stochastic is 0/0, nor for a bar whose last 20
    closes are all the same, where the band position is 0/0. For a bar it
    keeps, the ATR is the range of those 14 bars, strictly positive. *)
Definition indicators (the_adx : Q) : Indicators :=
  {| add_all_indicators := fun bars =>
       Some (omap (fun i =>
                     b ← bars !! i;
                     let r := window_range bars i in
                     if Qltb 0 r && Qltb 0 (close_range bars i)
                     then Some (row_at the_adx r b) else None)
               (seq 99 (length bars - 99))) |}.

Definition bar (lo hi c : Q) : PriceBar :=
  {| bar_open := c; bar_high := hi; bar_low := lo; bar_close := c;
     bar_volume := 1000 |}.

(** 109 bars trading between 99 and 101, closing at 100 and at 99.5 in
    turn, the last one at 100: 99 bars of history that the 100-bar average
    needs, and the ten bars that become rows. *)
Definition moving_bars : list PriceBar :=
  bar 99 101 100
  :: concat (repeat [bar 99 101 99.5; bar 99 101 100] 54).

Definition sklearn : Sklearn := {|
  train_test_split := fun d => (d, d);
  fit := fun c _ => c;
  score := fun _ _ => 1
|}.

Definition classifier (p_short p_long : Q) : Classifier :=
  {| classes_ := [-1; 1]%Z;
     predict_proba := fun _ => Some [p_short; p_long] |}.

(** A fitted predictor that votes up with probability 0.8. *)
Definition ml_up : MLPredictor.self :=
  {| model := classifier 0.2 0.8; trained := true |}.
(** A fitted predictor that votes down with probability 0.9. *)
Definition ml_down : MLPredictor.self :=
  {| model := classifier 0.9 0.1; trained := true |}.
(** A predictor whose classifier raises on every call. *)
Definition ml_broken : MLPredictor.self :=
  {| model := {| classes_ := [-1; 1]%Z; predict_proba := fun _ => None |};
     trained := true |}.

(** What [generate] returns on [moving_bars] (ATR 2) for [ml_up], and for
    [ml_broken]. *)
Definition long_signal : Signal :=
  {| symbol := "BTC"; side := LONG; entry_a := 100; entry_b := Some 98.00;
     stop := 97.0; tp1 := 104; tp2 := 106; tp3 := 110;
     confidence := 0.90 |}.
Definition short_signal : Signal :=
  {| symbol := "BTC"; side := SHORT; entry_a := 100;
     entry_b := Some 102.00; stop := 103.0; tp1 := 96; tp2 := 94;
     tp3 := 90; confidence := 0.5 |}.

(** Scenario A: a LONG position with an averaging entry. *)
Definition position_a : Signal :=
  {| symbol := "BTC"; side := LONG; entry_a := 100; entry_b := Some 98;
     stop := 95; tp1 := 105; tp2 := 110; tp3 := 120; confidence := 0.9 |}.
(** A later LONG position on the same symbol, opened 30 higher. *)
Definition position_b : Signal :=
  {| symbol := "BTC"; side := LONG; entry_a := 130; entry_b := None;
     stop := 125; tp1 := 135; tp2 := 140; tp3 := 150; confidence := 0.9 |}.

(** An exchange that quotes [p] for every symbol, and one that is down. *)
Definition quote (p : Q) : DataFetcher.Exchange := fun _ => Some p.
Definition down : DataFetcher.Exchange := fun _ => None.

(** Scenario A has been opened. *)
Definition opened : SignalTracker.State :=
  Engine.run (cfg := config) [Engine.Scan position_a] Engine.boot.
(** Scenario B: TP1 at 105, then stopped out at 94. *)
Definition stopped : SignalTracker.State :=
  Engine.run (cfg := config)
    [Engine.Scan position_a; Engine.Cycle (quote 105);
     Engine.Cycle (quote 94)] Engine.boot.
(** Position A was checked at 104; position B was opened afterwards. *)
Definition second_opened : SignalTracker.State :=
  Engine.run (cfg := config)
    [Engine.Scan position_a; Engine.Cycle (quote 104);
     Engine.Scan position_b] Engine.boot.

End Scenario.

(** ** Vocabulary of the properties *)

Module Props.
Import SignalGenerator.
Local Open Scope Q_scope.





Definition in_unit (q : Q) : Prop := 0 <= q /\ q <= 1.

(** Both running scores of the scorer are non-negative. *)
Definition nonneg_pair (s : Z * Z) : Prop := (0 <= s.1 /\ 0 <= s.2)%Z.

(** The classifier answers with probabilities. *)
Definition proba_in_unit (c : MLPredictor.Classifier) : Prop :=
  forall x p, MLPredictor.predict_proba c x = Some p -> Forall in_unit p.

(** A prediction read off two entries of a probability row that the
    classifier has produced. *)
Definition from_proba (c : MLPredictor.Classifier)
    (p : MLPredictor.Prediction) : Prop :=
  exists x proba prob_long prob_short,
    MLPredictor.predict_proba c x = Some proba
    /\ prob_long ∈ proba /\ prob_short ∈ proba
    /\ p = {| MLPredictor.direction :=
                if Qgtb prob_long prob_short then 1 else (-1);
              MLPredictor.confidence := Qmax_py prob_long prob_short |}.

(** The fused confidence of step 4 of [generate]. *)
Definition combined (st : TechnicalAnalyzer.Strength)
    (p : MLPredictor.Prediction) : Q :=
  (TechnicalAnalyzer.confidence st + MLPredictor.confidence p) / 2.

End Props.

(** ** The tracker's state machine, event by event *)

Module Lifecycle.
Import SignalTracker.

#[export] Instance EventType_eq_dec : EqDecision EventType.
Proof. solve_decision. Defined.

Definition event_id (e : Result) : Z := db.id (signal e).

(** The price level an event of each type is measured against. *)
Definition exit_level (s : db.Trade) (ty : EventType) : Q :=
  match ty with
  | STOP_LOSS => db.stop s
  | TP1 => db.tp1 s
  | TP2 => db.tp2 s
  | TP3_FULL => db.tp3 s
  end.

(** The trigger test of each type at price [p]. *)
Definition crossed (s : db.Trade) (p : Q) (ty : EventType) : bool :=
  let is_long := is_long_side (db.side s) in
  match ty with
  | STOP_LOSS => (is_long && (p <=? exit_level s ty)%float)
                 || (negb is_long && (p >=? exit_level s ty)%float)
  | _ => (is_long && (p >=? exit_level s ty)%float)
         || (negb is_long && (p <=? exit_level s ty)%float)
  end.

(** The hit-flag column that guards a take-profit event. *)
Definition tp_level (ty : EventType) : option Z :=
  match ty with
  | STOP_LOSS => None
  | TP1 => Some 1%Z
  | TP2 => Some 2%Z
  | TP3_FULL => Some 3%Z
  end.

Definition closes (ty : EventType) : bool :=
  match ty with STOP_LOSS | TP3_FULL => true | TP1 | TP2 => false end.

(** The store mutation that goes with an event. *)
Definition table_after (s : db.Trade) (ty : EventType) (pnl : Q)
    (t : list db.Trade) : list db.Trade :=
  match ty with
  | STOP_LOSS => db.close_trade t (db.id s) pnl
  | TP1 => db.mark_tp_hit t (db.id s) 1
  | TP2 => db.mark_tp_hit t (db.id s) 2
  | TP3_FULL => db.close_trade (db.mark_tp_hit t (db.id s) 3) (db.id s) pnl
  end.

Definition event (s : db.Trade) (p : Q) (ty : EventType) (pnl : Q)
    : Result :=
  {| type := ty; signal := s; hit_price := p; pnl := pnl |}.

Definition apply_event (s : db.Trade) (p : Q) (ty : EventType) (pnl : Q)
    (st : State) : State :=
  {| table := table_after s ty pnl (table st);
     price_cache := price_cache st;
     notified := notified st ++ [event s p ty pnl] |}.

Section WithConfig.
Context {cfg : Config}.

Definition entry_avg (s : db.Trade) : Q :=
  _calculate_weighted_entry (db.entry_a s) (db.entry_b s).

(** [emits s p st evs st']: checking position [s] at price [p] from state
    [st] performs the transitions [evs], in this order, and ends in
    [st']. Each transition has crossed its level, found its hit-flag
    unset, and computed its pnl; nothing follows a closing one. *)
Inductive emits (s : db.Trade) (p : Q)
    : State -> list Result -> State -> Prop :=
| emits_done st : emits s p st [] st
| emits_step st ty pnl evs st' :
    crossed s p ty = true ->
    (forall k, tp_level ty = Some k ->
       db.is_tp_hit (table st) (db.id s) k = false) ->
    _calculate_pnl (entry_avg s) (exit_level s ty)
      (is_long_side (db.side s)) = Some pnl ->
    (closes ty = true -> evs = []) ->
    emits s p (apply_event s p ty pnl st) evs st' ->
    emits s p st (event s p ty pnl :: evs) st'.

(** Every event of the chain is about [s], at price [p], for a level that
    [p] has crossed, with the pnl the code computes for that level. *)
Definition event_fact (s : db.Trade) (p : Q) (e : Result) : Prop :=
  signal e = s /\ hit_price e = p
  /\ crossed s p (type e) = true
  /\ _calculate_pnl (entry_avg s) (exit_level s (type e))
       (is_long_side (db.side s)) = Some (pnl e).

(** One pass of [_check_signal] over position [s]: skipped for want of
    a usable cached price, or checked at the cached price. *)
Definition checked (s : db.Trade) (st : State) (evs : list Result)
    (st' : State) : Prop :=
  (match price_cache st !! db.symbol s with
   | None => True
   | Some p => Qis_zero p = true
   end /\ evs = [] /\ st' = st)
  \/ exists p, price_cache st !! db.symbol s = Some p
               /\ Qis_zero p = false /\ emits s p st evs st'.

(** [sweeps active st groups st' ok]: the loop of [check_all_signals]
    over [active] from [st] performs, position by position, the
    transitions [groups] and ends in [st']; [ok] is false when an
    exception cut the loop short. *)
Inductive sweeps
    : list db.Trade -> State -> list (list Result) -> State -> bool
      -> Prop :=
| sweeps_nil st : sweeps [] st [] st true
| sweeps_cons s rest st evs st1 groups st' ok :
    checked s st evs st1 ->
    sweeps rest st1 groups st' ok ->
    sweeps (s :: rest) st (evs :: groups) st' ok
| sweeps_abort s rest st evs st1 :
    checked s st evs st1 ->
    sweeps (s :: rest) st [evs] st1 false.

(** The pnl of an event, by the documented formula. *)
Definition pnl_formula (e : Result) : Prop :=
  let s := signal e in
  let exit := exit_level s (type e) in
  ~ (entry_avg s == 0)%Q
  /\ pnl e = match db.side s with
             | LONG => ((exit - entry_avg s) / entry_avg s * 100)%Q
             | SHORT => ((entry_avg s - exit) / entry_avg s * 100)%Q
             end.
End WithConfig.

(** The row update behind [table_after]. *)
Definition row_after (ty : EventType) (pnl : Q) (r : db.Trade) : db.Trade :=
  match ty with
  | STOP_LOSS => db.set_closed pnl r
  | TP1 => db.set_tp_hit 1 r
  | TP2 => db.set_tp_hit 2 r
  | TP3_FULL => db.set_closed pnl (db.set_tp_hit 3 r)
  end.

(** An event of type [ty] can no longer be produced for a row: the
    position is closed (stop) or the level's hit-flag is set. *)
Definition row_blocked (r : db.Trade) (ty : EventType) : bool :=
  match ty with
  | STOP_LOSS => negb (db.is_open r)
  | TP1 => db.tp1_hit r
  | TP2 => db.tp2_hit r
  | TP3_FULL => db.tp3_hit r
  end.

Definition blocked (t : list db.Trade) (i : Z) (ty : EventType) : bool :=
  match db.fetchone i t with
  | None => false
  | Some r => row_blocked r ty
  end.

Definition is_closed (t : list db.Trade) (i : Z) : bool :=
  match db.fetchone i t with
  | None => false
  | Some r => negb (db.is_open r)
  end.

Definition matches (i : Z) (ty : EventType) (e : Result) : bool :=
  (event_id e =? i)%Z && bool_decide (type e = ty).

(** How many events of type [ty] the log holds for position [i]. *)
Definition count_events (i : Z) (ty : EventType) (log : list Result) : nat :=
  length (List.filter (matches i ty) log).

(** The primary key is unique, every event sits behind its guard. *)
Definition consistent (st : State) : Prop :=
  NoDup (map db.id (table st))
  /\ forall i ty,
       count_events i ty (notified st) = 0%nat
       \/ (count_events i ty (notified st) = 1%nat
           /\ blocked (table st) i ty = true).

(** The rows loaded at the start of a cycle are still what the table
    holds for their ids, and still open. *)
Definition still_open (active : list db.Trade) (t : list db.Trade) : Prop :=
  NoDup (map db.id active)
  /\ forall s, s ∈ active -> db.fetchone (db.id s) t = Some s
                             /\ db.is_open s = true.

(** The state in which the loop of a cycle starts: the prices of the
    symbols of the open positions have been fetched into the cache. *)
Definition refreshed (exchange : DataFetcher.Exchange) (st : State)
    : State :=
  match db.get_open_trades (table st) with
  | [] => st
  | active =>
      (_update_prices exchange
         (elements (list_to_set (map db.symbol active) : gset string))
         st).2
  end.

(** The latest-price fetch for [sym] raises or returns a non-positive
    price. *)
Definition fetch_fails (exchange : DataFetcher.Exchange) (sym : string)
    : Prop :=
  match exchange sym with
  | None => True
  | Some q => (q <= 0)%Q
  end.

(** Type, position and trigger price of the events of a log. *)
Definition summary (log : list Result) : list (EventType * Z * Q) :=
  map (fun e => (type e, event_id e, hit_price e)) log.

(** The list a cycle returned, empty when it raised. *)
Definition returned (o : outcome (list Result)) : list Result :=
  match o with Ok l => l | Raised => [] end.

Definition cache_positive (st : State) : Prop :=
  forall sym p, price_cache st !! sym = Some p -> (0 < p)%Q.

End Lifecycle.

(** ** What a check cycle is due to do *)

Module Groups.
Import SignalTracker Lifecycle.

(** The transitions a pass over position [s] performs at price [p]
    against the table [t], in the order it performs them: the stop alone
    when it is crossed, and otherwise the take-profit levels that are
    crossed and not yet marked hit, lowest first. *)
Definition due (t : list db.Trade) (s : db.Trade) (p : Q)
    : list EventType :=
  if crossed s p STOP_LOSS then [STOP_LOSS]
  else List.filter
         (fun ty => crossed s p ty && negb (blocked t (db.id s) ty))
         [TP1; TP2; TP3_FULL].

(** The store mutations of a list of events, applied in order. *)
Definition persisted (evs : list Result) (t : list db.Trade)
    : list db.Trade :=
  foldl (fun t e => table_after (signal e) (type e) (pnl e) t) t evs.

Section WithConfig.
Context {cfg : Config}.

(** The pnl of position [s] at the level of [ty]. *)
Definition pnl_at (s : db.Trade) (ty : EventType) : Q :=
  default 0%Q (_calculate_pnl (entry_avg s) (exit_level s ty)
               (is_long_side (db.side s))).

(** The events of position [s] in a cycle that starts from the table [t]
    with the refreshed cache [cache]: none without a usable price. *)
Definition group (t : list db.Trade) (cache : gmap string Q)
    (s : db.Trade) : list Result :=
  match cache !! db.symbol s with
  | None => []
  | Some p =>
      if Qis_zero p then []
      else map (fun ty => event s p ty (pnl_at s ty)) (due t s p)
  end.

(** The pnl an event reports is the one the code computes for its
    level, no division by zero behind it. *)
Definition pnl_computed (e : Result) : Prop :=
  _calculate_pnl (entry_avg (signal e)) (exit_level (signal e) (type e))
    (is_long_side (db.side (signal e))) = Some (pnl e).
End WithConfig.

End Groups.

From Stdlib Require Import Qabs.

(** ** More sample data *)

Module Sample.
Import TechnicalAnalyzer MLPredictor SignalGenerator.
Local Open Scope Q_scope.

(** Fifty identical rows: enough history for [train_on_historical]. *)
Definition history : list Row :=
  repeat (Scenario.row_of_bar 25 (Scenario.bar 99 101 100)) 50.

(** A fit whose held-out accuracy is 0. *)
Definition sklearn_zero : Sklearn := {|
  train_test_split := fun d => (d, d);
  fit := fun _ _ => Scenario.classifier 0.2 0.8;
  score := fun _ _ => 0
|}.

Definition ml_untrained : MLPredictor.self :=
  {| model := {| classes_ := []; predict_proba := fun _ => None |};
     trained := false |}.

(** A fitted predictor that gives both classes the same probability. *)
Definition ml_tie : MLPredictor.self :=
  {| model := Scenario.classifier 0.5 0.5; trained := true |}.

(** A row whose stop and targets all sit at 100, and a state in which it
    is open and the cache holds 100 for its symbol. *)
Definition flat_row : db.Trade :=
  {| db.id := 1; db.symbol := "BTC"; db.side := LONG; db.entry_a := 100;
     db.entry_b := Some 98; db.stop := 100; db.tp1 := 100; db.tp2 := 100;
     db.tp3 := 100; db.status := db.OPEN; db.pnl := None;
     db.tp1_hit := false; db.tp2_hit := false; db.tp3_hit := false |}.

Definition flat_state : SignalTracker.State :=
  {| SignalTracker.table := [flat_row];
     SignalTracker.price_cache := {["BTC"%string := 100]};
     SignalTracker.notified := [] |}.

End Sample.

(** ** database.py: the aggregate queries *)

Module Aggregates.
Import db.

(** [CASE WHEN pnl > 0 THEN 1 ELSE 0 END]; a NULL pnl compares as unknown
    and counts 0. *)
Definition is_win (r : Trade) : bool :=
  match pnl r with
  | Some p => (p >? 0)%float
  | None => false
  end.

(** [SUM(pnl)], NULLs skipped. *)
Fixpoint sum_pnl (rows : list Trade) : Q :=
  match rows with
  | [] => 0
  | r :: rest =>
      match pnl r with
      | Some p => p + sum_pnl rest
      | None => sum_pnl rest
      end
  end.

Definition closed_trades (table : list Trade) : list Trade :=
  List.filter (fun r => negb (is_open r)) table.

(** [stats]: (total, wins, pnl) over the CLOSED rows; the [or 0] defaults
    cover the NULLs of an empty selection. *)
Definition stats (table : list Trade) : Z * Z * Q :=
  let closed := closed_trades table in
  (Z.of_nat (length closed),
   Z.of_nat (length (List.filter is_win closed)),
   sum_pnl closed).

Record TpStats := { tp1_hits : Z; tp2_hits : Z; tp3_hits : Z }.

(** [get_tp_stats]: the three flag columns summed over all rows. *)
Definition get_tp_stats (table : list Trade) : TpStats :=
  {| tp1_hits := Z.of_nat (length (List.filter tp1_hit table));
     tp2_hits := Z.of_nat (length (List.filter tp2_hit table));
     tp3_hits := Z.of_nat (length (List.filter tp3_hit table)) |}.

End Aggregates.

(** ** statistics.py *)

Module StatisticsManager.

Record FullStats := {
  total : Z;
  wins : Z;
  losses : Z;
  winrate : Q;
  total_pnl : Q;
  avg_pnl : Q;
  tp1_hits : Z;
  tp2_hits : Z;
  tp3_hits : Z;
  loss_rate : Q;
  avg_win : Q;
  profit_factor : Q
}.

(** [get_full_stats]; its [days] argument is not read. *)
Definition get_full_stats (table : list db.Trade) : FullStats :=
  let '(total, wins, total_pnl) := Aggregates.stats table in
  let losses := if (total >? 0)%Z then (total - wins)%Z else 0%Z in
  let tp_stats := Aggregates.get_tp_stats table in
  let winrate :=
    if (total >? 0)%Z then inject_Z wins / inject_Z total * 100 else 0 in
  let avg_pnl := if (total >? 0)%Z then total_pnl / inject_Z total else 0 in
  {| total := total;
     wins := wins;
     losses := losses;
     winrate := winrate;
     total_pnl := total_pnl;
     avg_pnl := avg_pnl;
     tp1_hits := Aggregates.tp1_hits tp_stats;
     tp2_hits := Aggregates.tp2_hits tp_stats;
     tp3_hits := Aggregates.tp3_hits tp_stats;
     loss_rate := if (total >? 0)%Z then 100 - winrate else 0;
     avg_win :=
       if (total >? 0)%Z then
         if (wins >? 0)%Z && (total_pnl >? 0)%float
         then total_pnl / inject_Z wins else 0
       else 0;
     profit_factor :=
       if (total >? 0)%Z then
         if negb (Qeq_bool avg_pnl 0) then Qabs avg_pnl else 0
       else 0 |}.

End StatisticsManager.

(** ** main.py: one market scan

    [Engine.run] of main.py, from the frames [fetch_all_coins_data]
    returned, in the order of the dictionary. The table, the predictor and
    the counter [sent] are threaded through the loop. *)

Module Main.
Import SignalGenerator.

Section Run.
Context {cfg : Config} {sk : MLPredictor.Sklearn} {ta : Indicators}.
Variable MAX_SIGNALS_PER_RUN : Z.

(** The [for symbol, df in all_data.items()] loop. Between [open_trade]
    and the count nothing raises: the prices of a signal are numpy floats,
    on which the divisions of [_format_signal_message] give inf or nan
    where a Python float would raise, and [bot.send] swallows its own
    errors. *)
Fixpoint scan (all_data : list (string * list PriceBar)) (sent : Z)
    (ml : MLPredictor.self) (table : list db.Trade)
    : list db.Trade * MLPredictor.self * Z :=
  match all_data with
  | [] => (table, ml, sent)
  | (symbol, df) :: rest =>
      let '(sig, ml) := generate ml df symbol in
      let '(table, sent) :=
        match sig with
        | Some sig =>
            ((db.open_trade table (SignalGenerator.symbol sig) (side sig)
                (entry_a sig) (entry_b sig) (stop sig) (tp1 sig) (tp2 sig)
                (tp3 sig)).2,
             (sent + 1)%Z)
        | None => (table, sent)
        end in
      if (sent >=? MAX_SIGNALS_PER_RUN)%Z then (table, ml, sent)
      else scan rest sent ml table
  end.

Definition run (all_data : list (string * list PriceBar))
    (ml : MLPredictor.self) (table : list db.Trade)
    : list db.Trade * MLPredictor.self * Z :=
  scan all_data 0 ml table.
End Run.

End Main.

(** ** More vocabulary *)

Module MoreProps.
Import SignalTracker Lifecycle.

(** The predictor's answer read off the probabilities of up and down. *)
Definition read_off (prob_long prob_short : Q) : MLPredictor.Prediction :=
  {| MLPredictor.direction := if Qgtb prob_long prob_short then 1 else (-1);
     MLPredictor.confidence := Qmax_py prob_long prob_short |}.

(** The count [get_tp_stats] reports for level [k]. *)
Definition hits_of (k : Z) (s : Aggregates.TpStats) : Z :=
  if (k =? 1)%Z then Aggregates.tp1_hits s
  else if (k =? 2)%Z then Aggregates.tp2_hits s
  else Aggregates.tp3_hits s.

(** The fields of a row that describe the position itself. *)
Definition static (r : db.Trade)
    : Z * string * Side * Q * option Q * Q * Q * Q * Q :=
  (db.id r, db.symbol r, db.side r, db.entry_a r, db.entry_b r, db.stop r,
   db.tp1 r, db.tp2 r, db.tp3 r).

(** A row as the tracker keeps it: level 3 is hit only on closed rows, and
    a row has a pnl exactly when it is closed. *)
Definition row_ok (r : db.Trade) : Prop :=
  (db.tp3_hit r = true -> db.status r = db.CLOSED)
  /\ (db.status r = db.OPEN <-> db.pnl r = None).

(** What a row says about an event of type [ty]: closed without level 3
    hit for the stop, the hit-flag for a level. *)
Definition row_recorded (r : db.Trade) (ty : EventType) : bool :=
  match ty with
  | STOP_LOSS => negb (db.is_open r) && negb (db.tp3_hit r)
  | TP1 => db.tp1_hit r
  | TP2 => db.tp2_hit r
  | TP3_FULL => db.tp3_hit r
  end.

Definition recorded (t : list db.Trade) (i : Z) (ty : EventType) : bool :=
  match db.fetchone i t with
  | None => false
  | Some r => row_recorded r ty
  end.

(** How many events of type [ty] the log holds. *)
Definition count_type (ty : EventType) (log : list Result) : nat :=
  length (List.filter (fun e => bool_decide (type e = ty)) log).

(** The events that close a position, and the sum of their pnl. *)
Definition closing_events (log : list Result) : list Result :=
  List.filter (fun e => closes (type e)) log.

Fixpoint log_pnl (log : list Result) : Q :=
  match log with
  | [] => 0
  | e :: rest => SignalTracker.pnl e + log_pnl rest
  end.

(** What [stats] reports against the closing events of a log. *)
Definition stats_agree (t : list db.Trade) (log : list Result) : Prop :=
  (Aggregates.stats t).1.1 = Z.of_nat (length (closing_events log))
  /\ (Aggregates.stats t).1.2
     = Z.of_nat (length (List.filter
                           (fun e => Qgtb (SignalTracker.pnl e) 0)
                           (closing_events log)))
  /\ ((Aggregates.stats t).2 == log_pnl (closing_events log))%Q.

(** What the table holds for a notified event. *)
Definition backed (t : list db.Trade) (e : Result) : Prop :=
  exists r,
    db.fetchone (event_id e) t = Some r
    /\ static r = static (signal e)
    /\ row_blocked r (type e) = true
    /\ (closes (type e) = true ->
        db.is_open r = false /\ db.pnl r = Some (SignalTracker.pnl e)).

End MoreProps.

(** * Properties *)

(** ** Comparisons on floats *)

Lemma Qltb_true (x y : Q) : Qltb x y = true <-> (x < y)%Q.
Proof.
  unfold Qltb. rewrite Qlt_alt. destruct (x ?= y)%Q; split; congruence.
Qed.

Lemma Qltb_false (x y : Q) : Qltb x y = false <-> (y <= x)%Q.
Proof.
  rewrite <- not_true_iff_false, Qltb_true. split.
  - apply Qnot_lt_le.
  - apply Qle_not_lt.
Qed.

Lemma Qleb_true (x y : Q) : Qleb x y = true <-> (x <= y)%Q.
Proof.
  unfold Qleb, Qle, Qcompare.
  destruct (Z.compare_spec (Qnum x * QDen y) (Qnum y * QDen x));
    split; intros; try congruence; try lia.
Qed.

Lemma Qleb_false (x y : Q) : Qleb x y = false <-> (y < x)%Q.
Proof.
  rewrite <- not_true_iff_false, Qleb_true. split.
  - apply Qnot_le_lt.
  - apply Qlt_not_le.
Qed.

Lemma Qis_zero_true (x : Q) : Qis_zero x = true <-> (x == 0)%Q.
Proof. apply Qeq_bool_iff. Qed.

Lemma Qmax_py_cases (a b : Q) : Qmax_py a b = a \/ Qmax_py a b = b.
Proof. unfold Qmax_py. destruct (Qltb a b); auto. Qed.

(** ** The scorer *)

Section ScorerFacts.
Import TechnicalAnalyzer.

Import Props.

Lemma bull_nonneg n s : (0 <= n)%Z -> nonneg_pair s -> nonneg_pair (bull n s).
Proof. unfold nonneg_pair, bull; simpl; lia. Qed.

Lemma bear_nonneg n s : (0 <= n)%Z -> nonneg_pair s -> nonneg_pair (bear n s).
Proof. unfold nonneg_pair, bear; simpl; lia. Qed.

Ltac rule_nonneg :=
  intros; repeat match goal with
                 | |- context [if ?b then _ else _] => destruct b
                 end;
  try (apply bull_nonneg || apply bear_nonneg); auto; lia.

Lemma rsi_rule_nonneg r s : nonneg_pair s -> nonneg_pair (rsi_rule r s).
Proof. unfold rsi_rule. rule_nonneg. Qed.

Lemma macd_rule_nonneg r p s : nonneg_pair s -> nonneg_pair (macd_rule r p s).
Proof. unfold macd_rule. rule_nonneg. Qed.

Lemma ma_rule_nonneg r s : nonneg_pair s -> nonneg_pair (ma_rule r s).
Proof. unfold ma_rule. rule_nonneg. Qed.

Lemma bb_rule_nonneg r s : nonneg_pair s -> nonneg_pair (bb_rule r s).
Proof. unfold bb_rule. rule_nonneg. Qed.

Lemma stoch_rule_nonneg r s : nonneg_pair s -> nonneg_pair (stoch_rule r s).
Proof. unfold stoch_rule. rule_nonneg. Qed.

Lemma volume_rule_nonneg r s : nonneg_pair s -> nonneg_pair (volume_rule r s).
Proof. unfold volume_rule. rule_nonneg. Qed.

(** What [get_signal_strength] returns, read off its last two rows. *)
Lemma get_signal_strength_inv df st :
  get_signal_strength df = Some st ->
  exists last prev,
    iloc_neg 1 df = Some last /\ iloc_neg 2 df = Some prev
    /\ trend_strength st = adx last
    /\ net_score st = (bullish_score st - bearish_score st)%Z
    /\ (0 <= bullish_score st)%Z /\ (0 <= bearish_score st)%Z
    /\ confidence st
       = (inject_Z (Z.abs (bullish_score st - bearish_score st))
          / inject_Z (Z.max (bullish_score st + bearish_score st) 1))%Q.
Proof.
  unfold get_signal_strength. intros H.
  destruct (iloc_neg 1 df) as [last|] eqn:Hl; [|discriminate].
  destruct (iloc_neg 2 df) as [prev|] eqn:Hp; [|discriminate].
  simpl in H. injection H as <-. exists last, prev. simpl.
  assert (Hnn : nonneg_pair
            (volume_rule last (stoch_rule last (bb_rule last (ma_rule last
               (macd_rule last prev (rsi_rule last (0, 0)%Z))))))).
  { apply volume_rule_nonneg, stoch_rule_nonneg, bb_rule_nonneg,
      ma_rule_nonneg, macd_rule_nonneg, rsi_rule_nonneg.
    unfold nonneg_pair; simpl; lia. }
  destruct Hnn. repeat split; auto.
Qed.

Lemma iloc_neg_Some {A} (k : nat) (df : list A) :
  (1 <= k <= length df)%nat -> is_Some (iloc_neg k df).
Proof.
  intros Hk. unfold iloc_neg. apply lookup_lt_is_Some.
  rewrite length_rev. lia.
Qed.

(** Two rows are enough for the scorer to answer. *)
Lemma get_signal_strength_total df :
  (2 <= length df)%nat -> is_Some (get_signal_strength df).
Proof.
  intros Hlen. unfold get_signal_strength.
  destruct (iloc_neg_Some 1 df) as [last ->]; [lia|].
  destruct (iloc_neg_Some 2 df) as [prev ->]; [lia|].
  simpl. eauto.
Qed.

Lemma ratio_in_unit (a m : Z) :
  (0 <= a <= m)%Z -> (1 <= m)%Z ->
  Props.in_unit (inject_Z a / inject_Z m)%Q.
Proof.
  intros Ha Hm. unfold Props.in_unit.
  assert (Hpos : (0 < inject_Z m)%Q).
  { change 0%Q with (inject_Z 0). rewrite <- Zlt_Qlt. lia. }
  split.
  - apply Qle_shift_div_l; auto. rewrite Qmult_0_l.
    change 0%Q with (inject_Z 0). rewrite <- Zle_Qle. lia.
  - apply Qle_shift_div_r; auto. rewrite Qmult_1_l.
    rewrite <- Zle_Qle. lia.
Qed.

Lemma scorer_confidence_in_unit df st :
  get_signal_strength df = Some st -> Props.in_unit (confidence st).
Proof.
  intros H. apply get_signal_strength_inv in H.
  destruct H as (last & prev & _ & _ & _ & _ & Hb & Hr & ->).
  apply ratio_in_unit; lia.
Qed.
End ScorerFacts.

(** ** The predictor *)

Section PredictorFacts.
Import TechnicalAnalyzer MLPredictor.
Context {sk : Sklearn}.

Import Props.

Lemma predict_trained_cases ml df :
  predict_trained ml df = neutral
  \/ from_proba (model ml) (predict_trained ml df).
Proof.
  unfold predict_trained.
  destruct missing_features; [|auto].
  destruct (last df) as [last_row|]; [|auto].
  destruct (predict_proba (model ml) (features last_row)) as [proba|] eqn:Hp;
    [|auto].
  destruct (2 <=? length proba)%nat; [|auto].
  match goal with
  | |- context [match ?o with Some _ => _ | None => neutral end] =>
      destruct o as [[pl ps]|] eqn:Hprobs
  end; [|auto].
  right. exists (features last_row), proba, pl, ps.
  split; [exact Hp|].
  assert (Hin : pl ∈ proba /\ ps ∈ proba).
  { destruct (np_where_eq 1 (classes_ (model ml)) 0) as [|i_long ?];
      [|destruct (np_where_eq (-1) (classes_ (model ml)) 0) as [|i_short ?]];
      simpl in Hprobs;
      repeat match type of Hprobs with
             | context [?l !! ?i] =>
                 let E := fresh "E" in
                 destruct (l !! i) eqn:E; simpl in Hprobs;
                 [apply list_elem_of_lookup_2 in E|discriminate]
             end;
      injection Hprobs as <- <-; auto. }
  destruct Hin. auto.
Qed.

Lemma predict_cases ml df :
  (predict ml df).1 = neutral
  \/ from_proba (model (predict ml df).2) (predict ml df).1.
Proof.
  unfold predict. destruct (trained ml); simpl.
  - apply predict_trained_cases.
  - destruct (train_on_historical ml df) as [accuracy ml'].
    destruct (Qeq_bool accuracy 0); simpl; [auto|].
    apply predict_trained_cases.
Qed.

Lemma from_proba_direction c p :
  from_proba c p -> direction p = 1%Z \/ direction p = (-1)%Z.
Proof.
  intros (x & proba & pl & ps & _ & _ & _ & ->). simpl.
  destruct (Qgtb pl ps); auto.
Qed.

(** The direction is one of the three documented values, and the unknown
    direction 0 always comes with confidence 0. *)
Lemma predict_direction ml df :
  let p := (predict ml df).1 in
  (direction p = 0%Z /\ confidence p = 0%Q)
  \/ direction p = 1%Z \/ direction p = (-1)%Z.
Proof.
  simpl. destruct (predict_cases ml df) as [-> | H]; [left; auto|].
  right. eapply from_proba_direction; eauto.
Qed.

Lemma predict_zero_confidence ml df :
  direction (predict ml df).1 = 0%Z -> confidence (predict ml df).1 = 0%Q.
Proof.
  destruct (predict_direction ml df) as [[_ H] | [H | H]]; auto;
    rewrite H; discriminate.
Qed.

Lemma predict_confidence_in_unit ml df :
  Props.proba_in_unit (model (predict ml df).2) ->
  Props.in_unit (confidence (predict ml df).1).
Proof.
  intros Hok. destruct (predict_cases ml df) as [-> | H].
  - simpl. split; discriminate.
  - destruct H as (x & proba & pl & ps & Hp & Hl & Hs & ->). simpl.
    apply Hok in Hp. rewrite Forall_forall in Hp.
    destruct (Qmax_py_cases pl ps) as [-> | ->]; auto.
Qed.
End PredictorFacts.

(** ** The generator *)

Section GeneratorFacts.
Import TechnicalAnalyzer MLPredictor SignalGenerator.
Context {cfg : Config} {sk : Sklearn} {ta : Indicators}.

Import Props.

(** [generate] on a frame the scorer can read is the chain of its gates. *)
Lemma generate_unfold ml df symbol frame st last :
  add_all_indicators df = Some frame ->
  get_signal_strength frame = Some st ->
  iloc_neg 1 frame = Some last ->
  let p := (predict ml frame).1 in
  (generate ml df symbol).1
  = if (length frame <? 10)%nat then None
    else if Qltb (combined st p) MIN_CONFIDENCE then None
    else if Qltb (adx last) MIN_ADX then None
    else if disagree (direction p) (net_score st) then None
    else Some (levels symbol
                 (if (direction p =? 1)%Z then LONG else SHORT)
                 (close last) (atr last) (combined st p)).
Proof.
  intros Hta Hst Hlast. simpl. unfold generate, combined.
  rewrite Hta. destruct (length frame <? 10)%nat; [reflexivity|].
  rewrite Hst. destruct (predict ml frame) as [p ml']. simpl.
  destruct (Qltb _ MIN_CONFIDENCE); [reflexivity|].
  rewrite Hlast. destruct (Qltb (adx last) MIN_ADX); [reflexivity|].
  destruct (disagree _ _); reflexivity.
Qed.

(** A returned signal went through the scorer and the predictor. *)
Lemma generate_Some_inv ml df symbol s :
  (generate ml df symbol).1 = Some s ->
  exists frame st last,
    add_all_indicators df = Some frame
    /\ get_signal_strength frame = Some st
    /\ iloc_neg 1 frame = Some last.
Proof.
  unfold generate. intros H.
  destruct (add_all_indicators df) as [frame|]; [|discriminate].
  destruct (length frame <? 10)%nat; [discriminate|].
  destruct (get_signal_strength frame) as [st|] eqn:Hst; [|discriminate].
  destruct (get_signal_strength_inv _ _ Hst) as (last & _ & Hl & _).
  exists frame, st, last. auto.
Qed.

Lemma disagree_true d n :
  disagree d n = true
  <-> (d = 1 /\ n <= 0)%Z \/ (d = -1 /\ n >= 0)%Z.
Proof.
  unfold disagree.
  rewrite orb_true_iff, !andb_true_iff, !Z.eqb_eq, Z.leb_le, Z.geb_le.
  intuition lia.
Qed.

Lemma levels_side symbol sd price a c : side (levels symbol sd price a c) = sd.
Proof. destruct sd; reflexivity. Qed.

Lemma levels_confidence symbol sd price a c :
  SignalGenerator.confidence (levels symbol sd price a c) = c.
Proof. destruct sd; reflexivity. Qed.


End GeneratorFacts.

(** ** The stand-in indicator library *)

Section StandIn.
Import TechnicalAnalyzer SignalGenerator.

(** The last ten of the 109 moving bars become rows. *)
Lemma indicators_on_moving_bars the_adx :
  add_all_indicators (Indicators := Scenario.indicators the_adx)
    Scenario.moving_bars
  = Some (map (Scenario.row_of_bar the_adx) (drop 99 Scenario.moving_bars)).
Proof. vm_compute. reflexivity. Qed.

Lemma indicators_on_nine_bars the_adx :
  add_all_indicators (Indicators := Scenario.indicators the_adx)
    (firstn 9 Scenario.moving_bars)
  = Some [].
Proof. vm_compute. reflexivity. Qed.

(** A history that never moved leaves no row. *)
Lemma indicators_on_flat_history the_adx :
  add_all_indicators (Indicators := Scenario.indicators the_adx)
    (repeat (Scenario.bar 100 100 100) 120)
  = Some [].
Proof. vm_compute. reflexivity. Qed.

Lemma moving_frame_length the_adx :
  length (map (Scenario.row_of_bar the_adx) (drop 99 Scenario.moving_bars))
  = 10%nat.
Proof. vm_compute. reflexivity. Qed.
End StandIn.

(** ** Claims about [generate] *)

Section GeneratorClaims.
Import TechnicalAnalyzer MLPredictor SignalGenerator Props.




(** C7: with the scorer's result [st] and the predictor's answer [p] on the
    frame, [generate] returns none whenever the fused confidence (the mean
    of both confidences) is below MIN_CONFIDENCE, the trend strength is
    below MIN_ADX, or the directions disagree (+1 with net_score <= 0, -1
    with net_score >= 0, so a net score of 0 disagrees with both); a signal
    is returned only when every gate passes, and then one is returned as
    soon as the frame has 10 rows. *)
Theorem generate_gates {cfg : Config} {sk : Sklearn} {ta : Indicators}
    ml df symbol frame st :
  add_all_indicators df = Some frame ->
  get_signal_strength frame = Some st ->
  let p := (predict ml frame).1 in
  let rejected :=
    (combined st p < MIN_CONFIDENCE)%Q
    \/ (trend_strength st < MIN_ADX)%Q
    \/ (direction p = 1 /\ net_score st <= 0)%Z
    \/ (direction p = -1 /\ net_score st >= 0)%Z in
  (rejected -> (generate ml df symbol).1 = None)
  /\ (forall s, (generate ml df symbol).1 = Some s ->
        ~ rejected /\ (10 <= length frame)%nat)
  /\ (~ rejected -> (10 <= length frame)%nat ->
        is_Some (generate ml df symbol).1).
Proof.
  intros Hta Hst p rejected.
  destruct (get_signal_strength_inv _ _ Hst)
    as (last & prev & Hlast & _ & Hts & _).
  rewrite (generate_unfold ml df symbol frame st last Hta Hst Hlast).
  fold p. subst rejected. rewrite Hts.
  destruct (length frame <? 10)%nat eqn:Hlen;
    [apply Nat.ltb_lt in Hlen | apply Nat.ltb_ge in Hlen].
  { split; [reflexivity|split]; [discriminate|]. intros _ Hge. lia. }
  destruct (Qltb (combined st p) MIN_CONFIDENCE) eqn:Hc;
    [apply Qltb_true in Hc | apply Qltb_false in Hc].
  { split; [reflexivity|split]; [discriminate|]. intros Hn. tauto. }
  destruct (Qltb (adx last) MIN_ADX) eqn:Ha;
    [apply Qltb_true in Ha | apply Qltb_false in Ha].
  { split; [reflexivity|split]; [discriminate|]. intros Hn. tauto. }
  destruct (disagree (direction p) (net_score st)) eqn:Hd.
  { apply disagree_true in Hd.
    split; [reflexivity|split]; [discriminate|]. intros Hn. tauto. }
  assert (Hnd : ~ ((direction p = 1 /\ net_score st <= 0)%Z
                   \/ (direction p = -1 /\ net_score st >= 0)%Z)).
  { rewrite <- disagree_true, Hd. discriminate. }
  assert (Hpass : ~ ((combined st p < MIN_CONFIDENCE)%Q
                     \/ (adx last < MIN_ADX)%Q
                     \/ (direction p = 1 /\ net_score st <= 0)%Z
                     \/ (direction p = -1 /\ net_score st >= 0)%Z)).
  { intros [H | [H | H]]; [| |tauto].
    - apply (Qlt_not_le _ _ H Hc).
    - apply (Qlt_not_le _ _ H Ha). }
  split; [tauto|split]; [auto|eauto].
Qed.

(** Scenario D: trend strength 15 against a minimum of 20. *)
Lemma generate_gates_witness :
  (generate (cfg := Scenario.config) (sk := Scenario.sklearn)
     (ta := Scenario.indicators 15)
     Scenario.ml_up Scenario.moving_bars "BTC").1 = None.
Proof.
  pose proof (indicators_on_moving_bars 15) as Hta.
  destruct (get_signal_strength
              (map (Scenario.row_of_bar 15) (drop 99 Scenario.moving_bars)))
    as [st|] eqn:Hst; [|revert Hst; vm_compute; discriminate].
  refine (proj1 (generate_gates (cfg := Scenario.config)
                   (sk := Scenario.sklearn) (ta := Scenario.indicators 15)
                   Scenario.ml_up Scenario.moving_bars "BTC" _ st
                   Hta Hst) _).
  right; left. revert Hst. vm_compute. intros [= <-]. reflexivity.
Defined.

(** C8: on every frame with at least 2 rows the scorer answers, its
    confidence is |bullish - bearish| / max(bullish + bearish, 1) and lies
    in [0,1]; the predictor's confidence lies in [0,1] on every frame, its
    classifier returning probabilities; and the confidence of a generated
    signal is the arithmetic mean of the two. *)
Theorem confidence_bounds_and_mean {cfg : Config} {sk : Sklearn}
    {ta : Indicators} :
  (forall frame, (2 <= length frame)%nat ->
     exists st,
       get_signal_strength frame = Some st
       /\ TechnicalAnalyzer.confidence st
          = (inject_Z (Z.abs (bullish_score st - bearish_score st))
             / inject_Z (Z.max (bullish_score st + bearish_score st) 1))%Q
       /\ in_unit (TechnicalAnalyzer.confidence st))
  /\ (forall ml frame,
        proba_in_unit (model (predict ml frame).2) ->
        in_unit (MLPredictor.confidence (predict ml frame).1))
  /\ (forall ml df symbol s,
        (generate ml df symbol).1 = Some s ->
        exists frame st,
          add_all_indicators df = Some frame
          /\ get_signal_strength frame = Some st
          /\ SignalGenerator.confidence s
             = ((TechnicalAnalyzer.confidence st
                 + MLPredictor.confidence (predict ml frame).1) / 2)%Q).
Proof.
  split; [|split].
  - intros frame Hlen.
    destruct (get_signal_strength_total frame Hlen) as [st Hst].
    exists st. split; [exact Hst|]. split.
    + destruct (get_signal_strength_inv _ _ Hst)
        as (? & ? & _ & _ & _ & _ & _ & _ & H). exact H.
    + eapply scorer_confidence_in_unit; eauto.
  - intros ml frame. apply predict_confidence_in_unit.
  - intros ml df symbol s Hgen.
    destruct (generate_Some_inv _ _ _ _ Hgen)
      as (frame & st & last & Hta & Hst & Hlast).
    exists frame, st. split; [exact Hta|]. split; [exact Hst|].
    rewrite (generate_unfold ml df symbol frame st last Hta Hst Hlast)
      in Hgen.
    repeat match type of Hgen with
           | (if ?b then None else _) = Some _ =>
               destruct b; [discriminate Hgen|]
           end.
    injection Hgen as <-. apply levels_confidence.
Qed.

Lemma confidence_bounds_and_mean_witness :
  (exists st,
     get_signal_strength
       (map (Scenario.row_of_bar 25) (drop 99 Scenario.moving_bars))
     = Some st
     /\ in_unit (TechnicalAnalyzer.confidence st))
  /\ in_unit (MLPredictor.confidence
                (predict (sk := Scenario.sklearn) Scenario.ml_up
                   (map (Scenario.row_of_bar 25)
                      (drop 99 Scenario.moving_bars))).1)
  /\ SignalGenerator.confidence Scenario.long_signal == ((1 + 0.8) / 2)%Q.
Proof.
  destruct (confidence_bounds_and_mean (cfg := Scenario.config)
              (sk := Scenario.sklearn) (ta := Scenario.indicators 25))
    as (Hscorer & Hpred & Hmean).
  split; [|split].
  - destruct (Hscorer (map (Scenario.row_of_bar 25)
                         (drop 99 Scenario.moving_bars)))
      as (st & Hst & _ & Hunit); [rewrite moving_frame_length; lia|].
    exists st. split; assumption.
  - apply Hpred. intros x p [= <-].
    repeat constructor; vm_compute; discriminate.
  - destruct (Hmean Scenario.ml_up Scenario.moving_bars "BTC"%string
                Scenario.long_signal) as (frame & st & Hta & Hst & ->).
    + vm_compute. reflexivity.
    + revert Hta. vm_compute. intros [= <-].
      revert Hst. vm_compute. intros [= <-]. vm_compute. reflexivity.
Defined.

(** C9: when the predictor answers direction 0 while the frame has 10 rows
    and the confidence and trend-strength gates pass, the disagreement gate
    does not fire, whatever the scorer's net score is, and [generate]
    returns a SHORT signal. *)
Theorem generate_unknown_direction_short {cfg : Config} {sk : Sklearn}
    {ta : Indicators} ml df symbol frame st :
  add_all_indicators df = Some frame ->
  get_signal_strength frame = Some st ->
  (10 <= length frame)%nat ->
  direction (predict ml frame).1 = 0%Z ->
  (MIN_CONFIDENCE <= combined st (predict ml frame).1)%Q ->
  (MIN_ADX <= trend_strength st)%Q ->
  (forall n, disagree 0 n = false)
  /\ exists s, (generate ml df symbol).1 = Some s /\ side s = SHORT.
Proof.
  intros Hta Hst Hlen Hdir Hconf Hadx.
  split; [intros n; reflexivity|].
  destruct (get_signal_strength_inv _ _ Hst)
    as (last & prev & Hlast & _ & Hts & _).
  rewrite (generate_unfold ml df symbol frame st last Hta Hst Hlast).
  rewrite Hts in Hadx.
  apply Nat.ltb_ge in Hlen. apply Qltb_false in Hconf, Hadx.
  rewrite Hlen, Hconf, Hadx, Hdir. simpl.
  eexists. split; reflexivity.
Qed.

(** The scorer is bullish (net score +5), the classifier raises, and the
    signal is SHORT. *)
Lemma generate_unknown_direction_short_witness :
  (net_score <$> get_signal_strength
                   (map (Scenario.row_of_bar 25)
                      (drop 99 Scenario.moving_bars)))
  = Some 5%Z
  /\ exists s,
       (generate (cfg := Scenario.config) (sk := Scenario.sklearn)
          (ta := Scenario.indicators 25)
          Scenario.ml_broken Scenario.moving_bars "BTC").1 = Some s
       /\ side s = SHORT.
Proof.
  split; [vm_compute; reflexivity|].
  pose proof (indicators_on_moving_bars 25) as Hta.
  destruct (get_signal_strength
              (map (Scenario.row_of_bar 25) (drop 99 Scenario.moving_bars)))
    as [st|] eqn:Hst; [|revert Hst; vm_compute; discriminate].
  refine (proj2 (generate_unknown_direction_short (cfg := Scenario.config)
                   (sk := Scenario.sklearn) (ta := Scenario.indicators 25)
                   Scenario.ml_broken Scenario.moving_bars "BTC" _ st
                   Hta Hst _ _ _ _)).
  - rewrite moving_frame_length. lia.
  - vm_compute. reflexivity.
  - revert Hst. vm_compute. intros [= <-]. discriminate.
  - revert Hst. vm_compute. intros [= <-]. discriminate.
Defined.
End GeneratorClaims.

(** ** The trades table *)

Section TableFacts.
Import db.

Lemma update_where_id_ids i f t :
  (forall r, id (f r) = id r) ->
  map id (update_where_id i f t) = map id t.
Proof.
  intros Hf. unfold update_where_id. induction t as [|r t IH]; simpl.
  - reflexivity.
  - rewrite IH. destruct (id r =? i)%Z; rewrite ?Hf; reflexivity.
Qed.

Lemma fetchone_update i j f t :
  (forall r, id (f r) = id r) ->
  fetchone j (update_where_id i f t)
  = if (i =? j)%Z then f <$> fetchone j t else fetchone j t.
Proof.
  intros Hf. unfold fetchone, update_where_id.
  induction t as [|r t IH]; simpl.
  - destruct (i =? j)%Z; reflexivity.
  - destruct (Z.eqb_spec (id r) i) as [Hri|Hri]; rewrite ?Hf;
      destruct (Z.eqb_spec (id r) j) as [Hrj|Hrj];
      destruct (Z.eqb_spec i j) as [Hij|Hij];
      simpl; try lia; try reflexivity;
      rewrite IH; destruct (Z.eqb_spec i j); try lia; reflexivity.
Qed.

Lemma update_where_id_twice i f g t :
  (forall r, id (f r) = id r) ->
  update_where_id i g (update_where_id i f t)
  = update_where_id i (fun r => g (f r)) t.
Proof.
  intros Hf. unfold update_where_id. rewrite map_map.
  apply map_ext. intros r.
  destruct (id r =? i)%Z eqn:Hri; [rewrite Hf|]; rewrite Hri; reflexivity.
Qed.

Lemma fetchone_Some i t r :
  fetchone i t = Some r -> r ∈ t /\ id r = i.
Proof.
  unfold fetchone. intros H. apply find_some in H.
  destruct H as [Hin Heq]. apply Z.eqb_eq in Heq.
  split; [apply list_elem_of_In; exact Hin | exact Heq].
Qed.

Lemma fetchone_None i t :
  fetchone i t = None -> i ∉ map id t.
Proof.
  unfold fetchone. intros H Hin.
  apply list_elem_of_In, in_map_iff in Hin. destruct Hin as (r & <- & Hr).
  apply (find_none _ _ H) in Hr. rewrite Z.eqb_refl in Hr. discriminate.
Qed.

(** Under a unique key a row is what a lookup of its id returns. *)
Lemma fetchone_unique t r :
  NoDup (map id t) -> r ∈ t -> fetchone (id r) t = Some r.
Proof.
  unfold fetchone. induction t as [|r' t IH]; simpl; intros Hnd Hin.
  - inversion Hin.
  - apply NoDup_cons in Hnd. destruct Hnd as [Hnotin Hnd].
    apply elem_of_cons in Hin. destruct Hin as [-> | Hin].
    + rewrite Z.eqb_refl. reflexivity.
    + destruct (id r' =? id r)%Z eqn:E; [|auto].
      apply Z.eqb_eq in E. exfalso. apply Hnotin. rewrite E.
      apply list_elem_of_fmap. exists r. auto.
Qed.

Lemma lastrowid_fresh t : forall r, r ∈ t -> (id r < lastrowid t)%Z.
Proof.
  unfold lastrowid. induction t as [|r' t IH]; simpl; intros r Hin.
  - inversion Hin.
  - apply elem_of_cons in Hin. destruct Hin as [-> | Hin].
    + lia.
    + specialize (IH r Hin). lia.
Qed.

Lemma fetchone_app_other i t r :
  id r <> i -> fetchone i (t ++ [r]) = fetchone i t.
Proof.
  intros Hne. unfold fetchone. induction t as [|r' t IH]; simpl.
  - destruct (id r =? i)%Z eqn:E; [apply Z.eqb_eq in E; contradiction|].
    reflexivity.
  - destruct (id r' =? i)%Z; [reflexivity | exact IH].
Qed.

Lemma get_open_trades_spec t r :
  r ∈ get_open_trades t <-> r ∈ t /\ is_open r = true.
Proof.
  unfold get_open_trades. rewrite !list_elem_of_In. apply filter_In.
Qed.

Lemma get_open_trades_NoDup t :
  NoDup (map id t) -> NoDup (map id (get_open_trades t)).
Proof.
  unfold get_open_trades. induction t as [|r t IH]; simpl; intros Hnd.
  - constructor.
  - apply NoDup_cons in Hnd. destruct Hnd as [Hnotin Hnd].
    destruct (is_open r); [|auto]. simpl. apply NoDup_cons. split; [|auto].
    intros Hin. apply Hnotin.
    apply list_elem_of_fmap in Hin. destruct Hin as (r' & -> & Hr').
    apply list_elem_of_In, filter_In in Hr'. destruct Hr' as [Hr' _].
    apply list_elem_of_fmap. exists r'. split; [reflexivity|].
    apply list_elem_of_In. exact Hr'.
Qed.
End TableFacts.

(** ** One position, one pass: [_check_signal] *)

Section CheckSignal.
Import SignalTracker Lifecycle.
Context {cfg : Config}.
Local Arguments crossed : simpl never.
Local Arguments exit_level : simpl never.

Ltac run_monad :=
  unfold mbind, M_bind, mret, M_ret, read, write_table, send_signal_result,
    of_option, raise; simpl.

(** A position without a usable cached price is left alone. *)
Lemma check_signal_no_price s st :
  match price_cache st !! db.symbol s with
  | None => True
  | Some p => Qis_zero p = true
  end ->
  _check_signal s st = (Ok None, st).
Proof.
  unfold _check_signal. run_monad.
  destruct (price_cache st !! db.symbol s) as [p|]; [|reflexivity].
  intros ->. reflexivity.
Qed.

Ltac emits_side :=
  first [ discriminate | eassumption
        | intros ? [= <-]; eassumption | reflexivity ].

Ltac build_emits :=
  solve [ apply emits_done
        | eapply (emits_step _ _ _ STOP_LOSS); [emits_side ..| build_emits]
        | eapply (emits_step _ _ _ TP1); [emits_side ..| build_emits]
        | eapply (emits_step _ _ _ TP2); [emits_side ..| build_emits]
        | eapply (emits_step _ _ _ TP3_FULL); [emits_side ..| build_emits] ].

(** With a usable price [p], the pass performs a chain of transitions;
    it returns the first of them, or raises. *)
Lemma check_signal_emits s st p :
  price_cache st !! db.symbol s = Some p ->
  Qis_zero p = false ->
  exists evs,
    emits s p st evs (_check_signal s st).2
    /\ ((_check_signal s st).1 = Ok (head evs)
        \/ (_check_signal s st).1 = Raised).
Proof.
  intros Hp Hz. unfold _check_signal. run_monad. rewrite Hp, Hz.
  fold (entry_avg s).
  change ((is_long_side (db.side s) && (p <=? db.stop s)%float)
          || (negb (is_long_side (db.side s)) && (p >=? db.stop s)%float))
    with (crossed s p STOP_LOSS).
  change ((is_long_side (db.side s) && (p >=? db.tp1 s)%float)
          || (negb (is_long_side (db.side s)) && (p <=? db.tp1 s)%float))
    with (crossed s p TP1).
  change ((is_long_side (db.side s) && (p >=? db.tp2 s)%float)
          || (negb (is_long_side (db.side s)) && (p <=? db.tp2 s)%float))
    with (crossed s p TP2).
  change ((is_long_side (db.side s) && (p >=? db.tp3 s)%float)
          || (negb (is_long_side (db.side s)) && (p <=? db.tp3 s)%float))
    with (crossed s p TP3_FULL).
  change (db.stop s) with (exit_level s STOP_LOSS).
  change (db.tp1 s) with (exit_level s TP1).
  change (db.tp2 s) with (exit_level s TP2).
  change (db.tp3 s) with (exit_level s TP3_FULL).
  repeat match goal with
         | |- context [if crossed s p ?ty then _ else _] =>
             destruct (crossed s p ty) eqn:?; simpl
         | |- context [if crossed s p ?ty && negb ?b then _ else _] =>
             destruct (crossed s p ty) eqn:?; simpl
         | |- context [if negb (db.is_tp_hit ?t ?i ?k) then _ else _] =>
             destruct (db.is_tp_hit t i k) eqn:?; simpl
         | |- context [_calculate_pnl ?a ?b ?c] =>
             destruct (_calculate_pnl a b c) eqn:?; simpl
         end.
  all: eexists; split; [build_emits | (left; reflexivity) || (right; reflexivity)].
Qed.
End CheckSignal.

Section CheckSignalChecked.
Import SignalTracker Lifecycle.
Context {cfg : Config}.

(** Every pass of [_check_signal] is a [checked] step; it returns the
    first transition it performed, unless it raises. *)
Lemma check_signal_checked s st :
  exists evs,
    checked s st evs (_check_signal s st).2
    /\ ((_check_signal s st).1 = Ok (head evs)
        \/ (_check_signal s st).1 = Raised).
Proof.
  destruct (price_cache st !! db.symbol s) as [p|] eqn:Hp.
  - destruct (Qis_zero p) eqn:Hz.
    + exists []. rewrite check_signal_no_price by (rewrite Hp; exact Hz).
      split; [|left; reflexivity].
      left. rewrite Hp. auto.
    + destruct (check_signal_emits s st p Hp Hz) as (evs & He & Hr).
      exists evs. split; [|exact Hr]. right. exists p. auto.
  - exists []. rewrite check_signal_no_price by (rewrite Hp; exact I).
    split; [|left; reflexivity].
    left. rewrite Hp. auto.
Qed.
End CheckSignalChecked.

(** ** What a chain of transitions does to the state *)

Section RowFacts.
Import SignalTracker Lifecycle.

Lemma row_after_id ty pnl r : db.id (row_after ty pnl r) = db.id r.
Proof. destruct ty; reflexivity. Qed.

(** Hit-flags and the closed status are never taken back. *)
Lemma row_after_blocked_mono ty pnl r ty' :
  row_blocked r ty' = true -> row_blocked (row_after ty pnl r) ty' = true.
Proof.
  destruct ty, ty'; simpl; unfold db.is_open; simpl; intros H;
    try exact H; try reflexivity; destruct (db.status r); auto.
Qed.

Lemma row_after_blocks ty pnl r : row_blocked (row_after ty pnl r) ty = true.
Proof. destruct ty; reflexivity. Qed.

Lemma row_after_open ty pnl r :
  closes ty = false -> db.is_open (row_after ty pnl r) = db.is_open r.
Proof. destruct ty; simpl; intros H; try discriminate H; reflexivity. Qed.

Lemma table_after_update s ty pnl t :
  table_after s ty pnl t
  = db.update_where_id (db.id s) (row_after ty pnl) t.
Proof.
  destruct ty; simpl; try reflexivity.
  unfold db.close_trade, db.mark_tp_hit. simpl.
  apply (update_where_id_twice _ (db.set_tp_hit 3) (db.set_closed pnl)).
  reflexivity.
Qed.

Lemma table_after_ids s ty pnl t :
  map db.id (table_after s ty pnl t) = map db.id t.
Proof.
  rewrite table_after_update. apply update_where_id_ids.
  intros r. apply row_after_id.
Qed.

Lemma table_after_fetchone s ty pnl t j :
  db.fetchone j (table_after s ty pnl t)
  = if (db.id s =? j)%Z then row_after ty pnl <$> db.fetchone j t
    else db.fetchone j t.
Proof.
  rewrite table_after_update. apply fetchone_update.
  intros r. apply row_after_id.
Qed.

Lemma table_after_blocked_mono s ty pnl t i ty' :
  blocked t i ty' = true -> blocked (table_after s ty pnl t) i ty' = true.
Proof.
  unfold blocked. rewrite table_after_fetchone.
  destruct (db.id s =? i)%Z; [|auto].
  destruct (db.fetchone i t) as [r|]; simpl; [|discriminate].
  apply row_after_blocked_mono.
Qed.

Lemma is_tp_hit_blocked t i ty k :
  tp_level ty = Some k -> db.is_tp_hit t i k = blocked t i ty.
Proof.
  unfold db.is_tp_hit, blocked.
  destruct ty; simpl; intros [= <-]; simpl;
    destruct (db.fetchone i t); reflexivity.
Qed.

Lemma count_events_app i ty l1 l2 :
  count_events i ty (l1 ++ l2)
  = (count_events i ty l1 + count_events i ty l2)%nat.
Proof. unfold count_events. rewrite List.filter_app, length_app. reflexivity. Qed.

Lemma count_events_none i ty l :
  Forall (fun e => event_id e <> i) l -> count_events i ty l = 0%nat.
Proof.
  unfold count_events. induction 1 as [|e l He _ IH]; simpl; [reflexivity|].
  unfold matches at 1. destruct (Z.eqb_spec (event_id e) i); [contradiction|].
  exact IH.
Qed.

Lemma matches_event s p ty pnl i ty' :
  matches i ty' (event s p ty pnl) = true <-> db.id s = i /\ ty = ty'.
Proof.
  unfold matches, event_id. simpl.
  rewrite andb_true_iff, Z.eqb_eq, bool_decide_eq_true. reflexivity.
Qed.
End RowFacts.

Section EmitsFacts.
Import SignalTracker Lifecycle.
Context {cfg : Config}.

Lemma emits_cache s p st evs st' :
  emits s p st evs st' -> price_cache st' = price_cache st.
Proof. induction 1; simpl in *; congruence. Qed.

Lemma emits_notified s p st evs st' :
  emits s p st evs st' -> notified st' = notified st ++ evs.
Proof.
  induction 1 as [st | st ty pnl evs st' _ _ _ _ _ IH]; simpl in *.
  - rewrite app_nil_r. reflexivity.
  - rewrite IH, <- app_assoc. reflexivity.
Qed.

Lemma emits_ids s p st evs st' :
  emits s p st evs st' -> map db.id (table st') = map db.id (table st).
Proof.
  induction 1 as [st | st ty pnl evs st' _ _ _ _ _ IH]; simpl in *.
  - reflexivity.
  - rewrite IH. apply table_after_ids.
Qed.

(** Rows of other positions are not touched. *)
Lemma emits_fetch_other s p st evs st' j :
  emits s p st evs st' -> j <> db.id s ->
  db.fetchone j (table st') = db.fetchone j (table st).
Proof.
  intros H Hne.
  induction H as [st | st ty pnl evs st' _ _ _ _ _ IH]; simpl in *.
  - reflexivity.
  - rewrite IH, table_after_fetchone.
    destruct (Z.eqb_spec (db.id s) j); [congruence | reflexivity].
Qed.

Lemma emits_blocked_mono s p st evs st' i ty :
  emits s p st evs st' ->
  blocked (table st) i ty = true -> blocked (table st') i ty = true.
Proof.
  induction 1 as [st | st ty0 pnl evs st' _ _ _ _ _ IH]; simpl in *.
  - auto.
  - intros Hb. apply IH. apply table_after_blocked_mono. exact Hb.
Qed.

(** Nothing is emitted without a transition: an empty chain leaves the
    state as it was. *)
Lemma emits_nil_inv s p st st' : emits s p st [] st' -> st' = st.
Proof. inversion 1. reflexivity. Qed.

Lemma emits_events s p st evs st' :
  emits s p st evs st' -> Forall (event_fact s p) evs.
Proof.
  induction 1 as [st | st ty pnl evs st' Hc _ Hpnl _ _ IH].
  - constructor.
  - constructor; [|exact IH]. unfold event_fact. simpl. auto.
Qed.
End EmitsFacts.

(** ** Every event sits behind its guard *)

Section Consistency.
Import SignalTracker Lifecycle.
Context {cfg : Config}.

(** One transition of an open position keeps the log consistent with the
    table: the event was not blocked before and is blocked afterwards. *)
Lemma apply_event_consistent s p ty pnl st r :
  consistent st ->
  db.fetchone (db.id s) (table st) = Some r ->
  db.is_open r = true ->
  (forall k, tp_level ty = Some k ->
     db.is_tp_hit (table st) (db.id s) k = false) ->
  consistent (apply_event s p ty pnl st).
Proof.
  intros [Hnd Hlog] Hr Hopen Hguard. split; simpl.
  - rewrite table_after_ids. exact Hnd.
  - intros i ty'. rewrite count_events_app.
    assert (Hone : count_events i ty' [event s p ty pnl]
                   = if matches i ty' (event s p ty pnl) then 1%nat
                     else 0%nat).
    { unfold count_events. simpl.
      destruct (matches i ty' (event s p ty pnl)); reflexivity. }
    rewrite Hone.
    destruct (matches i ty' (event s p ty pnl)) eqn:Hm.
    + apply matches_event in Hm. destruct Hm as [<- <-].
      assert (Hnb : blocked (table st) (db.id s) ty = false).
      { destruct (tp_level ty) as [k|] eqn:Hk.
        - rewrite <- (is_tp_hit_blocked _ _ _ _ Hk). auto.
        - unfold blocked. rewrite Hr.
          destruct ty; try discriminate Hk. simpl. rewrite Hopen.
          reflexivity. }
      right. destruct (Hlog (db.id s) ty) as [-> | [_ Hb]];
        [|congruence].
      split; [reflexivity|].
      unfold blocked. rewrite table_after_fetchone, Z.eqb_refl, Hr. simpl.
      apply row_after_blocks.
    + rewrite Nat.add_0_r.
      destruct (Hlog i ty') as [H0 | [H1 Hb]]; [left; exact H0|].
      right. split; [exact H1|].
      apply table_after_blocked_mono. exact Hb.
Qed.

Lemma emits_consistent s p st evs st' :
  emits s p st evs st' ->
  consistent st ->
  (exists r, db.fetchone (db.id s) (table st) = Some r
             /\ db.is_open r = true) ->
  consistent st'.
Proof.
  induction 1 as [st | st ty pnl evs st' Hc Hg Hpnl Hcl Hrest IH];
    intros Hcons (r & Hr & Hopen).
  - exact Hcons.
  - assert (Hcons1 : consistent (apply_event s p ty pnl st))
      by (eapply apply_event_consistent; eauto).
    destruct (closes ty) eqn:Hclose.
    + rewrite (Hcl eq_refl) in Hrest.
      apply emits_nil_inv in Hrest. subst st'. exact Hcons1.
    + apply IH; [exact Hcons1|].
      exists (row_after ty pnl r). simpl.
      rewrite table_after_fetchone, Z.eqb_refl, Hr. simpl.
      split; [reflexivity|].
      rewrite row_after_open by exact Hclose. exact Hopen.
Qed.

Lemma checked_consistent s st evs st' :
  checked s st evs st' ->
  consistent st ->
  (exists r, db.fetchone (db.id s) (table st) = Some r
             /\ db.is_open r = true) ->
  consistent st'.
Proof.
  intros [(_ & _ & ->) | (p & _ & _ & He)] Hcons Hopen.
  - exact Hcons.
  - eapply emits_consistent; eauto.
Qed.

Lemma checked_cache s st evs st' :
  checked s st evs st' -> price_cache st' = price_cache st.
Proof.
  intros [(_ & _ & ->) | (p & _ & _ & He)]; [reflexivity|].
  eapply emits_cache; eauto.
Qed.

Lemma checked_notified s st evs st' :
  checked s st evs st' -> notified st' = notified st ++ evs.
Proof.
  intros [(_ & -> & ->) | (p & _ & _ & He)].
  - rewrite app_nil_r. reflexivity.
  - eapply emits_notified; eauto.
Qed.

Lemma checked_ids s st evs st' :
  checked s st evs st' -> map db.id (table st') = map db.id (table st).
Proof.
  intros [(_ & _ & ->) | (p & _ & _ & He)]; [reflexivity|].
  eapply emits_ids; eauto.
Qed.

Lemma checked_fetch_other s st evs st' j :
  checked s st evs st' -> j <> db.id s ->
  db.fetchone j (table st') = db.fetchone j (table st).
Proof.
  intros [(_ & _ & ->) | (p & _ & _ & He)] Hne; [reflexivity|].
  eapply emits_fetch_other; eauto.
Qed.

Lemma checked_blocked_mono s st evs st' i ty :
  checked s st evs st' ->
  blocked (table st) i ty = true -> blocked (table st') i ty = true.
Proof.
  intros [(_ & _ & ->) | (p & _ & _ & He)]; [auto|].
  eapply emits_blocked_mono; eauto.
Qed.

(** The events of a pass: about [s], at the cached price. *)
Lemma checked_events s st evs st' :
  checked s st evs st' ->
  Forall (fun e => exists p, price_cache st !! db.symbol s = Some p
                             /\ Qis_zero p = false /\ event_fact s p e) evs.
Proof.
  intros [(_ & -> & _) | (p & Hp & Hz & He)]; [constructor|].
  apply emits_events in He. eapply Forall_impl; [exact He|].
  intros e Hf. exists p. auto.
Qed.
End Consistency.

(** ** One check cycle *)

Section PriceCache.
Import SignalTracker Lifecycle.

(** [_update_prices] never raises, touches only the cache, and overwrites
    exactly the entries of the listed symbols whose fetched price is
    strictly positive. *)
Lemma update_prices_spec exchange symbols : forall st,
  (_update_prices exchange symbols st).1 = Ok tt
  /\ table (_update_prices exchange symbols st).2 = table st
  /\ notified (_update_prices exchange symbols st).2 = notified st
  /\ forall sym,
       price_cache (_update_prices exchange symbols st).2 !! sym
       = if bool_decide (sym ∈ symbols)
            && Qgtb (DataFetcher.get_current_price exchange sym) 0
         then Some (DataFetcher.get_current_price exchange sym)
         else price_cache st !! sym.
Proof.
  induction symbols as [|a rest IH]; intros st; simpl.
  - repeat split; reflexivity.
  - unfold mbind, M_bind.
    set (price := DataFetcher.get_current_price exchange a).
    set (st1 := ((if Qgtb price 0
                  then write_cache (fun cache => <[a:=price]> cache)
                  else mret tt) st).2).
    assert (H1 : (if Qgtb price 0
                  then write_cache (fun cache => <[a:=price]> cache)
                  else mret tt) st = (Ok tt, st1)).
    { subst st1. destruct (Qgtb price 0); reflexivity. }
    rewrite H1. destruct (IH st1) as (Hr & Ht & Hn & Hc).
    assert (Hst1 : table st1 = table st /\ notified st1 = notified st).
    { subst st1. destruct (Qgtb price 0); auto. }
    destruct Hst1 as [Ht1 Hn1].
    split; [exact Hr|]. split; [congruence|]. split; [congruence|].
    intros sym. rewrite Hc.
    destruct (decide (sym = a)) as [-> | Hne].
    + rewrite (bool_decide_eq_true_2 (a ∈ a :: rest)) by (left).
      fold price. subst st1. simpl.
      destruct (Qgtb price 0) eqn:Hpos.
      * rewrite andb_true_r. simpl. rewrite lookup_insert_eq.
        destruct (bool_decide (a ∈ rest)); reflexivity.
      * rewrite !andb_false_r. reflexivity.
    + assert (Hin : bool_decide (sym ∈ a :: rest)
                    = bool_decide (sym ∈ rest)).
      { apply bool_decide_ext. rewrite elem_of_cons. tauto. }
      rewrite Hin.
      destruct (bool_decide (sym ∈ rest)
                && Qgtb (DataFetcher.get_current_price exchange sym) 0);
        [reflexivity|].
      subst st1. destruct (Qgtb price 0); simpl; [|reflexivity].
      rewrite lookup_insert_ne by congruence. reflexivity.
Qed.

Lemma refreshed_table exchange st : table (refreshed exchange st) = table st.
Proof.
  unfold refreshed. destruct (db.get_open_trades (table st)); [reflexivity|].
  apply update_prices_spec.
Qed.

Lemma refreshed_notified exchange st :
  notified (refreshed exchange st) = notified st.
Proof.
  unfold refreshed. destruct (db.get_open_trades (table st)); [reflexivity|].
  apply update_prices_spec.
Qed.

(** An entry of the refreshed cache is the price fetched in this cycle,
    strictly positive, or the entry the cache already had. *)
Lemma refreshed_cache exchange st sym p :
  price_cache (refreshed exchange st) !! sym = Some p ->
  (p = DataFetcher.get_current_price exchange sym /\ (0 < p)%Q)
  \/ price_cache st !! sym = Some p.
Proof.
  unfold refreshed. destruct (db.get_open_trades (table st)); [auto|].
  destruct (update_prices_spec exchange
              (elements (list_to_set (map db.symbol (t :: l)) : gset string))
              st) as (_ & _ & _ & Hc).
  rewrite Hc.
  destruct (bool_decide _ && Qgtb _ 0) eqn:Hb; [|auto].
  apply andb_true_iff in Hb. destruct Hb as [_ Hpos].
  apply Qltb_true in Hpos. intros [= <-]. auto.
Qed.

Lemma refreshed_cache_positive exchange st :
  cache_positive st -> cache_positive (refreshed exchange st).
Proof.
  intros Hpos sym p Hp.
  destruct (refreshed_cache _ _ _ _ Hp) as [[_ H] | H]; [exact H|].
  eapply Hpos; eauto.
Qed.
End PriceCache.

Section Sweeps.
Import SignalTracker Lifecycle.
Context {cfg : Config}.

(** The loop of [check_all_signals] is a sweep; it returns, after the
    results it was given, the first transition of every position. *)
Lemma check_each_sweeps active : forall results st,
  exists groups ok,
    sweeps active st groups (check_each active results st).2 ok
    /\ (check_each active results st).1
       = if ok then Ok (results ++ omap head groups) else Raised.
Proof.
  induction active as [|s rest IH]; intros results st.
  - exists [], true. simpl. rewrite app_nil_r.
    split; [constructor | reflexivity].
  - destruct (check_signal_checked s st) as (evs & Hch & Hres).
    simpl. unfold mbind, M_bind.
    destruct (_check_signal s st) as [[result|] st1] eqn:Hcs; simpl in *.
    + destruct Hres as [[= ->] | Hres]; [|discriminate Hres].
      destruct (IH (match head evs with
                    | Some r => results ++ [r]
                    | None => results
                    end) st1) as (groups & ok & Hsw & Hr).
      exists (evs :: groups), ok.
      split; [econstructor; eauto|].
      rewrite Hr. destruct ok; [|reflexivity]. f_equal. simpl.
      destruct (head evs); simpl; [|reflexivity].
      rewrite <- app_assoc. reflexivity.
    + exists [evs], false. split; [|reflexivity].
      apply sweeps_abort. exact Hch.
Qed.

(** A whole cycle: refresh the cache, then sweep the open positions. *)
Lemma check_all_signals_sweeps exchange st :
  exists groups ok,
    sweeps (db.get_open_trades (table st)) (refreshed exchange st) groups
      (check_all_signals exchange st).2 ok
    /\ (check_all_signals exchange st).1
       = if ok then Ok (omap head groups) else Raised.
Proof.
  unfold check_all_signals, refreshed, mbind, M_bind, read. simpl.
  destruct (db.get_open_trades (table st)) as [|s rest] eqn:Hact.
  - exists [], true. split; [constructor | reflexivity].
  - set (symbols := elements _).
    destruct (update_prices_spec exchange symbols st) as (Hok & _).
    destruct (_update_prices exchange symbols st) as [o st1]. simpl in *.
    subst o.
    destruct (check_each_sweeps (s :: rest) [] st1)
      as (groups & ok & Hsw & Hr).
    exists groups, ok. auto.
Qed.

Lemma sweeps_cache active st groups st' ok :
  sweeps active st groups st' ok -> price_cache st' = price_cache st.
Proof.
  induction 1 as [st | s rest st evs st1 groups st' ok Hch _ IH
                  | s rest st evs st1 Hch].
  - reflexivity.
  - rewrite IH. eapply checked_cache; eauto.
  - eapply checked_cache; eauto.
Qed.

Lemma sweeps_notified active st groups st' ok :
  sweeps active st groups st' ok ->
  notified st' = notified st ++ concat groups.
Proof.
  induction 1 as [st | s rest st evs st1 groups st' ok Hch _ IH
                  | s rest st evs st1 Hch]; simpl.
  - rewrite app_nil_r. reflexivity.
  - rewrite IH, (checked_notified _ _ _ _ Hch), <- app_assoc. reflexivity.
  - rewrite (checked_notified _ _ _ _ Hch), app_nil_r. reflexivity.
Qed.

Lemma sweeps_ids active st groups st' ok :
  sweeps active st groups st' ok ->
  map db.id (table st') = map db.id (table st).
Proof.
  induction 1 as [st | s rest st evs st1 groups st' ok Hch _ IH
                  | s rest st evs st1 Hch].
  - reflexivity.
  - rewrite IH. eapply checked_ids; eauto.
  - eapply checked_ids; eauto.
Qed.

Lemma sweeps_blocked_mono active st groups st' ok i ty :
  sweeps active st groups st' ok ->
  blocked (table st) i ty = true -> blocked (table st') i ty = true.
Proof.
  induction 1 as [st | s rest st evs st1 groups st' ok Hch _ IH
                  | s rest st evs st1 Hch]; intros Hb.
  - exact Hb.
  - apply IH. eapply checked_blocked_mono; eauto.
  - eapply checked_blocked_mono; eauto.
Qed.

(** Group by group, the events are those of the swept positions. *)
Lemma sweeps_groups active st groups st' ok :
  sweeps active st groups st' ok ->
  Forall2 (fun s g => Forall (fun e => signal e = s) g)
    (take (length groups) active) groups
  /\ (ok = true -> length groups = length active).
Proof.
  induction 1 as [st | s rest st evs st1 groups st' ok Hch _ [IH1 IH2]
                  | s rest st evs st1 Hch]; simpl.
  - split; [constructor | reflexivity].
  - split; [|intros Hok; rewrite IH2 by exact Hok; reflexivity].
    constructor; [|exact IH1].
    eapply Forall_impl; [apply (checked_events _ _ _ _ Hch)|].
    intros e (p & _ & _ & Hs & _). exact Hs.
  - split; [|discriminate].
    rewrite take_0. constructor; [|constructor].
    eapply Forall_impl; [apply (checked_events _ _ _ _ Hch)|].
    intros e (p & _ & _ & Hs & _). exact Hs.
Qed.

(** Every event of a sweep belongs to a swept position and was taken at
    the price the cache held for its symbol. *)
Lemma sweeps_events active st groups st' ok :
  sweeps active st groups st' ok ->
  Forall (fun e => signal e ∈ active
                   /\ exists p, price_cache st !! db.symbol (signal e) = Some p
                                /\ Qis_zero p = false
                                /\ event_fact (signal e) p e)
    (concat groups).
Proof.
  induction 1 as [st | s rest st evs st1 groups st' ok Hch _ IH
                  | s rest st evs st1 Hch]; simpl.
  - constructor.
  - apply Forall_app. split.
    + eapply Forall_impl; [apply (checked_events _ _ _ _ Hch)|].
      intros e (p & Hp & Hz & Hf). pose proof Hf as (Hs & _).
      rewrite Hs. split; [left|]. exists p. auto.
    + rewrite (checked_cache _ _ _ _ Hch) in IH.
      eapply Forall_impl; [exact IH|].
      intros e (Hin & Hp). split; [right; exact Hin | exact Hp].
  - rewrite app_nil_r.
    eapply Forall_impl; [apply (checked_events _ _ _ _ Hch)|].
    intros e (p & Hp & Hz & Hf). pose proof Hf as (Hs & _).
    rewrite Hs. split; [left|]. exists p. auto.
Qed.

Lemma still_open_tail s rest st evs st1 :
  checked s st evs st1 ->
  still_open (s :: rest) (table st) -> still_open rest (table st1).
Proof.
  intros Hch [Hnd Hrows]. simpl in Hnd. apply NoDup_cons in Hnd.
  destruct Hnd as [Hnotin Hnd]. split; [exact Hnd|].
  intros s' Hin. destruct (Hrows s') as [Hf Ho]; [right; exact Hin|].
  split; [|exact Ho].
  rewrite (checked_fetch_other _ _ _ _ _ Hch); [exact Hf|].
  intros Heq. apply Hnotin. rewrite <- Heq.
  apply list_elem_of_fmap. exists s'. auto.
Qed.

Lemma sweeps_consistent active st groups st' ok :
  sweeps active st groups st' ok ->
  consistent st -> still_open active (table st) -> consistent st'.
Proof.
  induction 1 as [st | s rest st evs st1 groups st' ok Hch _ IH
                  | s rest st evs st1 Hch]; intros Hcons Hopen.
  - exact Hcons.
  - apply IH.
    + eapply checked_consistent; eauto.
      exists s. apply Hopen. left.
    + eapply still_open_tail; eauto.
  - eapply checked_consistent; eauto.
    exists s. apply Hopen. left.
Qed.

Lemma still_open_start t :
  NoDup (map db.id t) -> still_open (db.get_open_trades t) t.
Proof.
  intros Hnd. split; [apply get_open_trades_NoDup; exact Hnd|].
  intros s Hin. apply get_open_trades_spec in Hin. destruct Hin as [Hin Ho].
  split; [apply fetchone_unique; assumption | exact Ho].
Qed.
End Sweeps.

(** ** Runs of the engine *)

Section Runs.
Import SignalTracker Lifecycle Engine.
Context {cfg : Config}.

Lemma fetchone_app_Some i t r r' :
  db.fetchone i t = Some r -> db.fetchone i (t ++ [r']) = Some r.
Proof.
  unfold db.fetchone. induction t as [|a t IH]; simpl; [discriminate|].
  destruct (db.id a =? i)%Z; auto.
Qed.

Lemma persist_table sig st :
  exists r, table (persist sig st) = table st ++ [r]
            /\ db.id r = db.lastrowid (table st).
Proof. unfold persist, db.open_trade. simpl. eexists. split; reflexivity. Qed.

Lemma persist_blocked_mono sig st i ty :
  blocked (table st) i ty = true ->
  blocked (table (persist sig st)) i ty = true.
Proof.
  destruct (persist_table sig st) as (r & -> & _). unfold blocked.
  destruct (db.fetchone i (table st)) as [r0|] eqn:Hf; [|discriminate].
  rewrite (fetchone_app_Some _ _ _ r Hf). auto.
Qed.

Lemma persist_NoDup sig st :
  NoDup (map db.id (table st)) ->
  NoDup (map db.id (table (persist sig st))).
Proof.
  intros Hnd. destruct (persist_table sig st) as (r & -> & Hid).
  rewrite map_app. simpl. apply NoDup_app. split; [exact Hnd|].
  split; [|apply NoDup_singleton].
  intros x Hx Hx'. apply list_elem_of_singleton in Hx'. subst x.
  apply list_elem_of_fmap in Hx. destruct Hx as (r0 & Heq & Hin).
  pose proof (lastrowid_fresh _ _ Hin). lia.
Qed.

Lemma persist_consistent sig st : consistent st -> consistent (persist sig st).
Proof.
  intros [Hnd Hlog]. split; [apply persist_NoDup; exact Hnd|].
  intros i ty. change (notified (persist sig st)) with (notified st).
  destruct (Hlog i ty) as [H0 | [H1 Hb]]; [left; exact H0|].
  right. split; [exact H1|]. apply persist_blocked_mono. exact Hb.
Qed.

(** What one check cycle adds to the log, and what it keeps. *)
Lemma check_signals_effect exchange st :
  exists evs,
    notified (check_signals exchange st) = notified st ++ evs
    /\ price_cache (check_signals exchange st)
       = price_cache (refreshed exchange st)
    /\ map db.id (table (check_signals exchange st)) = map db.id (table st)
    /\ (forall i ty, blocked (table st) i ty = true ->
          blocked (table (check_signals exchange st)) i ty = true)
    /\ (consistent st -> consistent (check_signals exchange st))
    /\ Forall (fun e =>
                 signal e ∈ db.get_open_trades (table st)
                 /\ exists p,
                      price_cache (refreshed exchange st)
                        !! db.symbol (signal e) = Some p
                      /\ Qis_zero p = false
                      /\ event_fact (signal e) p e) evs
    /\ forall results,
         (check_all_signals exchange st).1 = Ok results ->
         forall e, e ∈ results -> e ∈ evs.
Proof.
  unfold check_signals.
  destruct (check_all_signals_sweeps exchange st)
    as (groups & ok & Hsw & Hres).
  exists (concat groups).
  split; [rewrite (sweeps_notified _ _ _ _ _ Hsw), refreshed_notified;
          reflexivity|].
  split; [eapply sweeps_cache; eauto|].
  split; [rewrite (sweeps_ids _ _ _ _ _ Hsw), refreshed_table; reflexivity|].
  split.
  { intros i ty Hb. eapply sweeps_blocked_mono; eauto.
    rewrite refreshed_table. exact Hb. }
  split.
  { intros Hcons. eapply sweeps_consistent; eauto.
    - destruct Hcons as [Hnd Hlog].
      split; rewrite ?refreshed_table, ?refreshed_notified; auto.
    - rewrite refreshed_table. apply still_open_start. apply Hcons. }
  split; [eapply sweeps_events; eauto|].
  intros results Hr e He. rewrite Hres in Hr.
  destruct ok; [|discriminate Hr]. injection Hr as <-.
  apply list_elem_of_omap in He. destruct He as (g & Hg & Hhead).
  apply list_elem_of_In, in_concat. exists g.
  split; [apply list_elem_of_In; exact Hg|].
  destruct g as [|e' g]; [discriminate Hhead|].
  injection Hhead as ->. left. reflexivity.
Qed.

Lemma step_consistent st task : consistent st -> consistent (step st task).
Proof.
  destruct task as [sig | exchange |]; simpl.
  - apply persist_consistent.
  - destruct (check_signals_effect exchange st) as (evs & _ & _ & _ & _ & H & _).
    exact H.
  - auto.
Qed.

Lemma boot_consistent : consistent boot.
Proof. split; [constructor | intros i ty; left; reflexivity]. Qed.

Lemma run_app tasks1 tasks2 st :
  run (tasks1 ++ tasks2) st = run tasks2 (run tasks1 st).
Proof. unfold run. apply foldl_app. Qed.

(** A property of states kept by every task holds along every run. *)
Lemma run_invariant (P : State -> Prop) :
  (forall st task, P st -> P (step st task)) ->
  forall tasks st, P st -> P (run tasks st).
Proof.
  intros Hstep tasks. unfold run.
  induction tasks as [|task tasks IH]; intros st HP; simpl; auto.
Qed.

Lemma run_consistent tasks st : consistent st -> consistent (run tasks st).
Proof. apply run_invariant. intros; apply step_consistent; assumption. Qed.

Lemma step_blocked_mono st task i ty :
  blocked (table st) i ty = true -> blocked (table (step st task)) i ty = true.
Proof.
  destruct task as [sig | exchange |]; simpl.
  - apply persist_blocked_mono.
  - destruct (check_signals_effect exchange st) as (evs & _ & _ & _ & H & _).
    apply H.
  - auto.
Qed.

Lemma run_blocked_mono tasks st i ty :
  blocked (table st) i ty = true -> blocked (table (run tasks st)) i ty = true.
Proof.
  apply (run_invariant (fun st => blocked (table st) i ty = true)).
  intros; apply step_blocked_mono; assumption.
Qed.

Lemma step_cache_positive st task :
  cache_positive st -> cache_positive (step st task).
Proof.
  destruct task as [sig | exchange |]; simpl; [auto| |].
  - intros Hpos sym p.
    destruct (check_signals_effect exchange st) as (evs & _ & -> & _).
    apply refreshed_cache_positive. exact Hpos.
  - intros _ sym p H. simpl in H. rewrite lookup_empty in H. discriminate H.
Qed.

(** A property of events that every cycle establishes for the events it
    adds holds for the whole log of a run. *)
Lemma run_log_invariant (Inv : State -> Prop) (P : Result -> Prop) :
  (forall st task, Inv st -> Inv (step st task)) ->
  (forall st exchange e p,
     Inv st ->
     signal e ∈ db.get_open_trades (table st) ->
     price_cache (refreshed exchange st) !! db.symbol (signal e) = Some p ->
     Qis_zero p = false ->
     event_fact (signal e) p e -> P e) ->
  forall tasks st,
    Inv st -> Forall P (notified st) -> Forall P (notified (run tasks st)).
Proof.
  intros Hinv Hnew tasks. unfold run.
  induction tasks as [|task tasks IH]; intros st HI HP; simpl; [exact HP|].
  apply IH; [apply Hinv; exact HI|].
  destruct task as [sig | exchange |]; simpl; [exact HP| |exact HP].
  destruct (check_signals_effect exchange st)
    as (evs & -> & _ & _ & _ & _ & Hev & _).
  apply Forall_app. split; [exact HP|].
  eapply Forall_impl; [exact Hev|].
  intros e (Hin & p & Hp & Hz & Hf). eapply Hnew; eauto.
Qed.
End Runs.

(** ** The exact effect of a pass and of a cycle *)

Section PassGroups.
Import SignalTracker Lifecycle Groups.
Context {cfg : Config}.
Local Arguments crossed : simpl never.
Local Arguments exit_level : simpl never.

(** Marking one level does not change what is read of another. *)
Lemma is_tp_hit_mark_other t i k k' :
  db.valid_level k = true -> db.valid_level k' = true -> k <> k' ->
  db.is_tp_hit (db.mark_tp_hit t i k) i k' = db.is_tp_hit t i k'.
Proof.
  intros Hk Hk' Hne. unfold db.is_tp_hit, db.mark_tp_hit.
  rewrite Hk, Hk'. simpl.
  rewrite fetchone_update, Z.eqb_refl by reflexivity.
  destruct (db.fetchone i t) as [r|]; simpl; [|reflexivity].
  unfold db.valid_level in Hk, Hk'.
  apply bool_decide_eq_true in Hk, Hk'.
  repeat (apply elem_of_cons in Hk; destruct Hk as [-> | Hk]);
    try solve [inversion Hk];
    repeat (apply elem_of_cons in Hk'; destruct Hk' as [-> | Hk']);
    try solve [inversion Hk']; try congruence; reflexivity.
Qed.

Lemma state_eta st :
  st = {| table := table st; price_cache := price_cache st;
          notified := notified st ++ [] |}.
Proof. destruct st. simpl. rewrite app_nil_r. reflexivity. Qed.

Ltac level_facts :=
  rewrite ?is_tp_hit_mark_other by (reflexivity || discriminate).

(** A pass that returns has performed exactly the transitions due for its
    position, in their order, and returns the first of them. *)
Lemma check_signal_group s st res st' :
  _check_signal s st = (Ok res, st') ->
  let g := group (table st) (price_cache st) s in
  res = head g
  /\ st' = {| table := persisted g (table st);
              price_cache := price_cache st;
              notified := notified st ++ g |}
  /\ Forall pnl_computed g.
Proof.
  unfold group.
  destruct (price_cache st !! db.symbol s) as [p|] eqn:Hp.
  2:{ rewrite check_signal_no_price by (rewrite Hp; exact I).
      intros [= <- <-]. simpl.
      split; [reflexivity|]. split; [apply state_eta | constructor]. }
  destruct (Qis_zero p) eqn:Hz.
  { rewrite check_signal_no_price by (rewrite Hp; exact Hz).
    intros [= <- <-]. simpl.
    split; [reflexivity|]. split; [apply state_eta | constructor]. }
  unfold _check_signal, mbind, M_bind, mret, M_ret, read, write_table,
    send_signal_result, of_option, raise. simpl. rewrite Hp, Hz.
  fold (entry_avg s).
  change ((is_long_side (db.side s) && (p <=? db.stop s)%float)
          || (negb (is_long_side (db.side s)) && (p >=? db.stop s)%float))
    with (crossed s p STOP_LOSS).
  change ((is_long_side (db.side s) && (p >=? db.tp1 s)%float)
          || (negb (is_long_side (db.side s)) && (p <=? db.tp1 s)%float))
    with (crossed s p TP1).
  change ((is_long_side (db.side s) && (p >=? db.tp2 s)%float)
          || (negb (is_long_side (db.side s)) && (p <=? db.tp2 s)%float))
    with (crossed s p TP2).
  change ((is_long_side (db.side s) && (p >=? db.tp3 s)%float)
          || (negb (is_long_side (db.side s)) && (p <=? db.tp3 s)%float))
    with (crossed s p TP3_FULL).
  change (db.stop s) with (exit_level s STOP_LOSS).
  change (db.tp1 s) with (exit_level s TP1).
  change (db.tp2 s) with (exit_level s TP2).
  change (db.tp3 s) with (exit_level s TP3_FULL).
  unfold due, pnl_computed, pnl_at. cbn [List.filter].
  rewrite <- (is_tp_hit_blocked (table st) (db.id s) TP1 1 eq_refl).
  rewrite <- (is_tp_hit_blocked (table st) (db.id s) TP2 2 eq_refl).
  rewrite <- (is_tp_hit_blocked (table st) (db.id s) TP3_FULL 3 eq_refl).
  simpl.
  repeat (level_facts;
          match goal with
          | |- context [if crossed s p ?ty then _ else _] =>
              destruct (crossed s p ty) eqn:?; simpl
          | |- context [if crossed s p ?ty && negb ?b then _ else _] =>
              destruct (crossed s p ty) eqn:?; simpl
          | |- context [if negb (db.is_tp_hit ?t ?i ?k) then _ else _] =>
              destruct (db.is_tp_hit t i k) eqn:?; simpl
          | |- context [_calculate_pnl ?a ?b ?c] =>
              destruct (_calculate_pnl a b c) eqn:?; simpl
          end).
  all: try congruence.
  all: intros [= <- <-] || (intros H; discriminate H).
  all: simpl; rewrite <- ?app_assoc; simpl.
  all: split; [reflexivity|]; split;
         [reflexivity || apply state_eta
         | repeat constructor; simpl; assumption].
Qed.
End PassGroups.

Section CycleGroups.
Import SignalTracker Lifecycle Groups.
Context {cfg : Config}.

Lemma group_signal t cache s :
  Forall (fun e => signal e = s) (group t cache s).
Proof.
  unfold group. destruct (cache !! db.symbol s) as [p|]; [|constructor].
  destruct (Qis_zero p); [constructor|].
  apply Forall_forall. intros e He.
  apply list_elem_of_fmap in He. destruct He as (ty & -> & _). reflexivity.
Qed.

(** The group of a position reads the table at the row of its id only. *)
Lemma group_ext t t' cache s :
  db.fetchone (db.id s) t = db.fetchone (db.id s) t' ->
  group t cache s = group t' cache s.
Proof.
  intros Hf. unfold group, due, blocked. rewrite Hf. reflexivity.
Qed.

Lemma persisted_app g1 g2 t :
  persisted (g1 ++ g2) t = persisted g2 (persisted g1 t).
Proof. unfold persisted. apply foldl_app. Qed.

Lemma persisted_fetch_other g j : forall t,
  Forall (fun e => event_id e <> j) g ->
  db.fetchone j (persisted g t) = db.fetchone j t.
Proof.
  induction g as [|e g IH]; intros t Hg; simpl; [reflexivity|].
  apply Forall_cons in Hg. destruct Hg as [He Hg].
  rewrite IH by exact Hg. rewrite table_after_fetchone.
  destruct (Z.eqb_spec (db.id (signal e)) j) as [Heq | _];
    [contradiction | reflexivity].
Qed.

(** The loop of a cycle that returns has performed, position by position,
    the transitions due against the table it started from. *)
Lemma check_each_groups active : forall results st out st',
  NoDup (map db.id active) ->
  check_each active results st = (Ok out, st') ->
  let groups := map (group (table st) (price_cache st)) active in
  out = results ++ omap head groups
  /\ st' = {| table := persisted (concat groups) (table st);
              price_cache := price_cache st;
              notified := notified st ++ concat groups |}
  /\ Forall pnl_computed (concat groups).
Proof.
  induction active as [|s rest IH]; intros results st out st' Hnd; simpl.
  - intros [= <- <-]. rewrite app_nil_r.
    split; [reflexivity|]. split; [apply state_eta | constructor].
  - unfold mbind, M_bind.
    destruct (_check_signal s st) as [[res|] st1] eqn:Hcs;
      [|intros H; discriminate H].
    destruct (check_signal_group s st res st1 Hcs) as (Hres & Hst1 & Hpnl).
    apply NoDup_cons in Hnd. destruct Hnd as [Hnotin Hnd].
    intros Hrest. destruct (IH _ _ _ _ Hnd Hrest) as (Hout & Hst' & Hpnl').
    set (g := group (table st) (price_cache st) s) in *.
    assert (Hsame : map (group (table st1) (price_cache st1)) rest
                    = map (group (table st) (price_cache st)) rest).
    { apply map_ext_in. intros s' Hin. subst st1. simpl.
      apply group_ext. apply persisted_fetch_other.
      eapply Forall_impl; [apply group_signal|].
      intros e He Heq. apply Hnotin. unfold event_id in Heq.
      rewrite He in Heq. rewrite Heq.
      apply list_elem_of_fmap. exists s'.
      split; [reflexivity | apply list_elem_of_In; exact Hin]. }
    rewrite Hsame in Hout, Hst', Hpnl'.
    split; [|split].
    + rewrite Hout, Hres. destruct (head g); simpl; [|reflexivity].
      rewrite <- app_assoc. reflexivity.
    + rewrite Hst'. subst st1. simpl.
      rewrite persisted_app, <- app_assoc. reflexivity.
    + apply Forall_app. split; [exact Hpnl | exact Hpnl'].
Qed.
End CycleGroups.

(** ** Claims about the tracker *)

Section TrackerClaims.
Import SignalTracker Lifecycle Engine.
Local Open Scope Q_scope.

Lemma event_fact_pnl {cfg : Config} s p e :
  event_fact s p e -> pnl_formula e.
Proof.
  intros (Hs & _ & _ & Hpnl). unfold pnl_formula. rewrite Hs. simpl.
  unfold _calculate_pnl in Hpnl.
  destruct (Qis_zero (entry_avg s)) eqn:Hz; [discriminate Hpnl|].
  split.
  - intros H0. apply Qis_zero_true in H0. congruence.
  - destruct (db.side s); simpl in Hpnl; congruence.
Qed.

(** C6: the weighted entry is entry_a without an averaging entry and
    entry_a * weight_a + entry_b * weight_b with one; the pnl of every event
    emitted along any run of the engine is (exit - weighted_entry) /
    weighted_entry * 100 for LONG and (weighted_entry - exit) /
    weighted_entry * 100 for SHORT, exit being the price of the triggered
    level (stop, tp1, tp2, tp3); with weights 0.7 / 0.3, entries 100 and 98
    give 99.4 and a TP1 at 105 gives (105 - 99.4) / 99.4 * 100. *)
Theorem pnl_against_weighted_entry {cfg : Config} :
  (forall a, _calculate_weighted_entry a None = a)
  /\ (forall a b, _calculate_weighted_entry a (Some b)
                  = (a * POSITION_SIZE_A + b * POSITION_SIZE_B)%Q)
  /\ (forall tasks, Forall pnl_formula (notified (run tasks boot)))
  /\ ((POSITION_SIZE_A == 0.7)%Q -> (POSITION_SIZE_B == 0.3)%Q ->
      (_calculate_weighted_entry 100 (Some 98) == 99.4)%Q
      /\ exists pnl,
           _calculate_pnl (_calculate_weighted_entry 100 (Some 98)) 105 true
           = Some pnl
           /\ (pnl == (105 - 99.4) / 99.4 * 100)%Q).
Proof.
  split; [reflexivity|]. split; [reflexivity|]. split.
  - intros tasks.
    apply (run_log_invariant (fun _ => True) pnl_formula).
    + trivial.
    + intros st exchange e p _ _ _ _ Hf. eapply event_fact_pnl; eauto.
    + trivial.
    + constructor.
  - intros HA HB.
    assert (Hw : (_calculate_weighted_entry 100 (Some 98) == 99.4)%Q).
    { simpl. rewrite HA, HB. reflexivity. }
    split; [exact Hw|].
    assert (Hz : Qis_zero (_calculate_weighted_entry 100 (Some 98))
                 = false).
    { destruct (Qis_zero _) eqn:E; [|reflexivity].
      apply Qis_zero_true in E. rewrite Hw in E. discriminate E. }
    unfold _calculate_pnl. rewrite Hz.
    eexists. split; [reflexivity|]. rewrite Hw. reflexivity.
Qed.

Lemma pnl_against_weighted_entry_witness :
  Forall (pnl_formula (cfg := Scenario.config)) (notified Scenario.stopped)
  /\ (_calculate_weighted_entry (cfg := Scenario.config) 100 (Some 98)
      == 99.4)%Q
  /\ exists pnl,
       _calculate_pnl
         (_calculate_weighted_entry (cfg := Scenario.config) 100 (Some 98))
         105 true = Some pnl
       /\ (pnl == (105 - 99.4) / 99.4 * 100)%Q.
Proof.
  destruct (pnl_against_weighted_entry (cfg := Scenario.config))
    as (_ & _ & Hlog & Hex).
  split; [apply Hlog|].
  apply Hex; reflexivity.
Defined.

(** C10: a failed latest-price fetch returns 0; along any run of the engine
    every price in the tracker's cache is strictly positive, and so is the
    trigger price of every emitted event; a position whose cached price is
    absent or 0 is skipped, whatever its side and stop. *)
Theorem trigger_price_positive {cfg : Config} :
  (forall exchange sym,
     exchange sym = None ->
     DataFetcher.get_current_price exchange sym = 0%Q)
  /\ (forall tasks,
        cache_positive (run tasks boot)
        /\ Forall (fun e => (0 < hit_price e)%Q)
             (notified (run tasks boot)))
  /\ (forall s st,
        price_cache st !! db.symbol s = None ->
        _check_signal s st = (Ok None, st))
  /\ (forall s st p,
        price_cache st !! db.symbol s = Some p -> (p == 0)%Q ->
        _check_signal s st = (Ok None, st)).
Proof.
  split; [|split; [|split]].
  - intros exchange sym H. unfold DataFetcher.get_current_price.
    rewrite H. reflexivity.
  - intros tasks.
    assert (Hboot : cache_positive boot).
    { intros sym p H. unfold boot in H. simpl in H.
      rewrite lookup_empty in H. discriminate H. }
    split.
    + apply (run_invariant cache_positive); [|exact Hboot].
      intros; apply step_cache_positive; assumption.
    + apply (run_log_invariant cache_positive).
      * intros; apply step_cache_positive; assumption.
      * intros st exchange e p Hpos _ Hp _ (_ & -> & _).
        eapply refreshed_cache_positive; eauto.
      * exact Hboot.
      * constructor.
  - intros s st H. apply check_signal_no_price. rewrite H. exact I.
  - intros s st p H Hz. apply check_signal_no_price. rewrite H.
    apply Qis_zero_true. exact Hz.
Qed.

(** The exchange is down, then quotes 0: position A, a LONG with stop 95,
    stays open and silent. *)
Lemma trigger_price_positive_witness :
  DataFetcher.get_current_price Scenario.down "BTC" = 0%Q
  /\ _check_signal (cfg := Scenario.config)
       {| db.id := 1; db.symbol := "BTC"; db.side := LONG;
          db.entry_a := 100; db.entry_b := Some 98%Q; db.stop := 95;
          db.tp1 := 105; db.tp2 := 110; db.tp3 := 120;
          db.status := db.OPEN; db.pnl := None; db.tp1_hit := false;
          db.tp2_hit := false; db.tp3_hit := false |}
       {| table := table Scenario.opened;
          price_cache := {[ "BTC"%string := 0%Q ]};
          notified := [] |}
     = (Ok None,
        {| table := table Scenario.opened;
           price_cache := {[ "BTC"%string := 0%Q ]};
           notified := [] |}).
Proof.
  destruct (trigger_price_positive (cfg := Scenario.config))
    as (Hfail & _ & _ & Hzero).
  split.
  - apply Hfail. reflexivity.
  - apply (Hzero _ _ 0%Q); reflexivity.
Defined.
End TrackerClaims.

Section LifetimeClaims.
Import SignalTracker Lifecycle Engine.
Context {cfg : Config}.

Lemma open_not_closed t s :
  NoDup (map db.id t) -> s ∈ db.get_open_trades t ->
  is_closed t (db.id s) = false.
Proof.
  intros Hnd Hin. apply get_open_trades_spec in Hin.
  destruct Hin as [Hin Hopen]. unfold is_closed.
  rewrite (fetchone_unique _ _ Hnd Hin), Hopen. reflexivity.
Qed.

(** A task neither reopens a closed position nor emits an event for it. *)
Lemma step_silent i st task :
  NoDup (map db.id (table st)) ->
  is_closed (table st) i = true ->
  NoDup (map db.id (table (step st task)))
  /\ is_closed (table (step st task)) i = true
  /\ exists evs, notified (step st task) = notified st ++ evs
                 /\ Forall (fun e => event_id e <> i) evs.
Proof.
  intros Hnd Hcl. destruct task as [sig | exchange |]; simpl.
  - split; [apply persist_NoDup; exact Hnd|]. split.
    + apply (persist_blocked_mono sig st i STOP_LOSS). exact Hcl.
    + exists []. rewrite app_nil_r. split; [reflexivity | constructor].
  - destruct (check_signals_effect exchange st)
      as (evs & Hlog & _ & Hids & Hmono & _ & Hev & _).
    split; [rewrite Hids; exact Hnd|]. split.
    + apply (Hmono i STOP_LOSS). exact Hcl.
    + exists evs. split; [exact Hlog|].
      eapply Forall_impl; [exact Hev|].
      intros e (Hin & _) Heq.
      pose proof (open_not_closed _ _ Hnd Hin) as Hopen.
      unfold event_id in Heq. rewrite Heq in Hopen. congruence.
  - split; [exact Hnd|]. split; [exact Hcl|].
    exists []. rewrite app_nil_r. split; [reflexivity | constructor].
Qed.

Lemma run_silent i tasks : forall st,
  NoDup (map db.id (table st)) ->
  is_closed (table st) i = true ->
  NoDup (map db.id (table (run tasks st)))
  /\ is_closed (table (run tasks st)) i = true
  /\ exists evs, notified (run tasks st) = notified st ++ evs
                 /\ Forall (fun e => event_id e <> i) evs.
Proof.
  unfold run. induction tasks as [|task tasks IH]; intros st Hnd Hcl; simpl.
  - split; [exact Hnd|]. split; [exact Hcl|].
    exists []. rewrite app_nil_r. split; [reflexivity | constructor].
  - destruct (step_silent i st task Hnd Hcl) as (Hnd1 & Hcl1 & evs1 & H1 & F1).
    destruct (IH _ Hnd1 Hcl1) as (Hnd2 & Hcl2 & evs2 & H2 & F2).
    split; [exact Hnd2|]. split; [exact Hcl2|].
    exists (evs1 ++ evs2). rewrite H2, H1, <- app_assoc.
    split; [reflexivity|]. apply Forall_app. auto.
Qed.

(** C4: once the row of a position is CLOSED, whatever tasks follow and
    whatever prices they see, no later check cycle notifies or returns an
    event for it, and it stays CLOSED. *)
Theorem closed_position_is_silent tasks tasks' i :
  is_closed (table (run tasks boot)) i = true ->
  (exists evs,
     notified (run (tasks ++ tasks') boot)
     = notified (run tasks boot) ++ evs
     /\ Forall (fun e => event_id e <> i) evs)
  /\ is_closed (table (run (tasks ++ tasks') boot)) i = true
  /\ forall exchange,
       Forall (fun e => event_id e <> i)
         (returned
            (check_all_signals exchange (run (tasks ++ tasks') boot)).1).
Proof.
  intros Hcl. rewrite run_app.
  assert (Hnd : NoDup (map db.id (table (run tasks boot))))
    by (apply run_consistent, boot_consistent).
  destruct (run_silent i tasks' _ Hnd Hcl) as (Hnd' & Hcl' & Hevs).
  split; [exact Hevs|]. split; [exact Hcl'|].
  intros exchange.
  destruct (step_silent i _ (Cycle exchange) Hnd' Hcl')
    as (_ & _ & evs & Hlog & Hall).
  destruct (check_signals_effect exchange (run tasks' (run tasks boot)))
    as (evs' & Hlog' & _ & _ & _ & _ & _ & Hret).
  simpl in Hlog. rewrite Hlog' in Hlog. apply app_inv_head in Hlog.
  subst evs'.
  destruct (check_all_signals exchange (run tasks' (run tasks boot))).1
    as [results|] eqn:Hr; simpl; [|constructor].
  apply Forall_forall. intros e He.
  rewrite Forall_forall in Hall. apply Hall. eapply Hret; eauto.
Qed.

Lemma is_tp_hit_level t i k :
  db.is_tp_hit t i k = true -> exists ty, tp_level ty = Some k.
Proof.
  unfold db.is_tp_hit, db.valid_level.
  destruct (bool_decide (k ∈ [1; 2; 3]%Z)) eqn:Hk; simpl; [|discriminate].
  intros _. apply bool_decide_eq_true in Hk.
  repeat (apply elem_of_cons in Hk; destruct Hk as [-> | Hk]);
    [exists TP1 | exists TP2 | exists TP3_FULL | inversion Hk]; reflexivity.
Qed.

(** C5: along any run of the engine the log holds at most one event of each
    type (STOP_LOSS, TP1, TP2, TP3_FULL) per position; in particular a
    second cycle over the state the first one left adds no duplicate; and a
    hit-flag that is set stays set whatever tasks follow. *)
Theorem at_most_one_event_per_level :
  (forall tasks i ty,
     (count_events i ty (notified (run tasks boot)) <= 1)%nat)
  /\ (forall tasks exchange exchange' i ty,
        (count_events i ty
           (notified (check_signals exchange'
                        (check_signals exchange (run tasks boot)))) <= 1)%nat)
  /\ (forall tasks tasks' i k,
        db.is_tp_hit (table (run tasks boot)) i k = true ->
        db.is_tp_hit (table (run (tasks ++ tasks') boot)) i k = true).
Proof.
  assert (Hcount : forall st i ty,
            consistent st -> (count_events i ty (notified st) <= 1)%nat).
  { intros st i ty [_ Hlog]. destruct (Hlog i ty) as [-> | [-> _]]; lia. }
  split; [|split].
  - intros tasks i ty. apply Hcount, run_consistent, boot_consistent.
  - intros tasks exchange exchange' i ty. apply Hcount.
    apply (step_consistent _ (Cycle exchange')).
    apply (step_consistent _ (Cycle exchange)).
    apply run_consistent, boot_consistent.
  - intros tasks tasks' i k Hhit.
    destruct (is_tp_hit_level _ _ _ Hhit) as [ty Hty].
    rewrite (is_tp_hit_blocked _ _ _ _ Hty) in Hhit.
    rewrite (is_tp_hit_blocked _ _ _ _ Hty).
    rewrite run_app. apply run_blocked_mono. exact Hhit.
Qed.
End LifetimeClaims.

Section LifetimeWitnesses.
Import SignalTracker Lifecycle Engine.

(** Scenario B: stopped out at 94, then a cycle at 121. *)
Lemma closed_position_is_silent_witness :
  is_closed (table Scenario.stopped) 1 = true
  /\ (exists evs,
        notified (run (cfg := Scenario.config)
                    ([Scan Scenario.position_a;
                      Cycle (Scenario.quote 105);
                      Cycle (Scenario.quote 94)]
                     ++ [Cycle (Scenario.quote 121)]) boot)
        = notified Scenario.stopped ++ evs
        /\ Forall (fun e => event_id e <> 1%Z) evs).
Proof.
  assert (H : is_closed (table Scenario.stopped) 1 = true)
    by (vm_compute; reflexivity).
  split; [exact H|].
  exact (proj1 (closed_position_is_silent (cfg := Scenario.config)
                  [Scan Scenario.position_a; Cycle (Scenario.quote 105);
                   Cycle (Scenario.quote 94)]
                  [Cycle (Scenario.quote 121)] 1%Z H)).
Defined.

Lemma at_most_one_event_per_level_witness :
  db.is_tp_hit (table Scenario.stopped) 1 1 = true
  /\ db.is_tp_hit
       (table (run (cfg := Scenario.config)
                 ([Scan Scenario.position_a; Cycle (Scenario.quote 105);
                   Cycle (Scenario.quote 94)]
                  ++ [Cycle (Scenario.quote 121)]) boot)) 1 1 = true
  /\ (count_events 1 TP1 (notified Scenario.stopped) <= 1)%nat.
Proof.
  destruct (at_most_one_event_per_level (cfg := Scenario.config))
    as (Hcount & _ & Hflag).
  assert (H : db.is_tp_hit (table Scenario.stopped) 1 1 = true)
    by (vm_compute; reflexivity).
  split; [exact H|]. split.
  - exact (Hflag [Scan Scenario.position_a; Cycle (Scenario.quote 105);
                  Cycle (Scenario.quote 94)]
             [Cycle (Scenario.quote 121)] 1%Z 1%Z H).
  - apply (Hcount [Scan Scenario.position_a; Cycle (Scenario.quote 105);
                   Cycle (Scenario.quote 94)]).
Defined.
End LifetimeWitnesses.

Section CycleClaims.
Import SignalTracker Lifecycle Engine.
Context {cfg : Config}.

(** C3, as stated, fails: position A (tp1 105, tp2 110) checked at 111
    marks TP1 and TP2 and notifies both, and the returned list holds the
    TP1 event alone. *)
Lemma check_all_returns_first_event_only :
  let r := check_all_signals (cfg := Scenario.config) (Scenario.quote 111)
             Scenario.opened in
  (exists results, r.1 = Ok results /\ map type results = [TP1])
  /\ summary (notified r.2) = [(TP1, 1%Z, 111%Q); (TP2, 1%Z, 111%Q)]
  /\ db.is_tp_hit (table r.2) 1 1 = true
  /\ db.is_tp_hit (table r.2) 1 2 = true.
Proof.
  vm_compute. split; [eexists; split; reflexivity|].
  repeat split; reflexivity.
Qed.

(** C3 (amended): the events notified during a cycle that completes fall
    into one group per open position, in the order of the positions, each
    group holding the transitions of its position: a STOP_LOSS alone when
    the price has crossed the stop, and otherwise the take-profit levels
    the price has crossed and that were not yet marked hit, lowest first,
    each with the pnl computed at its level; none for a position without a
    usable price. All of them are persisted: the table after the cycle is
    the table before it with the mutation of every notified event applied
    in order. The list returned by checkAll holds exactly the first event
    of every non-empty group, so one Event per position that made a
    transition; further levels marked for the same position in the same
    cycle are notified and persisted but not returned. *)
Theorem check_all_returns_first_event_per_position exchange st results :
  NoDup (map db.id (table st)) ->
  (check_all_signals exchange st).1 = Ok results ->
  let groups :=
    map (Groups.group (table st) (price_cache (refreshed exchange st)))
      (db.get_open_trades (table st)) in
  notified (check_all_signals exchange st).2 = notified st ++ concat groups
  /\ table (check_all_signals exchange st).2
     = Groups.persisted (concat groups) (table st)
  /\ results = omap head groups
  /\ Forall Groups.pnl_computed (concat groups).
Proof.
  intros Hnd. unfold check_all_signals, refreshed, mbind, M_bind, read.
  simpl. pose proof (get_open_trades_NoDup _ Hnd) as Hact.
  destruct (db.get_open_trades (table st)) as [|s rest].
  - simpl. intros [= <-]. rewrite app_nil_r.
    split; [reflexivity|]. split; [reflexivity|].
    split; [reflexivity | constructor].
  - set (symbols := elements _).
    destruct (update_prices_spec exchange symbols st) as (Hok & Ht & Hn & _).
    destruct (_update_prices exchange symbols st) as [o st1].
    cbn [fst snd] in *. subst o.
    destruct (check_each (s :: rest) [] st1) as [[out|] st2] eqn:Hloop;
      cbn [fst snd]; [|intros H; discriminate H].
    intros [= <-].
    destruct (check_each_groups (s :: rest) [] st1 out st2 Hact Hloop)
      as (Hout & Hst2 & Hpnl).
    rewrite Ht, Hn in *. subst st2. simpl.
    split; [reflexivity|]. split; [reflexivity|].
    split; [exact Hout | exact Hpnl].
Qed.

Lemma fetch_fails_not_positive exchange sym :
  fetch_fails exchange sym ->
  Qgtb (DataFetcher.get_current_price exchange sym) 0 = false.
Proof.
  unfold fetch_fails, DataFetcher.get_current_price, Qgtb.
  destruct (exchange sym) as [q|]; intros H.
  - apply Qltb_false. exact H.
  - reflexivity.
Qed.

(** A failed fetch leaves the cache entry of its symbol as it was. *)
Lemma refreshed_cache_kept exchange st sym :
  fetch_fails exchange sym ->
  price_cache (refreshed exchange st) !! sym = price_cache st !! sym.
Proof.
  intros Hfail. unfold refreshed.
  destruct (db.get_open_trades (table st)) as [|s rest]; [reflexivity|].
  destruct (update_prices_spec exchange
              (elements (list_to_set (map db.symbol (s :: rest))
                         : gset string)) st) as (_ & _ & _ & Hc).
  rewrite Hc, (fetch_fails_not_positive _ _ Hfail), andb_false_r.
  reflexivity.
Qed.

Lemma checked_uncached s st evs st' :
  checked s st evs st' ->
  price_cache st !! db.symbol s = None -> st' = st.
Proof.
  intros [(_ & _ & ->) | (p & Hp & _)] Hnone; [reflexivity | congruence].
Qed.

(** Rows that only positions of an uncached symbol share an id with are
    left as they were by a sweep. *)
Lemma sweeps_skips_symbol active st groups st' ok sym j :
  sweeps active st groups st' ok ->
  price_cache st !! sym = None ->
  (forall s, s ∈ active -> db.id s = j -> db.symbol s = sym) ->
  db.fetchone j (table st') = db.fetchone j (table st).
Proof.
  induction 1 as [st | s rest st evs st1 groups st' ok Hch _ IH
                  | s rest st evs st1 Hch]; intros Hnone Hsym.
  - reflexivity.
  - assert (Hstep : db.fetchone j (table st1) = db.fetchone j (table st)).
    { destruct (decide (db.id s = j)) as [Heq | Hne].
      - rewrite (checked_uncached _ _ _ _ Hch); [reflexivity|].
        rewrite (Hsym s); [exact Hnone | left | exact Heq].
      - eapply checked_fetch_other; eauto. }
    rewrite IH, Hstep; [reflexivity| |].
    + rewrite (checked_cache _ _ _ _ Hch). exact Hnone.
    + intros s' Hin. apply Hsym. right. exact Hin.
  - destruct (decide (db.id s = j)) as [Heq | Hne].
    + rewrite (checked_uncached _ _ _ _ Hch); [reflexivity|].
      rewrite (Hsym s); [exact Hnone | left | exact Heq].
    + eapply checked_fetch_other; eauto.
Qed.

(** C2, as stated, fails: position A was checked at 104, position B (stop
    125) was opened on the same symbol afterwards, and in the next cycle the
    exchange is down. The cache still holds 104 from the earlier cycle, and
    position B is stopped out against it. *)
Lemma stale_price_stops_out :
  fetch_fails Scenario.down "BTC"
  /\ price_cache Scenario.second_opened !! "BTC"%string = Some 104%Q
  /\ is_closed (table Scenario.second_opened) 2 = false
  /\ notified Scenario.second_opened = []
  /\ let r := check_all_signals (cfg := Scenario.config) Scenario.down
                Scenario.second_opened in
     summary (notified r.2) = [(STOP_LOSS, 2%Z, 104%Q)]
     /\ map type (returned r.1) = [STOP_LOSS]
     /\ is_closed (table r.2) 2 = true.
Proof.
  split; [exact I|]. vm_compute. repeat split; reflexivity.
Qed.

(** C2 (amended): in a check cycle in which the price fetch for a symbol
    fails (raises or returns a non-positive price) while the tracker's
    cache holds no price for that symbol, no open position on that symbol
    produces an event, notified or returned, and no row of that symbol is
    changed; the cache is kept from cycle to cycle: after a cycle an entry
    is either the strictly positive price fetched in this cycle or the
    entry the cache had before, and the entry of a symbol whose fetch
    fails is the one the cache had before. *)
Theorem failed_fetch_skips_uncached_symbol tasks exchange sym :
  let st := run tasks boot in
  let st' := (check_all_signals exchange st).2 in
  fetch_fails exchange sym ->
  price_cache st !! sym = None ->
  (exists evs, notified st' = notified st ++ evs
               /\ Forall (fun e => db.symbol (signal e) <> sym) evs)
  /\ Forall (fun e => db.symbol (signal e) <> sym)
       (returned (check_all_signals exchange st).1)
  /\ (forall r, r ∈ table st -> db.symbol r = sym -> r ∈ table st')
  /\ (forall sym' p,
        price_cache st' !! sym' = Some p ->
        (p = DataFetcher.get_current_price exchange sym' /\ (0 < p)%Q)
        \/ price_cache st !! sym' = Some p)
  /\ (forall sym',
        fetch_fails exchange sym' ->
        price_cache st' !! sym' = price_cache st !! sym').
Proof.
  intros st st' Hfail Hnone.
  assert (Hnd : NoDup (map db.id (table st)))
    by (apply run_consistent, boot_consistent).
  destruct (check_all_signals_sweeps exchange st)
    as (groups & ok & Hsw & Hres). fold st' in Hsw.
  assert (Hnone' : price_cache (refreshed exchange st) !! sym = None)
    by (rewrite refreshed_cache_kept; assumption).
  assert (Hevs : Forall (fun e => db.symbol (signal e) <> sym)
                   (concat groups)).
  { eapply Forall_impl; [apply (sweeps_events _ _ _ _ _ Hsw)|].
    intros e (_ & p & Hp & _) Heq. congruence. }
  split; [|split; [|split; [|split]]].
  - exists (concat groups). split; [|exact Hevs].
    rewrite (sweeps_notified _ _ _ _ _ Hsw), refreshed_notified.
    reflexivity.
  - rewrite Hres. destruct ok; simpl; [|constructor].
    apply Forall_forall. intros e He.
    rewrite Forall_forall in Hevs. apply Hevs.
    apply list_elem_of_omap in He. destruct He as (g & Hg & Hhead).
    apply list_elem_of_In, in_concat. exists g.
    split; [apply list_elem_of_In; exact Hg|].
    destruct g as [|e' g]; [discriminate Hhead|].
    injection Hhead as ->. left. reflexivity.
  - intros r Hin Hsym.
    assert (Hf : db.fetchone (db.id r) (table st') = Some r).
    { rewrite (sweeps_skips_symbol _ _ _ _ _ sym (db.id r) Hsw Hnone').
      - rewrite refreshed_table. apply fetchone_unique; assumption.
      - intros s Hs Hid. apply get_open_trades_spec in Hs.
        destruct Hs as [Hs _].
        pose proof (fetchone_unique _ _ Hnd Hs) as H1.
        pose proof (fetchone_unique _ _ Hnd Hin) as H2.
        rewrite Hid in H1. congruence. }
    apply fetchone_Some in Hf. apply Hf.
  - intros sym' p Hp.
    rewrite (sweeps_cache _ _ _ _ _ Hsw) in Hp.
    apply refreshed_cache in Hp. exact Hp.
  - intros sym' Hfail'.
    rewrite (sweeps_cache _ _ _ _ _ Hsw).
    apply refreshed_cache_kept. exact Hfail'.
Qed.
End CycleClaims.

Section CycleWitnesses.
Import SignalTracker Lifecycle Engine.

(** The first cycle after position A is opened, the exchange being down:
    the cache is empty, nothing happens. *)
Lemma failed_fetch_skips_uncached_symbol_witness :
  (exists evs,
     notified (check_all_signals (cfg := Scenario.config) Scenario.down
                 Scenario.opened).2
     = notified Scenario.opened ++ evs
     /\ Forall (fun e => db.symbol (signal e) <> "BTC"%string) evs)
  /\ forall r, r ∈ table Scenario.opened -> db.symbol r = "BTC"%string ->
       r ∈ table (check_all_signals (cfg := Scenario.config) Scenario.down
                    Scenario.opened).2.
Proof.
  destruct (failed_fetch_skips_uncached_symbol (cfg := Scenario.config)
              [Scan Scenario.position_a] Scenario.down "BTC"%string)
    as (Hev & _ & Hrows & _).
  - exact I.
  - reflexivity.
  - split; [exact Hev | exact Hrows].
Defined.

(** Position A checked at 111: one group [TP1; TP2], both marked in the
    table, one returned event. *)
Lemma check_all_returns_first_event_per_position_witness :
  let r := check_all_signals (cfg := Scenario.config) (Scenario.quote 111)
             Scenario.opened in
  exists results,
    r.1 = Ok results
    /\ map type results = [TP1]
    /\ map (map type)
         (map (Groups.group (cfg := Scenario.config)
                 (table Scenario.opened)
                 (price_cache
                    (refreshed (Scenario.quote 111) Scenario.opened)))
            (db.get_open_trades (table Scenario.opened)))
       = [[TP1; TP2]]
    /\ table r.2
       = db.mark_tp_hit (db.mark_tp_hit (table Scenario.opened) 1 1) 1 2.
Proof.
  cbv zeta.
  destruct (check_all_signals (cfg := Scenario.config) (Scenario.quote 111)
              Scenario.opened).1 as [results|] eqn:Hres;
    [|revert Hres; vm_compute; discriminate].
  destruct (check_all_returns_first_event_per_position
              (cfg := Scenario.config) (Scenario.quote 111) Scenario.opened
              results) as (_ & Htable & Hret & _).
  - repeat constructor. intros H. inversion H.
  - exact Hres.
  - exists results. split; [reflexivity|].
    split; [rewrite Hret; vm_compute; reflexivity|].
    split; [vm_compute; reflexivity|].
    rewrite Htable. vm_compute. reflexivity.
Defined.
End CycleWitnesses.

(** * Further properties of the code *)

(** ** The scorer's points *)

Section ScorerPoints.
Import TechnicalAnalyzer Props.

(** The points a rule adds, over both sides. *)
Lemma rsi_rule_points r s :
  exists n, (0 <= n <= 2)%Z /\ (rsi_rule r s = bull n s \/ rsi_rule r s = bear n s).
Proof.
  unfold rsi_rule.
  repeat match goal with
         | |- context [if ?b then _ else _] => destruct b
         end;
    try (exists 2%Z; split; [lia | auto]; fail);
    try (exists 1%Z; split; [lia | auto]; fail).
  exists 0%Z. split; [lia|]. left. unfold bull. destruct s; simpl.
  f_equal; lia.
Qed.

Lemma macd_rule_points r p s :
  exists n, (1 <= n <= 2)%Z
            /\ (macd_rule r p s = bull n s \/ macd_rule r p s = bear n s).
Proof.
  unfold macd_rule.
  repeat match goal with
         | |- context [if ?b then _ else _] => destruct b
         end;
    try (exists 2%Z; split; [lia | auto]; fail);
    (exists 1%Z; split; [lia | auto]).
Qed.

Lemma ma_rule_points r s :
  exists n, (0 <= n <= 2)%Z /\ (ma_rule r s = bull n s \/ ma_rule r s = bear n s).
Proof.
  unfold ma_rule.
  repeat match goal with
         | |- context [if ?b then _ else _] => destruct b
         end;
    try (exists 2%Z; split; [lia | auto]; fail).
  exists 0%Z. split; [lia|]. left. unfold bull. destruct s; simpl.
  f_equal; lia.
Qed.

Lemma bb_rule_points r s :
  exists n, (0 <= n <= 2)%Z /\ (bb_rule r s = bull n s \/ bb_rule r s = bear n s).
Proof.
  unfold bb_rule.
  repeat match goal with
         | |- context [if ?b then _ else _] => destruct b
         end;
    try (exists 2%Z; split; [lia | auto]; fail).
  exists 0%Z. split; [lia|]. left. unfold bull. destruct s; simpl.
  f_equal; lia.
Qed.

Lemma stoch_rule_points r s :
  exists n, (0 <= n <= 1)%Z
            /\ (stoch_rule r s = bull n s \/ stoch_rule r s = bear n s).
Proof.
  unfold stoch_rule.
  repeat match goal with
         | |- context [if ?b then _ else _] => destruct b
         end;
    try (exists 1%Z; split; [lia | auto]; fail).
  exists 0%Z. split; [lia|]. left. unfold bull. destruct s; simpl.
  f_equal; lia.
Qed.

Lemma volume_rule_points r s :
  exists n, (0 <= n <= 1)%Z
            /\ (volume_rule r s = bull n s \/ volume_rule r s = bear n s).
Proof.
  unfold volume_rule.
  repeat match goal with
         | |- context [if ?b then _ else _] => destruct b
         end;
    try (exists 1%Z; split; [lia | auto]; fail).
  exists 0%Z. split; [lia|]. left. unfold bull. destruct s; simpl.
  f_equal; lia.
Qed.

Lemma points_step (f : Z * Z -> Z * Z) lo hi s a b :
  (exists n, (lo <= n <= hi)%Z /\ (f s = bull n s \/ f s = bear n s)) ->
  (0 <= lo)%Z ->
  (0 <= s.1 /\ 0 <= s.2 /\ a <= s.1 + s.2 <= b)%Z ->
  (0 <= (f s).1 /\ 0 <= (f s).2
   /\ a + lo <= (f s).1 + (f s).2 <= b + hi)%Z.
Proof.
  intros (n & Hn & [-> | ->]) Hlo H; unfold bull, bear; simpl; lia.
Qed.

(** The six rules together award between 1 and 10 points. *)
Lemma get_signal_strength_points df st :
  get_signal_strength df = Some st ->
  (0 <= bullish_score st /\ 0 <= bearish_score st
   /\ 1 <= bullish_score st + bearish_score st <= 10)%Z.
Proof.
  unfold get_signal_strength. intros H.
  destruct (iloc_neg 1 df) as [last|]; [|discriminate].
  destruct (iloc_neg 2 df) as [prev|]; [|discriminate].
  simpl in H. injection H as <-. simpl.
  set (s0 := (0, 0)%Z).
  assert (H0 : (0 <= s0.1 /\ 0 <= s0.2 /\ 0 <= s0.1 + s0.2 <= 0)%Z)
    by (simpl; lia).
  pose proof (points_step (rsi_rule last) 0 2 s0 _ _
                (rsi_rule_points last s0) ltac:(lia) H0) as H1.
  set (s1 := rsi_rule last s0) in *.
  pose proof (points_step (macd_rule last prev) 1 2 s1 _ _
                (macd_rule_points last prev s1) ltac:(lia) H1) as H2.
  set (s2 := macd_rule last prev s1) in *.
  pose proof (points_step (ma_rule last) 0 2 s2 _ _
                (ma_rule_points last s2) ltac:(lia) H2) as H3.
  set (s3 := ma_rule last s2) in *.
  pose proof (points_step (bb_rule last) 0 2 s3 _ _
                (bb_rule_points last s3) ltac:(lia) H3) as H4.
  set (s4 := bb_rule last s3) in *.
  pose proof (points_step (stoch_rule last) 0 1 s4 _ _
                (stoch_rule_points last s4) ltac:(lia) H4) as H5.
  set (s5 := stoch_rule last s4) in *.
  pose proof (points_step (volume_rule last) 0 1 s5 _ _
                (volume_rule_points last s5) ltac:(lia) H5) as H6.
  lia.
Qed.

(** X1: whenever the scorer answers, both scores are non-negative, between
    1 and 10 points are awarded in total (the MACD rule always awards one),
    the net score lies between -10 and 10, and the [max(total, 1)] in the
    confidence is the total itself. *)
Theorem scorer_points_range df st :
  get_signal_strength df = Some st ->
  (0 <= bullish_score st /\ 0 <= bearish_score st
   /\ 1 <= bullish_score st + bearish_score st <= 10
   /\ -10 <= net_score st <= 10
   /\ Z.max (bullish_score st + bearish_score st) 1
      = bullish_score st + bearish_score st)%Z.
Proof.
  intros H. pose proof (get_signal_strength_points _ _ H) as Hp.
  destruct (get_signal_strength_inv _ _ H) as (_ & _ & _ & _ & _ & Hn & _).
  rewrite Hn. lia.
Qed.

Lemma scorer_points_range_witness :
  exists st,
    get_signal_strength
      (map (Scenario.row_of_bar 25) (drop 99 Scenario.moving_bars))
    = Some st
    /\ (1 <= bullish_score st + bearish_score st <= 10)%Z
    /\ (-10 <= net_score st <= 10)%Z.
Proof.
  eexists. split; [reflexivity|].
  destruct (scorer_points_range
              (map (Scenario.row_of_bar 25) (drop 99 Scenario.moving_bars))
              _ eq_refl)
    as (_ & _ & Ht & Hn & _).
  split; [exact Ht | exact Hn].
Defined.

Lemma ratio_zero_iff (a m : Z) :
  (1 <= m)%Z -> (inject_Z a / inject_Z m == 0)%Q <-> a = 0%Z.
Proof.
  intros Hm. unfold Qeq, Qdiv, Qmult, Qinv, inject_Z. simpl.
  destruct m as [|m|m]; try lia. simpl. lia.
Qed.

Lemma ratio_one_iff (a m : Z) :
  (1 <= m)%Z -> (inject_Z a / inject_Z m == 1)%Q <-> a = m.
Proof.
  intros Hm. unfold Qeq, Qdiv, Qmult, Qinv, inject_Z. simpl.
  destruct m as [|m|m]; try lia. simpl. lia.
Qed.

(** X2: the scorer's confidence is 0 exactly when the two scores tie (net
    score 0), and 1 exactly when all points went to one side. *)
Theorem scorer_confidence_extremes df st :
  get_signal_strength df = Some st ->
  ((confidence st == 0)%Q <-> net_score st = 0%Z)
  /\ ((confidence st == 1)%Q
      <-> bullish_score st = 0%Z \/ bearish_score st = 0%Z).
Proof.
  intros H. pose proof (get_signal_strength_points _ _ H) as (Hb & Hr & Ht & _).
  destruct (get_signal_strength_inv _ _ H)
    as (_ & _ & _ & _ & _ & Hn & _ & _ & ->).
  rewrite Hn, Z.max_l by lia. split.
  - rewrite ratio_zero_iff by lia. lia.
  - rewrite ratio_one_iff by lia. lia.
Qed.

Lemma scorer_confidence_extremes_witness :
  exists st,
    get_signal_strength
      (map (Scenario.row_of_bar 25) (drop 99 Scenario.moving_bars))
    = Some st
    /\ bearish_score st = 0%Z /\ (confidence st == 1)%Q.
Proof.
  eexists. split; [reflexivity|]. split; [reflexivity|].
  apply (proj2 (scorer_confidence_extremes
                  (map (Scenario.row_of_bar 25)
                     (drop 99 Scenario.moving_bars)) _ eq_refl)).
  right. reflexivity.
Defined.

Lemma iloc_neg_app_two {A} (older : list A) (prev last : A) :
  iloc_neg 1 (older ++ [prev; last]) = Some last
  /\ iloc_neg 2 (older ++ [prev; last]) = Some prev.
Proof. unfold iloc_neg. rewrite rev_app_distr. split; reflexivity. Qed.

(** X3: the scorer reads the last two rows only: its answer on a frame is
    its answer on the frame cut down to these two rows, and it fails (the
    IndexError of [iloc]) exactly on frames of fewer than two rows. *)
Theorem scorer_reads_last_two_rows :
  (forall older prev last,
     get_signal_strength (older ++ [prev; last])
     = get_signal_strength [prev; last])
  /\ (forall df, get_signal_strength df = None <-> (length df < 2)%nat).
Proof.
  split.
  - intros older prev last. unfold get_signal_strength.
    destruct (iloc_neg_app_two older prev last) as [-> ->].
    reflexivity.
  - intros df. split.
    + intros H. destruct (le_lt_dec 2 (length df)) as [Hlen | Hlen];
        [|exact Hlen].
      destruct (get_signal_strength_total df Hlen) as [st Hst]. congruence.
    + intros Hlen. unfold get_signal_strength.
      assert (Hp : iloc_neg 2 df = None).
      { unfold iloc_neg. apply lookup_ge_None. rewrite length_rev. simpl.
        lia. }
      rewrite Hp. destruct (iloc_neg 1 df); reflexivity.
Qed.
End ScorerPoints.

(** ** The predictor's training and answers *)

Section PredictorExtras.
Import TechnicalAnalyzer MLPredictor Props.
Context {sk : Sklearn}.

(** Too little history to train on: the neutral answer, nothing fitted. *)
Lemma predict_short_history ml df :
  trained ml = false -> (length df < 50)%nat ->
  predict ml df = (neutral, ml).
Proof.
  intros Ht Hlen. unfold predict, train_on_historical. rewrite Ht.
  simpl. rewrite length_map.
  apply Nat.ltb_lt in Hlen. rewrite Hlen. reflexivity.
Qed.

(** X4: a trained predictor is never fitted again; an untrained one given
    fewer than 50 rows answers neutral and stays untrained, nothing being
    fitted; given 50 rows or more it is fitted on the training part of the
    split and flagged trained, and answers neutral all the same when the
    accuracy on the held-out part is exactly 0. *)
Theorem predict_lazy_training :
  (forall ml df, trained ml = true -> (predict ml df).2 = ml)
  /\ (forall ml df,
        trained ml = false -> (length df < 50)%nat ->
        predict ml df = (neutral, ml))
  /\ (forall ml df,
        trained ml = false -> (50 <= length df)%nat ->
        let data := train_test_split (zip (map features df) (target df)) in
        let fitted := fit (model ml) data.1 in
        (predict ml df).2 = {| model := fitted; trained := true |}
        /\ ((score fitted data.2 == 0)%Q -> (predict ml df).1 = neutral)).
Proof.
  split; [|split].
  - intros ml df Ht. unfold predict. rewrite Ht. reflexivity.
  - intros ml df Ht Hlen. apply predict_short_history; assumption.
  - intros ml df Ht Hlen. unfold predict, train_on_historical. rewrite Ht.
    simpl. rewrite length_map.
    apply Nat.ltb_ge in Hlen. rewrite Hlen.
    destruct (train_test_split (zip (map features df) (target df)))
      as [train test]. simpl.
    destruct (Qeq_bool (score (fit (model ml) train) test) 0) eqn:Hs; simpl.
    + split; reflexivity.
    + split; [reflexivity|]. intros H0. apply Qeq_bool_iff in H0. congruence.
Qed.
End PredictorExtras.

Section PredictorExtrasWitness.
Import TechnicalAnalyzer MLPredictor Props.

Lemma predict_lazy_training_witness :
  (predict (sk := Scenario.sklearn) Scenario.ml_up Sample.history).2
  = Scenario.ml_up
  /\ predict (sk := Scenario.sklearn) Sample.ml_untrained
       (firstn 49 Sample.history)
     = (neutral, Sample.ml_untrained)
  /\ predict (sk := Sample.sklearn_zero) Sample.ml_untrained Sample.history
     = (neutral,
        {| model := Scenario.classifier 0.2 0.8; trained := true |}).
Proof.
  destruct (predict_lazy_training (sk := Scenario.sklearn))
    as (Hkeep & Hshort & _).
  destruct (predict_lazy_training (sk := Sample.sklearn_zero))
    as (_ & _ & Hfit).
  split; [apply Hkeep; reflexivity|].
  split; [apply Hshort; [reflexivity | simpl; lia]|].
  destruct (Hfit Sample.ml_untrained Sample.history) as [Hst Hans].
  - reflexivity.
  - simpl. lia.
  - rewrite (surjective_pairing (predict _ _)), Hst, Hans; reflexivity.
Defined.
End PredictorExtrasWitness.

Section PredictorAnswers.
Import TechnicalAnalyzer MLPredictor Props MoreProps.

Lemma np_where_eq_nil v classes : forall i,
  np_where_eq v classes i = [] <-> v ∉ classes.
Proof.
  induction classes as [|c rest IH]; intros i; simpl.
  - split; [intros _ H; inversion H | reflexivity].
  - rewrite not_elem_of_cons. destruct (Z.eqb_spec c v) as [-> | Hne].
    + split; [discriminate | intros [H _]; congruence].
    + rewrite IH. split; [intros H; split; [congruence | exact H] | tauto].
Qed.

(** X5: on a two-entry probability row [p0; p1] the predictor takes the
    entry of class 1 as the probability of up and the entry of class -1 as
    the probability of down, whichever order the classifier lists its
    classes in; when one of the two classes is missing it takes p1 for up
    and p0 for down; it answers up only when up is strictly more probable,
    so a tie gives down (-1); a row of fewer than two entries, or a
    classifier that raises, gives the neutral answer. *)
Theorem predict_trained_reads_classes ml df last_row :
  last df = Some last_row ->
  (forall p0 p1,
     predict_proba (model ml) (features last_row) = Some [p0; p1] ->
     (classes_ (model ml) = [-1; 1]%Z ->
      predict_trained ml df = read_off p1 p0)
     /\ (classes_ (model ml) = [1; -1]%Z ->
         predict_trained ml df = read_off p0 p1)
     /\ (1%Z ∉ classes_ (model ml) \/ (-1)%Z ∉ classes_ (model ml) ->
         predict_trained ml df = read_off p1 p0))
  /\ (forall long short, (long == short)%Q ->
        direction (read_off long short) = (-1)%Z)
  /\ (forall proba,
        predict_proba (model ml) (features last_row) = Some proba ->
        (length proba < 2)%nat -> predict_trained ml df = neutral)
  /\ (predict_proba (model ml) (features last_row) = None ->
      predict_trained ml df = neutral).
Proof.
  intros Hlast. split; [|split; [|split]].
  - intros p0 p1 Hp. unfold predict_trained. simpl. rewrite Hlast, Hp. simpl.
    split; [|split].
    + intros ->. reflexivity.
    + intros ->. reflexivity.
    + intros Hmiss.
      destruct (np_where_eq 1 (classes_ (model ml)) 0) as [|i_long ?] eqn:Hl;
        [reflexivity|].
      destruct (np_where_eq (-1) (classes_ (model ml)) 0) as [|i_short ?]
        eqn:Hs; [reflexivity|].
      exfalso. destruct Hmiss as [H | H];
        apply np_where_eq_nil with (i := 0%nat) in H; congruence.
  - intros long short Heq. unfold read_off, Qgtb. simpl.
    assert (Hf : Qltb short long = false).
    { apply Qltb_false. rewrite Heq. apply Qle_refl. }
    rewrite Hf. reflexivity.
  - intros proba Hp Hlen. unfold predict_trained. simpl. rewrite Hlast, Hp.
    destruct proba as [|a [|b ?]]; simpl in Hlen; try lia; reflexivity.
  - intros Hp. unfold predict_trained. simpl. rewrite Hlast, Hp. reflexivity.
Qed.

Lemma predict_trained_reads_classes_witness :
  predict_trained Sample.ml_tie Sample.history = read_off 0.5 0.5
  /\ direction (read_off 0.5 0.5) = (-1)%Z
  /\ predict_trained Scenario.ml_broken Sample.history = neutral.
Proof.
  destruct (predict_trained_reads_classes Sample.ml_tie Sample.history
              (Scenario.row_of_bar 25 (Scenario.bar 99 101 100)) eq_refl)
    as (Hread & Htie & _).
  destruct (predict_trained_reads_classes Scenario.ml_broken Sample.history
              (Scenario.row_of_bar 25 (Scenario.bar 99 101 100)) eq_refl)
    as (_ & _ & _ & Hraise).
  destruct (Hread 0.5%Q 0.5%Q eq_refl) as (Hstd & _ & _).
  split; [apply Hstd; reflexivity|].
  split; [apply Htie; reflexivity|].
  apply Hraise. reflexivity.
Defined.

(** X6: the training labels: one per row, each 1 or -1; a row gets 1 exactly
    when the next row closes strictly higher, and the last row, which has no
    next row, always gets -1 and stays in the training data. *)
Theorem target_labels df :
  length (target df) = length df
  /\ Forall (fun y => y = 1%Z \/ y = (-1)%Z) (target df)
  /\ (forall i r r',
        df !! i = Some r -> df !! S i = Some r' ->
        target df !! i
        = Some (if Qgtb (close r') (close r) then 1%Z else (-1)%Z))
  /\ (forall older r, target (older ++ [r]) !! length older = Some (-1)%Z).
Proof.
  split; [|split; [|split]].
  - induction df as [|r rest IH]; simpl; [reflexivity|]. rewrite IH.
    reflexivity.
  - induction df as [|r rest IH]; simpl; [constructor|].
    constructor; [|exact IH].
    destruct rest as [|r' ?]; [auto|].
    destruct (Qgtb (close r') (close r)); auto.
  - induction df as [|r0 rest IH]; intros i r r' Hi Hsi; [discriminate|].
    destruct i as [|i]; simpl in *.
    + injection Hi as ->. destruct rest as [|r1 ?]; [discriminate|].
      simpl in Hsi. injection Hsi as ->. reflexivity.
    + apply (IH i r r' Hi Hsi).
  - induction older as [|r0 rest IH]; intros r; simpl; [reflexivity|].
    apply IH.
Qed.
End PredictorAnswers.

(** ** More about [generate] *)

Section GeneratorExtras.
Import TechnicalAnalyzer MLPredictor SignalGenerator Props.
Context {cfg : Config} {sk : Sklearn} {ta : Indicators}.

(** A returned signal, with everything it was computed from. *)
Lemma generate_Some_full ml df symbol s :
  (generate ml df symbol).1 = Some s ->
  exists frame st last,
    add_all_indicators df = Some frame
    /\ get_signal_strength frame = Some st
    /\ iloc_neg 1 frame = Some last
    /\ (10 <= length frame)%nat
    /\ (MIN_CONFIDENCE <= combined st (predict ml frame).1)%Q
    /\ (MIN_ADX <= adx last)%Q
    /\ disagree (direction (predict ml frame).1) (net_score st) = false
    /\ s = levels symbol
             (if (direction (predict ml frame).1 =? 1)%Z then LONG else SHORT)
             (close last) (atr last) (combined st (predict ml frame).1).
Proof.
  intros Hgen.
  destruct (generate_Some_inv _ _ _ _ Hgen)
    as (frame & st & last & Hta & Hst & Hlast).
  exists frame, st, last.
  rewrite (generate_unfold ml df symbol frame st last Hta Hst Hlast) in Hgen.
  destruct (length frame <? 10)%nat eqn:Hlen; [discriminate Hgen|].
  destruct (Qltb (combined st (predict ml frame).1) MIN_CONFIDENCE) eqn:Hc;
    [discriminate Hgen|].
  destruct (Qltb (adx last) MIN_ADX) eqn:Ha; [discriminate Hgen|].
  destruct (disagree _ _) eqn:Hd; [discriminate Hgen|].
  injection Hgen as <-.
  apply Nat.ltb_ge in Hlen. apply Qltb_false in Hc, Ha.
  repeat split; auto.
Qed.

(** X7: on a frame of fewer than 10 rows, or when the indicator library
    raises, [generate] returns none and does not consult the predictor, which
    stays as it was; with an untrained predictor and fewer than 50 rows the
    predictor stays untrained, and a signal, if one is returned, is SHORT
    with half the scorer's confidence. *)
Theorem generate_on_short_history ml df symbol :
  (add_all_indicators df = None -> generate ml df symbol = (None, ml))
  /\ (forall frame,
        add_all_indicators df = Some frame -> (length frame < 10)%nat ->
        generate ml df symbol = (None, ml))
  /\ (forall frame,
        add_all_indicators df = Some frame -> (length frame < 50)%nat ->
        trained ml = false ->
        (generate ml df symbol).2 = ml
        /\ forall s, (generate ml df symbol).1 = Some s ->
             side s = SHORT
             /\ exists st, get_signal_strength frame = Some st
                  /\ SignalGenerator.confidence s
                     = ((TechnicalAnalyzer.confidence st + 0) / 2)%Q).
Proof.
  split; [|split].
  - intros H. unfold generate. rewrite H. reflexivity.
  - intros frame H Hlen. unfold generate. rewrite H.
    apply Nat.ltb_lt in Hlen. rewrite Hlen. reflexivity.
  - intros frame Hta Hlen Ht.
    pose proof (predict_short_history ml frame Ht Hlen) as Hpred. split.
    + unfold generate. rewrite Hta.
      destruct (length frame <? 10)%nat; [reflexivity|].
      destruct (get_signal_strength frame); [|reflexivity].
      rewrite Hpred. simpl.
      repeat match goal with
             | |- context [if ?b then _ else _] => destruct b
             | |- context [match ?o with Some _ => _ | None => _ end] =>
                 destruct o
             end; reflexivity.
    + intros s Hgen.
      destruct (generate_Some_full _ _ _ _ Hgen)
        as (frame' & st & last & Hta' & Hst & _ & _ & _ & _ & _ & ->).
      assert (frame' = frame) by congruence. subst frame'.
      rewrite Hpred. simpl. split; [reflexivity|].
      exists st. split; [exact Hst | reflexivity].
Qed.

(** X8: a returned signal carries the symbol it was asked for and the latest
    close as entry_a; its stop and its three targets lie at the configured
    multiples of the latest ATR from that close, the stop on one side and the
    targets on the other; entry_b is present exactly when averaging is
    enabled and then lies the averaging distance (as a fraction of the
    price) on the stop's side. *)
Theorem generate_levels_at_atr_multiples ml df symbol s :
  (generate ml df symbol).1 = Some s ->
  exists frame last,
    add_all_indicators df = Some frame
    /\ iloc_neg 1 frame = Some last
    /\ SignalGenerator.symbol s = symbol
    /\ entry_a s = close last
    /\ (is_Some (entry_b s) <-> ENABLE_AVERAGING = true)
    /\ match side s with
       | LONG =>
           (entry_a s - stop s == atr last * ATR_MULTIPLIER_SL
            /\ tp1 s - entry_a s == atr last * ATR_MULTIPLIER_TP1
            /\ tp2 s - entry_a s == atr last * ATR_MULTIPLIER_TP2
            /\ tp3 s - entry_a s == atr last * ATR_MULTIPLIER_TP3)%Q
           /\ forall b, entry_b s = Some b ->
                (entry_a s - b == entry_a s * AVERAGING_DISTANCE)%Q
       | SHORT =>
           (stop s - entry_a s == atr last * ATR_MULTIPLIER_SL
            /\ entry_a s - tp1 s == atr last * ATR_MULTIPLIER_TP1
            /\ entry_a s - tp2 s == atr last * ATR_MULTIPLIER_TP2
            /\ entry_a s - tp3 s == atr last * ATR_MULTIPLIER_TP3)%Q
           /\ forall b, entry_b s = Some b ->
                (b - entry_a s == entry_a s * AVERAGING_DISTANCE)%Q
       end.
Proof.
  intros Hgen.
  destruct (generate_Some_full _ _ _ _ Hgen)
    as (frame & st & last & Hta & _ & Hlast & _ & _ & _ & _ & ->).
  exists frame, last. split; [exact Hta|]. split; [exact Hlast|].
  destruct (direction (predict ml frame).1 =? 1)%Z; simpl.
  - split; [reflexivity|]. split; [reflexivity|]. split.
    + destruct ENABLE_AVERAGING; split; intros H;
        [reflexivity | eexists; reflexivity
        | destruct H as [x Hx]; discriminate Hx | discriminate H].
    + split; [repeat split; ring|].
      intros b. destruct ENABLE_AVERAGING; [|discriminate].
      intros [= <-]. ring.
  - split; [reflexivity|]. split; [reflexivity|]. split.
    + destruct ENABLE_AVERAGING; split; intros H;
        [reflexivity | eexists; reflexivity
        | destruct H as [x Hx]; discriminate Hx | discriminate H].
    + split; [repeat split; ring|].
      intros b. destruct ENABLE_AVERAGING; [|discriminate].
      intros [= <-]. ring.
Qed.

(** X9: a LONG signal is returned only when the predictor says up and the
    scorer's net score is strictly positive; a SHORT signal only when the
    predictor says down and the net score is strictly negative, or when the
    predictor gave no direction (direction 0, confidence 0); with a minimum
    confidence above 1/2 the latter cannot happen, and every SHORT signal
    has the predictor and the scorer agree. *)
Theorem generate_direction_agreement ml df symbol s :
  (generate ml df symbol).1 = Some s ->
  exists frame st,
    add_all_indicators df = Some frame
    /\ get_signal_strength frame = Some st
    /\ (side s = LONG ->
        direction (predict ml frame).1 = 1%Z /\ (0 < net_score st)%Z)
    /\ (side s = SHORT ->
        (direction (predict ml frame).1 = (-1)%Z /\ (net_score st < 0)%Z)
        \/ (direction (predict ml frame).1 = 0%Z
            /\ MLPredictor.confidence (predict ml frame).1 = 0%Q))
    /\ ((1 # 2 < MIN_CONFIDENCE)%Q -> side s = SHORT ->
        direction (predict ml frame).1 = (-1)%Z /\ (net_score st < 0)%Z).
Proof.
  intros Hgen.
  destruct (generate_Some_full _ _ _ _ Hgen)
    as (frame & st & last & Hta & Hst & _ & _ & Hconf & _ & Hdis & ->).
  exists frame, st. split; [exact Hta|]. split; [exact Hst|].
  assert (Hnd : ~ ((direction (predict ml frame).1 = 1 /\ net_score st <= 0)%Z
                   \/ (direction (predict ml frame).1 = -1
                       /\ net_score st >= 0)%Z)).
  { rewrite <- disagree_true, Hdis. discriminate. }
  assert (Hs : side (levels symbol
                       (if (direction (predict ml frame).1 =? 1)%Z
                        then LONG else SHORT)
                       (close last) (atr last)
                       (combined st (predict ml frame).1))
               = if (direction (predict ml frame).1 =? 1)%Z
                 then LONG else SHORT) by apply levels_side.
  rewrite Hs.
  assert (Hcases : (direction (predict ml frame).1 = (-1)%Z
                    /\ (net_score st < 0)%Z)
                   \/ (direction (predict ml frame).1 = 0%Z
                       /\ MLPredictor.confidence (predict ml frame).1 = 0%Q)
                   \/ direction (predict ml frame).1 = 1%Z).
  { destruct (predict_direction ml frame) as [H0 | [H1 | Hm]]; auto.
    left. split; [exact Hm | lia]. }
  split; [|split].
  - destruct (Z.eqb_spec (direction (predict ml frame).1) 1) as [H1 | H1];
      [|discriminate]. intros _. split; [exact H1 | lia].
  - destruct (Z.eqb_spec (direction (predict ml frame).1) 1) as [H1 | H1];
      [discriminate|]. intros _.
    destruct Hcases as [H | [H | H]]; [left; exact H | right; exact H |].
    contradiction.
  - destruct (Z.eqb_spec (direction (predict ml frame).1) 1) as [H1 | H1];
      [discriminate|]. intros Hmin _.
    destruct Hcases as [H | [[_ H0] | H]]; [exact H | | contradiction].
    exfalso. unfold combined in Hconf. rewrite H0 in Hconf.
    pose proof (scorer_confidence_in_unit _ _ Hst) as [_ Hle].
    assert (Hhalf : ((TechnicalAnalyzer.confidence st + 0) / 2 <= 1 # 2)%Q).
    { apply Qle_shift_div_r; [reflexivity|]. lra. }
    apply (Qlt_irrefl (1 # 2)).
    eapply Qlt_le_trans; [exact Hmin|].
    eapply Qle_trans; [exact Hconf | exact Hhalf].
Qed.

(** X10: the confidence of a returned signal is at least the configured
    minimum and, the classifier answering with probabilities, at most 1. *)
Theorem generate_confidence_range ml df symbol s frame :
  add_all_indicators df = Some frame ->
  proba_in_unit (model (predict ml frame).2) ->
  (generate ml df symbol).1 = Some s ->
  (MIN_CONFIDENCE <= SignalGenerator.confidence s)%Q
  /\ (SignalGenerator.confidence s <= 1)%Q.
Proof.
  intros Hta Hok Hgen.
  destruct (generate_Some_full _ _ _ _ Hgen)
    as (frame' & st & last & Hta' & Hst & _ & _ & Hconf & _ & _ & ->).
  assert (frame' = frame) by congruence. subst frame'.
  rewrite levels_confidence. split; [exact Hconf|].
  pose proof (scorer_confidence_in_unit _ _ Hst) as [_ H1].
  pose proof (predict_confidence_in_unit ml frame Hok) as [_ H2].
  unfold combined. apply Qle_shift_div_r; [reflexivity|]. lra.
Qed.
End GeneratorExtras.

Section GeneratorExtrasWitnesses.
Import TechnicalAnalyzer MLPredictor SignalGenerator Props.

Lemma generated_long :
  (generate (cfg := Scenario.config) (sk := Scenario.sklearn)
     (ta := Scenario.indicators 25)
     Scenario.ml_up Scenario.moving_bars "BTC").1
  = Some Scenario.long_signal.
Proof. vm_compute. reflexivity. Qed.

Lemma generated_short_untrained :
  (generate (cfg := Scenario.config) (sk := Scenario.sklearn)
     (ta := Scenario.indicators 25)
     Sample.ml_untrained Scenario.moving_bars "BTC").1
  = Some Scenario.short_signal.
Proof. vm_compute. reflexivity. Qed.

Lemma generate_on_short_history_witness :
  generate (cfg := Scenario.config) (sk := Scenario.sklearn)
    (ta := Scenario.indicators 25)
    Scenario.ml_up (firstn 9 Scenario.moving_bars) "BTC"
  = (None, Scenario.ml_up)
  /\ (generate (cfg := Scenario.config) (sk := Scenario.sklearn)
        (ta := Scenario.indicators 25)
        Sample.ml_untrained Scenario.moving_bars "BTC").2
     = Sample.ml_untrained
  /\ side Scenario.short_signal = SHORT.
Proof.
  destruct (generate_on_short_history (cfg := Scenario.config)
              (sk := Scenario.sklearn) (ta := Scenario.indicators 25)
              Scenario.ml_up (firstn 9 Scenario.moving_bars) "BTC")
    as (_ & Hnine & _).
  destruct (generate_on_short_history (cfg := Scenario.config)
              (sk := Scenario.sklearn) (ta := Scenario.indicators 25)
              Sample.ml_untrained Scenario.moving_bars "BTC")
    as (_ & _ & Huntrained).
  split; [apply (Hnine _ (indicators_on_nine_bars 25)); simpl; lia|].
  destruct (Huntrained _ (indicators_on_moving_bars 25)) as [Hkeep Hsig];
    [rewrite moving_frame_length; lia | reflexivity |].
  split; [exact Hkeep|].
  exact (proj1 (Hsig _ generated_short_untrained)).
Defined.

Lemma generate_levels_at_atr_multiples_witness :
  exists frame last,
    add_all_indicators (Indicators := Scenario.indicators 25)
      Scenario.moving_bars = Some frame
    /\ iloc_neg 1 frame = Some last
    /\ entry_a Scenario.long_signal = close last
    /\ (entry_a Scenario.long_signal - stop Scenario.long_signal
        == atr last * 1.5)%Q.
Proof.
  destruct (generate_levels_at_atr_multiples (cfg := Scenario.config)
              (sk := Scenario.sklearn) (ta := Scenario.indicators 25)
              Scenario.ml_up Scenario.moving_bars "BTC" Scenario.long_signal
              generated_long)
    as (frame & last & Hta & Hlast & _ & Hentry & _ & Hlev).
  exists frame, last. simpl in Hlev.
  split; [exact Hta|]. split; [exact Hlast|]. split; [exact Hentry|].
  apply Hlev.
Defined.

Lemma generate_direction_agreement_witness :
  exists frame st,
    get_signal_strength frame = Some st
    /\ direction (predict (sk := Scenario.sklearn) Scenario.ml_up frame).1
       = 1%Z
    /\ (0 < net_score st)%Z.
Proof.
  destruct (generate_direction_agreement (cfg := Scenario.config)
              (sk := Scenario.sklearn) (ta := Scenario.indicators 25)
              Scenario.ml_up Scenario.moving_bars "BTC" Scenario.long_signal
              generated_long)
    as (frame & st & _ & Hst & Hlong & _).
  exists frame, st. split; [exact Hst|]. apply Hlong. reflexivity.
Defined.

Lemma generate_confidence_range_witness :
  (0.5 <= SignalGenerator.confidence Scenario.long_signal)%Q
  /\ (SignalGenerator.confidence Scenario.long_signal <= 1)%Q.
Proof.
  apply (generate_confidence_range (cfg := Scenario.config)
           (sk := Scenario.sklearn) (ta := Scenario.indicators 25)
           Scenario.ml_up Scenario.moving_bars "BTC" Scenario.long_signal
           (map (Scenario.row_of_bar 25) (drop 99 Scenario.moving_bars))
           (indicators_on_moving_bars 25)).
  - intros x p [= <-]. repeat constructor; vm_compute; discriminate.
  - exact generated_long.
Defined.
End GeneratorExtrasWitnesses.

(** ** The table's operations *)

Section TableOperations.
Import db.

Lemma fetchone_lastrowid table : fetchone (lastrowid table) table = None.
Proof.
  destruct (fetchone (lastrowid table) table) as [r|] eqn:H; [|reflexivity].
  apply fetchone_Some in H. destruct H as [Hin Hid].
  pose proof (lastrowid_fresh _ _ Hin). lia.
Qed.

Lemma lastrowid_positive table : (1 <= lastrowid table)%Z.
Proof.
  unfold lastrowid. induction table as [|r t IH]; simpl; lia.
Qed.

Lemma fetchone_app_new i table r :
  fetchone i table = None -> id r = i -> fetchone i (table ++ [r]) = Some r.
Proof.
  unfold fetchone. intros Hnone Hid.
  induction table as [|a t IH]; simpl in *.
  - rewrite Hid, Z.eqb_refl. reflexivity.
  - destruct (id a =? i)%Z; [discriminate | auto].
Qed.

Lemma get_open_trades_app t1 t2 :
  get_open_trades (t1 ++ t2) = get_open_trades t1 ++ get_open_trades t2.
Proof. unfold get_open_trades. apply List.filter_app. Qed.

(** X11: [open_trade] returns an id that is positive and larger than every
    id of the table; a lookup of that id finds the new row, OPEN, without
    pnl and with no level hit; lookups of other ids are unchanged; the new
    row comes last among the open trades. *)
Theorem open_trade_round_trip table symbol side entry_a entry_b stop
    tp1 tp2 tp3 :
  let opened :=
    open_trade table symbol side entry_a entry_b stop tp1 tp2 tp3 in
  let row :=
    {| id := opened.1; db.symbol := symbol; db.side := side;
       db.entry_a := entry_a; db.entry_b := entry_b; db.stop := stop;
       db.tp1 := tp1; db.tp2 := tp2; db.tp3 := tp3; status := OPEN;
       pnl := None; tp1_hit := false; tp2_hit := false; tp3_hit := false |} in
  (1 <= opened.1)%Z
  /\ Forall (fun r => (id r < opened.1)%Z) table
  /\ fetchone opened.1 opened.2 = Some row
  /\ (forall j, fetchone j opened.2
                = if (j =? opened.1)%Z then Some row else fetchone j table)
  /\ get_open_trades opened.2 = get_open_trades table ++ [row]
  /\ (forall k, is_tp_hit opened.2 opened.1 k = false).
Proof.
  simpl. set (i := lastrowid table). set (row := {| id := i |}).
  assert (Hnew : fetchone i (table ++ [row]) = Some row)
    by (apply fetchone_app_new; [apply fetchone_lastrowid | reflexivity]).
  split; [apply lastrowid_positive|].
  split; [apply Forall_forall; intros r Hr; apply lastrowid_fresh; exact Hr|].
  split; [exact Hnew|]. split; [|split].
  - intros j. destruct (Z.eqb_spec j i) as [-> | Hne]; [exact Hnew|].
    apply fetchone_app_other. simpl. congruence.
  - rewrite get_open_trades_app. reflexivity.
  - intros k. unfold is_tp_hit. rewrite Hnew.
    destruct (valid_level k); simpl; [|reflexivity].
    unfold get_tp_hit. simpl.
    destruct (k =? 1)%Z, (k =? 2)%Z; reflexivity.
Qed.

Lemma get_tp_hit_set k k' r :
  valid_level k' = true ->
  get_tp_hit k' (set_tp_hit k r) = get_tp_hit k' r || (k' =? k)%Z.
Proof.
  unfold valid_level. intros Hv. apply bool_decide_eq_true in Hv.
  repeat (apply elem_of_cons in Hv; destruct Hv as [-> | Hv]);
    [| | | inversion Hv].
  - change (get_tp_hit 1 (set_tp_hit k r))
      with (if (k =? 1)%Z then true else tp1_hit r).
    change (get_tp_hit 1 r) with (tp1_hit r). rewrite (Z.eqb_sym 1 k).
    destruct (k =? 1)%Z; [rewrite orb_true_r | rewrite orb_false_r];
      reflexivity.
  - change (get_tp_hit 2 (set_tp_hit k r))
      with (if (k =? 2)%Z then true else tp2_hit r).
    change (get_tp_hit 2 r) with (tp2_hit r). rewrite (Z.eqb_sym 2 k).
    destruct (k =? 2)%Z; [rewrite orb_true_r | rewrite orb_false_r];
      reflexivity.
  - change (get_tp_hit 3 (set_tp_hit k r))
      with (if (k =? 3)%Z then true else tp3_hit r).
    change (get_tp_hit 3 r) with (tp3_hit r). rewrite (Z.eqb_sym 3 k).
    destruct (k =? 3)%Z; [rewrite orb_true_r | rewrite orb_false_r];
      reflexivity.
Qed.

(** X12: after [mark_tp_hit table i k], [is_tp_hit] answers true for (j, k')
    exactly when it did before, or when (j, k') is (i, k) with k one of
    1, 2, 3 and a row of id i in the table; so an invalid level or an
    unknown id changes no answer; marking never changes an id, a status or
    a pnl, and marking twice is marking once. *)
Theorem mark_tp_hit_round_trip table i k :
  (forall j k',
     is_tp_hit (mark_tp_hit table i k) j k'
     = is_tp_hit table j k'
       || ((j =? i)%Z && (k' =? k)%Z && valid_level k
           && bool_decide (is_Some (fetchone i table))))
  /\ map (fun r => (id r, status r, pnl r)) (mark_tp_hit table i k)
     = map (fun r => (id r, status r, pnl r)) table
  /\ mark_tp_hit (mark_tp_hit table i k) i k = mark_tp_hit table i k.
Proof.
  unfold mark_tp_hit. destruct (valid_level k) eqn:Hk; simpl.
  - split; [|split].
    + intros j k'. unfold is_tp_hit.
      destruct (valid_level k') eqn:Hk'; simpl.
      * rewrite fetchone_update by reflexivity.
        destruct (Z.eqb_spec i j) as [<- | Hne].
        -- rewrite Z.eqb_refl.
           destruct (fetchone i table) as [r|] eqn:Hf; simpl.
           ++ rewrite get_tp_hit_set by exact Hk'.
              rewrite !andb_true_r. reflexivity.
           ++ rewrite ?andb_false_r. reflexivity.
        -- destruct (Z.eqb_spec j i); [congruence|]. simpl.
           rewrite orb_false_r. reflexivity.
      * destruct (Z.eqb_spec k' k) as [-> | Hne]; [congruence|].
        rewrite andb_false_r. reflexivity.
    + unfold update_where_id. rewrite map_map. apply map_ext.
      intros r. destruct (id r =? i)%Z; reflexivity.
    + rewrite update_where_id_twice by reflexivity.
      unfold update_where_id. apply map_ext. intros r.
      destruct (id r =? i)%Z; [|reflexivity].
      unfold set_tp_hit. simpl.
      destruct (k =? 1)%Z, (k =? 2)%Z, (k =? 3)%Z; reflexivity.
  - split; [|split]; try reflexivity.
    intros j k'. rewrite andb_false_r, andb_false_l, orb_false_r.
    reflexivity.
Qed.

Lemma update_where_id_notin i f table :
  i ∉ map id table -> update_where_id i f table = table.
Proof.
  unfold update_where_id. induction table as [|r t IH]; simpl; intros Hn.
  - reflexivity.
  - apply not_elem_of_cons in Hn. destruct Hn as [Hne Hn].
    destruct (Z.eqb_spec (id r) i); [congruence|]. rewrite IH by exact Hn.
    reflexivity.
Qed.

(** X13: after [close_trade table i p] a lookup of id i finds the row
    CLOSED with pnl p, its levels and hit-flags as before, and lookups of
    other ids are unchanged; no open trade has id i; the hit-flags read the
    same; closing an unknown id changes nothing; closing again overwrites
    the pnl; closing and marking commute. *)
Theorem close_trade_round_trip table i p :
  (forall j, fetchone j (close_trade table i p)
             = if (i =? j)%Z then set_closed p <$> fetchone j table
               else fetchone j table)
  /\ Forall (fun r => id r <> i) (get_open_trades (close_trade table i p))
  /\ (forall j k, is_tp_hit (close_trade table i p) j k = is_tp_hit table j k)
  /\ (fetchone i table = None -> close_trade table i p = table)
  /\ (forall q, close_trade (close_trade table i p) i q = close_trade table i q)
  /\ (forall j k, close_trade (mark_tp_hit table j k) i p
                  = mark_tp_hit (close_trade table i p) j k).
Proof.
  unfold close_trade. split; [|split; [|split; [|split; [|split]]]].
  - intros j. apply fetchone_update. reflexivity.
  - apply Forall_forall. intros r Hr Hid.
    apply get_open_trades_spec in Hr. destruct Hr as [Hin Hopen].
    unfold update_where_id in Hin.
    apply list_elem_of_In, in_map_iff in Hin. destruct Hin as (r0 & Heq & _).
    destruct (Z.eqb_spec (id r0) i) as [H0 | H0]; subst r.
    + discriminate Hopen.
    + contradiction.
  - intros j k. unfold is_tp_hit. destruct (valid_level k); [|reflexivity].
    simpl. rewrite fetchone_update by reflexivity.
    destruct (i =? j)%Z; [|reflexivity].
    destruct (fetchone j table); reflexivity.
  - intros Hnone. apply update_where_id_notin. apply fetchone_None. exact Hnone.
  - intros q. rewrite update_where_id_twice by reflexivity. reflexivity.
  - intros j k. unfold mark_tp_hit. destruct (valid_level k); [|reflexivity].
    simpl. unfold update_where_id. rewrite !map_map. apply map_ext.
    intros r. destruct (Z.eqb_spec (id r) j), (Z.eqb_spec (id r) i);
      simpl; subst;
      repeat match goal with
             | |- context [(?a =? ?b)%Z] =>
                 destruct (Z.eqb_spec a b); try congruence
             end; reflexivity.
Qed.
End TableOperations.

(** ** An induction principle for runs

    A property of the table and of the notifier's log holds along every run
    as soon as it survives [open_trade] and every single transition of an
    open position whose guard is unset. *)

Section RunInduction.
Import SignalTracker Lifecycle Engine MoreProps.
Context {cfg : Config}.

Variable P : list db.Trade -> list Result -> Prop.

Hypothesis P_open_trade :
  forall t log symbol side entry_a entry_b stop tp1 tp2 tp3,
    NoDup (map db.id t) -> P t log ->
    P (db.open_trade t symbol side entry_a entry_b stop tp1 tp2 tp3).2 log.

Hypothesis P_transition :
  forall s p ty pnl t log r,
    NoDup (map db.id t) -> P t log ->
    db.fetchone (db.id s) t = Some r ->
    db.is_open r = true ->
    static r = static s ->
    row_blocked r ty = false ->
    crossed s p ty = true ->
    _calculate_pnl (entry_avg s) (exit_level s ty)
      (is_long_side (db.side s)) = Some pnl ->
    P (table_after s ty pnl t) (log ++ [event s p ty pnl]).

Lemma emits_table_log s p st evs st' :
  emits s p st evs st' ->
  NoDup (map db.id (table st)) ->
  P (table st) (notified st) ->
  (exists r, db.fetchone (db.id s) (table st) = Some r
             /\ db.is_open r = true /\ static r = static s) ->
  P (table st') (notified st').
Proof.
  induction 1 as [st | st ty pnl evs st' Hc Hg Hpnl Hcl Hrest IH];
    intros Hnd HP (r & Hr & Hopen & Hstatic).
  - exact HP.
  - assert (Hnb : row_blocked r ty = false).
    { destruct (tp_level ty) as [k|] eqn:Hk.
      - specialize (Hg k eq_refl).
        rewrite (is_tp_hit_blocked _ _ _ _ Hk) in Hg.
        unfold blocked in Hg. rewrite Hr in Hg. exact Hg.
      - destruct ty; try discriminate Hk. simpl. rewrite Hopen.
        reflexivity. }
    assert (HP1 : P (table (apply_event s p ty pnl st))
                    (notified (apply_event s p ty pnl st)))
      by (simpl; eapply P_transition; eauto).
    destruct (closes ty) eqn:Hclose.
    + rewrite (Hcl eq_refl) in Hrest.
      apply emits_nil_inv in Hrest. subst st'. exact HP1.
    + apply IH; [simpl; rewrite table_after_ids; exact Hnd | exact HP1 |].
      exists (row_after ty pnl r). simpl.
      rewrite table_after_fetchone, Z.eqb_refl, Hr. simpl.
      split; [reflexivity|]. split.
      * rewrite row_after_open by exact Hclose. exact Hopen.
      * rewrite <- Hstatic. destruct ty; reflexivity.
Qed.

Lemma checked_table_log s st evs st' :
  checked s st evs st' ->
  NoDup (map db.id (table st)) ->
  P (table st) (notified st) ->
  (exists r, db.fetchone (db.id s) (table st) = Some r
             /\ db.is_open r = true /\ static r = static s) ->
  P (table st') (notified st').
Proof.
  intros [(_ & _ & ->) | (p & _ & _ & He)] Hnd HP Hopen; [exact HP|].
  eapply emits_table_log; eauto.
Qed.

Lemma sweeps_table_log active st groups st' ok :
  sweeps active st groups st' ok ->
  NoDup (map db.id (table st)) ->
  P (table st) (notified st) ->
  still_open active (table st) ->
  P (table st') (notified st').
Proof.
  induction 1 as [st | s rest st evs st1 groups st' ok Hch _ IH
                  | s rest st evs st1 Hch]; intros Hnd HP Hopen.
  - exact HP.
  - apply IH.
    + rewrite (checked_ids _ _ _ _ Hch). exact Hnd.
    + eapply checked_table_log; eauto. exists s.
      destruct (proj2 Hopen s ltac:(left)) as [Hs Ho]. auto.
    + eapply still_open_tail; eauto.
  - eapply checked_table_log; eauto. exists s.
    destruct (proj2 Hopen s ltac:(left)) as [Hs Ho]. auto.
Qed.

Lemma check_signals_table_log exchange st :
  NoDup (map db.id (table st)) ->
  P (table st) (notified st) ->
  P (table (check_signals exchange st)) (notified (check_signals exchange st)).
Proof.
  intros Hnd HP. unfold check_signals.
  destruct (check_all_signals_sweeps exchange st) as (groups & ok & Hsw & _).
  eapply sweeps_table_log; [exact Hsw | | |].
  - rewrite refreshed_table. exact Hnd.
  - rewrite refreshed_table, refreshed_notified. exact HP.
  - rewrite refreshed_table. apply still_open_start. exact Hnd.
Qed.

Lemma step_NoDup st task :
  NoDup (map db.id (table st)) -> NoDup (map db.id (table (step st task))).
Proof.
  intros Hnd. destruct task as [sig | exchange |]; simpl.
  - apply persist_NoDup. exact Hnd.
  - destruct (check_signals_effect exchange st) as (evs & _ & _ & -> & _).
    exact Hnd.
  - exact Hnd.
Qed.

Lemma run_table_log tasks : forall st,
  NoDup (map db.id (table st)) ->
  P (table st) (notified st) ->
  NoDup (map db.id (table (run tasks st)))
  /\ P (table (run tasks st)) (notified (run tasks st)).
Proof.
  unfold run. induction tasks as [|task tasks IH]; intros st Hnd HP; simpl.
  - auto.
  - apply IH; [apply step_NoDup; exact Hnd|].
    destruct task as [sig | exchange |]; simpl.
    + apply P_open_trade; assumption.
    + apply check_signals_table_log; assumption.
    + exact HP.
Qed.
End RunInduction.

(** ** The aggregate queries and the statistics *)

Section AggregateFacts.
Import db Aggregates MoreProps.

Lemma closed_trades_update i f table :
  (forall r, status (f r) = status r) ->
  map (fun r => (status r, pnl r)) (closed_trades (update_where_id i f table))
  = map (fun r => (status r, pnl r))
      (update_where_id i f (closed_trades table)).
Proof.
  intros Hf. unfold closed_trades, update_where_id, is_open.
  induction table as [|r t IH]; simpl; [reflexivity|].
  destruct (id r =? i)%Z eqn:Hi; rewrite ?Hf;
    destruct (status r); simpl; rewrite ?Hi, ?IH; reflexivity.
Qed.

(** [stats] reads the status and the pnl of the rows, nothing else. *)
Lemma stats_ext t t' :
  map (fun r => (status r, pnl r)) t = map (fun r => (status r, pnl r)) t' ->
  stats t = stats t'.
Proof.
  unfold stats, closed_trades, is_open, is_win.
  revert t'. induction t as [|r t IH]; intros [|r' t'] H; simpl in *;
    try discriminate; [reflexivity|].
  injection H as Hs Hp Hrest. specialize (IH _ Hrest).
  injection IH as H1 H2 H3. apply Nat2Z.inj in H1, H2.
  rewrite Hs. destruct (status r'); simpl; [congruence|].
  rewrite Hp. destruct (pnl r') as [p|]; simpl;
    [destruct (Qgtb p 0); simpl|]; congruence.
Qed.

(** [get_tp_stats] reads the three hit-flags of the rows, nothing else. *)
Lemma get_tp_stats_ext t t' :
  map (fun r => (tp1_hit r, tp2_hit r, tp3_hit r)) t
  = map (fun r => (tp1_hit r, tp2_hit r, tp3_hit r)) t' ->
  get_tp_stats t = get_tp_stats t'.
Proof.
  unfold get_tp_stats.
  revert t'. induction t as [|r t IH]; intros [|r' t'] H; simpl in *;
    try discriminate; [reflexivity|].
  injection H as H1 H2 H3 Hrest. specialize (IH _ Hrest).
  injection IH as I1 I2 I3. apply Nat2Z.inj in I1, I2, I3.
  rewrite H1, H2, H3.
  destruct (tp1_hit r'), (tp2_hit r'), (tp3_hit r'); simpl; congruence.
Qed.

Lemma stats_app_open t r :
  is_open r = true -> stats (t ++ [r]) = stats t.
Proof.
  intros Ho. unfold stats, closed_trades.
  rewrite List.filter_app. simpl. rewrite Ho. simpl. rewrite app_nil_r.
  reflexivity.
Qed.

(** Closing the one open row of id [i]: one more closed trade, one more win
    when the pnl is positive, the pnl added to the sum. *)
Lemma stats_close table i p r :
  NoDup (map id table) ->
  fetchone i table = Some r ->
  is_open r = true ->
  (stats (close_trade table i p)).1.1 = ((stats table).1.1 + 1)%Z
  /\ (stats (close_trade table i p)).1.2
     = ((stats table).1.2 + if Qgtb p 0 then 1 else 0)%Z
  /\ ((stats (close_trade table i p)).2 == (stats table).2 + p)%Q.
Proof.
  unfold stats, closed_trades, close_trade, fetchone. simpl.
  induction table as [|a t IH]; simpl; intros Hnd Hf Hopen; [discriminate|].
  apply NoDup_cons in Hnd. destruct Hnd as [Hnotin Hnd].
  destruct (Z.eqb_spec (id a) i) as [Hai | Hai].
  - injection Hf as ->. subst i.
    rewrite (update_where_id_notin _ _ _ Hnotin).
    rewrite Hopen. simpl. unfold is_win at 1. simpl.
    split; [lia|]. split.
    + destruct (Qgtb p 0); simpl; lia.
    + ring.
  - destruct (IH Hnd Hf Hopen) as (I1 & I2 & I3).
    destruct (is_open a); simpl; [auto|].
    split; [lia|]. split.
    + destruct (is_win a); simpl; lia.
    + destruct (pnl a) as [q|]; [rewrite I3; ring | exact I3].
Qed.

Lemma stats_mark table i k : stats (mark_tp_hit table i k) = stats table.
Proof.
  apply stats_ext. unfold mark_tp_hit.
  destruct (valid_level k); simpl; [|reflexivity].
  unfold update_where_id. rewrite map_map. apply map_ext.
  intros r. destruct (id r =? i)%Z; reflexivity.
Qed.

Lemma filter_flag_le (flag : Trade -> bool) i table r :
  fetchone i table = Some r ->
  ((if flag r then 1 else 0) <= length (List.filter flag table))%nat.
Proof.
  unfold fetchone. induction table as [|b t IH]; simpl; [discriminate|].
  destruct (id b =? i)%Z.
  - intros [= ->]. destruct (flag r); simpl; lia.
  - intros Hf. specialize (IH Hf). destruct (flag b); simpl; lia.
Qed.

Lemma wins_le_total table :
  (0 <= (stats table).1.2 <= (stats table).1.1)%Z.
Proof.
  unfold stats. simpl. split; [lia|].
  apply Nat2Z.inj_le.
  induction (closed_trades table) as [|r t IH]; simpl; [lia|].
  destruct (is_win r); simpl; lia.
Qed.
End AggregateFacts.

Section AggregateTheorems.
Import db Aggregates MoreProps.

(** X14: [stats] counts nothing on an empty table, is not changed by
    opening a trade or by marking a level, and reports at most as many wins
    as closed trades; closing the open row of id i with pnl p adds one
    closed trade, one win when p > 0, and p to the pnl total. *)
Theorem stats_follow_operations table :
  stats init_db = (0%Z, 0%Z, 0%Q)
  /\ (forall symbol side entry_a entry_b stop tp1 tp2 tp3,
        stats (open_trade table symbol side entry_a entry_b stop
                 tp1 tp2 tp3).2 = stats table)
  /\ (forall i k, stats (mark_tp_hit table i k) = stats table)
  /\ (0 <= (stats table).1.2 <= (stats table).1.1)%Z
  /\ (forall i p r,
        NoDup (map id table) -> fetchone i table = Some r ->
        status r = OPEN ->
        (stats (close_trade table i p)).1.1 = ((stats table).1.1 + 1)%Z
        /\ (stats (close_trade table i p)).1.2
           = ((stats table).1.2 + if Qgtb p 0 then 1 else 0)%Z
        /\ ((stats (close_trade table i p)).2 == (stats table).2 + p)%Q).
Proof.
  split; [reflexivity|]. split; [|split; [|split]].
  - intros. apply stats_app_open. reflexivity.
  - intros i k. apply stats_mark.
  - apply wins_le_total.
  - intros i p r Hnd Hf Hopen. eapply stats_close; eauto.
    unfold is_open. rewrite Hopen. reflexivity.
Qed.

Lemma stats_follow_operations_witness :
  (stats (close_trade (SignalTracker.table Scenario.opened) 1 5)).1.1 = 1%Z
  /\ (stats (close_trade (SignalTracker.table Scenario.opened) 1 5)).1.2 = 1%Z
  /\ ((stats (close_trade (SignalTracker.table Scenario.opened) 1 5)).2 == 5)%Q.
Proof.
  destruct (stats_follow_operations (SignalTracker.table Scenario.opened))
    as (_ & _ & _ & _ & Hclose).
  destruct (Hclose 1%Z 5%Q
              {| id := 1; db.symbol := "BTC"; db.side := LONG;
                 db.entry_a := 100; db.entry_b := Some 98%Q; db.stop := 95;
                 db.tp1 := 105; db.tp2 := 110; db.tp3 := 120;
                 status := OPEN; pnl := None; tp1_hit := false;
                 tp2_hit := false; tp3_hit := false |})
    as (H1 & H2 & H3).
  - repeat constructor. intros H. inversion H.
  - reflexivity.
  - reflexivity.
  - split; [exact H1|]. split; [exact H2 | exact H3].
Defined.

Lemma filter_flag_update (flag : Trade -> bool) i f table r :
  NoDup (map id table) ->
  fetchone i table = Some r ->
  (forall x, id (f x) = id x) ->
  length (List.filter flag (update_where_id i f table))
  = (length (List.filter flag table)
     + (if flag (f r) then 1 else 0) - (if flag r then 1 else 0))%nat.
Proof.
  unfold fetchone. intros Hnd Hf Hid.
  induction table as [|a t IH]; simpl in *; [discriminate|].
  apply NoDup_cons in Hnd. destruct Hnd as [Hnotin Hnd].
  destruct (Z.eqb_spec (id a) i) as [Hai | Hai].
  - injection Hf as ->. subst i.
    fold (update_where_id (id r) f t).
    rewrite (update_where_id_notin _ _ _ Hnotin).
    destruct (flag (f r)), (flag r); simpl; lia.
  - fold (update_where_id i f t). specialize (IH Hnd Hf).
    unfold update_where_id in *.
    assert (Hle : ((if flag r then 1 else 0)
                   <= length (List.filter flag t))%nat).
    { clear -Hf. induction t as [|b t IH]; simpl in *; [discriminate|].
      destruct (id b =? i)%Z.
      - injection Hf as ->. destruct (flag r); simpl; lia.
      - specialize (IH Hf). destruct (flag b); simpl; lia. }
    destruct (flag a); simpl; lia.
Qed.

(** X15: [get_tp_stats] is not changed by opening or closing a trade;
    marking level k of the row of id i, the flag being unset, adds one to the
    count of level k and leaves the other two counts alone; marking a level
    that is already set changes no count. *)
Theorem tp_stats_follow_operations table :
  (forall symbol side entry_a entry_b stop tp1 tp2 tp3,
     get_tp_stats (open_trade table symbol side entry_a entry_b stop
                     tp1 tp2 tp3).2 = get_tp_stats table)
  /\ (forall i p, get_tp_stats (close_trade table i p) = get_tp_stats table)
  /\ (forall i k r,
        NoDup (map id table) -> fetchone i table = Some r ->
        valid_level k = true ->
        forall k', valid_level k' = true ->
          hits_of k' (get_tp_stats (mark_tp_hit table i k))
          = (hits_of k' (get_tp_stats table)
             + if (k' =? k)%Z && negb (get_tp_hit k r) then 1 else 0)%Z).
Proof.
  split; [|split].
  - intros. unfold get_tp_stats, open_trade. simpl.
    rewrite !List.filter_app. simpl. rewrite !app_nil_r. reflexivity.
  - intros i p. apply get_tp_stats_ext. unfold close_trade, update_where_id.
    rewrite map_map. apply map_ext.
    intros r. destruct (id r =? i)%Z; reflexivity.
  - intros i k r Hnd Hf Hk k' Hk'. unfold mark_tp_hit. rewrite Hk. simpl.
    pose proof (get_tp_hit_set k k' r Hk') as Hset.
    assert (Hflag : forall flag,
              (forall x, flag x = get_tp_hit k' x) ->
              Z.of_nat (length (List.filter flag
                                  (update_where_id i (set_tp_hit k) table)))
              = (Z.of_nat (length (List.filter flag table))
                 + if (k' =? k)%Z && negb (get_tp_hit k r) then 1 else 0)%Z).
    { intros flag Hfl.
      rewrite (filter_flag_update flag i (set_tp_hit k) table r Hnd Hf)
        by reflexivity.
      assert (Hle : ((if flag r then 1 else 0)
                     <= length (List.filter flag table))%nat).
      { clear -Hf. unfold fetchone in Hf.
        induction table as [|b t IH]; simpl in *; [discriminate|].
        destruct (id b =? i)%Z.
        - injection Hf as ->. destruct (flag r); simpl; lia.
        - specialize (IH Hf). destruct (flag b); simpl; lia. }
      rewrite !Hfl, Hset in *.
      destruct (Z.eqb_spec k' k) as [-> | Hne];
        destruct (get_tp_hit k r); try destruct (get_tp_hit k' r);
        simpl in *; lia. }
    unfold valid_level in Hk'. apply bool_decide_eq_true in Hk'.
    unfold hits_of, get_tp_stats. simpl.
    repeat (apply elem_of_cons in Hk'; destruct Hk' as [-> | Hk']);
      [| | | inversion Hk']; simpl; apply Hflag; reflexivity.
Qed.

Lemma tp_stats_follow_operations_witness :
  hits_of 1 (get_tp_stats (mark_tp_hit (SignalTracker.table Scenario.opened) 1 1)) = 1%Z
  /\ hits_of 2 (get_tp_stats (mark_tp_hit (SignalTracker.table Scenario.opened) 1 1)) = 0%Z.
Proof.
  destruct (tp_stats_follow_operations (SignalTracker.table Scenario.opened))
    as (_ & _ & Hmark).
  assert (Hnd : NoDup (map id (SignalTracker.table Scenario.opened)))
    by (repeat constructor; intros H; inversion H).
  split.
  - apply (Hmark 1%Z 1%Z _ Hnd eq_refl eq_refl 1%Z eq_refl).
  - apply (Hmark 1%Z 1%Z _ Hnd eq_refl eq_refl 2%Z eq_refl).
Defined.
End AggregateTheorems.

Section FullStatsTheorems.
Import db Aggregates StatisticsManager.

Lemma get_full_stats_unfold table :
  let total := (stats table).1.1 in
  let wins := (stats table).1.2 in
  let total_pnl := (stats table).2 in
  get_full_stats table
  = {| total := total;
       wins := wins;
       losses := if (total >? 0)%Z then (total - wins)%Z else 0%Z;
       winrate :=
         if (total >? 0)%Z then inject_Z wins / inject_Z total * 100 else 0;
       total_pnl := total_pnl;
       avg_pnl := if (total >? 0)%Z then total_pnl / inject_Z total else 0;
       StatisticsManager.tp1_hits := Aggregates.tp1_hits (get_tp_stats table);
       StatisticsManager.tp2_hits := Aggregates.tp2_hits (get_tp_stats table);
       StatisticsManager.tp3_hits := Aggregates.tp3_hits (get_tp_stats table);
       loss_rate :=
         if (total >? 0)%Z
         then 100 - (if (total >? 0)%Z
                     then inject_Z wins / inject_Z total * 100 else 0)
         else 0;
       avg_win :=
         if (total >? 0)%Z then
           if (wins >? 0)%Z && Qgtb total_pnl 0
           then total_pnl / inject_Z wins else 0
         else 0;
       profit_factor :=
         if (total >? 0)%Z then
           if negb (Qeq_bool (if (total >? 0)%Z
                              then total_pnl / inject_Z total else 0) 0)
           then Qabs (if (total >? 0)%Z
                      then total_pnl / inject_Z total else 0)
           else 0
         else 0 |}.
Proof.
  unfold get_full_stats. destruct (stats table) as [[t w] p]. reflexivity.
Qed.

(** X16: the figures of [get_full_stats] agree with one another: wins and
    losses add up to the closed trades, the two rates lie in [0, 100] and
    add up to 100 once a trade is closed, everything is 0 before that, the
    average times the number of closed trades is the pnl total, and the
    figure reported as profit factor is the absolute value of the average
    pnl. *)
Theorem full_stats_consistent table :
  let s := get_full_stats table in
  (wins s + losses s = total s)%Z
  /\ (0 <= wins s)%Z /\ (0 <= losses s)%Z
  /\ (0 <= winrate s <= 100)%Q
  /\ (0 <= loss_rate s <= 100)%Q
  /\ (profit_factor s == Qabs (avg_pnl s))%Q
  /\ ((0 < total s)%Z ->
        (winrate s + loss_rate s == 100)%Q
        /\ (avg_pnl s * inject_Z (total s) == total_pnl s)%Q)
  /\ (total s = 0%Z ->
        wins s = 0%Z /\ losses s = 0%Z /\ winrate s = 0%Q
        /\ loss_rate s = 0%Q /\ avg_pnl s = 0%Q /\ avg_win s = 0%Q
        /\ profit_factor s = 0%Q).
Proof.
  rewrite (get_full_stats_unfold table).
  pose proof (wins_le_total table) as Hw.
  generalize dependent ((stats table).1.1). intros t.
  generalize dependent ((stats table).1.2). intros w.
  generalize ((stats table).2). intros p Hw. simpl.
  assert (Ht0 : (0 <= t)%Z) by lia.
  destruct (t >? 0)%Z eqn:Ht.
  - apply Z.gtb_lt in Ht.
    pose proof (ratio_in_unit w t Hw ltac:(lia)) as [Hr0 Hr1].
    assert (Hpos : (0 < inject_Z t)%Q).
    { change 0%Q with (inject_Z 0). rewrite <- Zlt_Qlt. lia. }
    split; [lia|]. split; [lia|]. split; [lia|].
    split; [split; lra|]. split; [split; lra|].
    split.
    + destruct (Qeq_bool (p / inject_Z t) 0) eqn:He; simpl; [|reflexivity].
      apply Qeq_bool_eq in He. symmetry.
      apply (Qabs_wd _ _ He).
    + split; [|lia]. intros _. split; [ring|].
      field. intros H0. rewrite H0 in Hpos. revert Hpos. apply Qlt_irrefl.
  - rewrite Z.gtb_ltb in Ht. apply Z.ltb_ge in Ht.
    assert (t = 0%Z) as Ht' by lia.
    split; [lia|]. split; [lia|]. split; [lia|].
    split; [split; lra|]. split; [split; lra|].
    split; [reflexivity|]. split; [lia|].
    intros _. repeat split; try reflexivity; lia.
Qed.
End FullStatsTheorems.

Lemma full_stats_consistent_witness :
  (StatisticsManager.winrate
     (StatisticsManager.get_full_stats (SignalTracker.table Scenario.stopped))
   + StatisticsManager.loss_rate
       (StatisticsManager.get_full_stats
          (SignalTracker.table Scenario.stopped)) == 100)%Q.
Proof.
  pose proof (full_stats_consistent (SignalTracker.table Scenario.stopped))
    as H.
  cbv zeta in H. destruct H as (_ & _ & _ & _ & _ & _ & H & _).
  apply H. vm_compute. reflexivity.
Defined.

(** ** What the table keeps along every run *)

Section TableAlongRuns.
Import SignalTracker Lifecycle Engine MoreProps.
Context {cfg : Config}.

Lemma update_where_id_Forall (Q : db.Trade -> Prop) i f t r :
  NoDup (map db.id t) ->
  db.fetchone i t = Some r ->
  Forall Q t -> Q (f r) ->
  Forall Q (db.update_where_id i f t).
Proof.
  intros Hnd Hf HQ Hr. unfold db.update_where_id.
  apply Forall_forall. intros x Hx.
  apply list_elem_of_fmap in Hx. destruct Hx as (r0 & -> & Hin).
  destruct (Z.eqb_spec (db.id r0) i) as [Hi | Hi].
  - pose proof (fetchone_unique _ _ Hnd Hin) as Hu.
    rewrite Hi, Hf in Hu. injection Hu as <-. exact Hr.
  - rewrite Forall_forall in HQ. apply HQ. exact Hin.
Qed.

Lemma row_after_ok ty pnl r :
  row_ok r -> db.is_open r = true -> row_ok (row_after ty pnl r).
Proof.
  unfold row_ok, db.is_open. intros [H3 Hp] Ho.
  destruct (db.status r) eqn:Hs; [|discriminate].
  assert (Hnone : db.pnl r = None) by (apply Hp; reflexivity).
  assert (Hno3 : db.tp3_hit r = false).
  { destruct (db.tp3_hit r); [|reflexivity]. discriminate (H3 eq_refl). }
  destruct ty; simpl; rewrite ?Hs, ?Hnone, ?Hno3;
    (split; [intros; reflexivity || discriminate
            | split; intros; reflexivity || discriminate]).
Qed.

Lemma row_after_static ty pnl r : static (row_after ty pnl r) = static r.
Proof. destruct ty; reflexivity. Qed.

Lemma table_after_static s ty pnl t :
  map static (table_after s ty pnl t) = map static t.
Proof.
  rewrite table_after_update. unfold db.update_where_id.
  rewrite map_map. apply map_ext. intros r.
  destruct (db.id r =? db.id s)%Z; [apply row_after_static | reflexivity].
Qed.

Lemma boot_NoDup : NoDup (map db.id (table boot)).
Proof. constructor. Qed.

Lemma run_NoDup tasks st :
  NoDup (map db.id (table st)) -> NoDup (map db.id (table (run tasks st))).
Proof.
  revert st. unfold run.
  induction tasks as [|task tasks IH]; intros st Hnd; simpl; [exact Hnd|].
  apply IH. apply step_NoDup. exact Hnd.
Qed.

(** X17: in every table the engine can reach, level 3 is flagged only on
    closed rows and a row carries a pnl exactly when it is closed. *)
Theorem rows_stay_well_formed tasks :
  Forall row_ok (table (run tasks boot)).
Proof.
  refine (proj2 (run_table_log (fun t _ => Forall row_ok t) _ _
                   tasks boot boot_NoDup _)).
  - intros t log symbol side entry_a entry_b stop tp1 tp2 tp3 _ Ht.
    unfold db.open_trade. simpl. apply Forall_app. split; [exact Ht|].
    constructor; [|constructor].
    split; simpl; [discriminate | split; reflexivity].
  - intros s p ty pnl t log r Hnd Ht Hr Hopen _ _ _ _.
    rewrite table_after_update.
    apply (update_where_id_Forall _ _ _ _ r Hnd Hr Ht).
    apply row_after_ok; [|exact Hopen].
    rewrite Forall_forall in Ht. apply Ht.
    apply fetchone_Some in Hr. apply Hr.
  - constructor.
Qed.

(** X18: a run only appends rows, and never changes the id, the symbol,
    the side or a price level of a row it has written: the table of a
    shorter run, reduced to these fields, is a prefix of the table of every
    run that continues it. *)
Theorem positions_are_never_rewritten tasks tasks' :
  map static (table (run tasks boot))
    `prefix_of` map static (table (run (tasks ++ tasks') boot)).
Proof.
  rewrite run_app.
  pose proof (run_NoDup tasks boot boot_NoDup) as Hnd.
  generalize dependent (run tasks boot). intros st Hnd.
  refine (proj2 (run_table_log
                   (fun t _ => map static (table st) `prefix_of` map static t)
                   _ _ tasks' st Hnd _)).
  - intros t log symbol side entry_a entry_b stop tp1 tp2 tp3 _ Ht.
    unfold db.open_trade. simpl. rewrite map_app.
    etransitivity; [exact Ht|]. apply prefix_app_r. reflexivity.
  - intros s p ty pnl t log r _ Ht _ _ _ _ _ _.
    rewrite table_after_static. exact Ht.
  - reflexivity.
Qed.

Lemma closed_row_kept tasks : forall st i r,
  NoDup (map db.id (table st)) ->
  db.fetchone i (table st) = Some r ->
  db.is_open r = false ->
  db.fetchone i (table (run tasks st)) = Some r.
Proof.
  intros st i r Hnd Hf Hclosed.
  refine (proj2 (run_table_log (fun t _ => db.fetchone i t = Some r)
                   _ _ tasks st Hnd Hf)).
  - intros t log symbol side entry_a entry_b stop tp1 tp2 tp3 _ Ht.
    unfold db.open_trade. simpl. apply fetchone_app_Some. exact Ht.
  - intros s p ty pnl t log r' _ Ht Hr' Hopen _ _ _ _.
    rewrite table_after_fetchone.
    destruct (Z.eqb_spec (db.id s) i) as [Hi | Hi]; [|exact Ht].
    rewrite Hi, Ht in Hr'. injection Hr' as <-. congruence.
Qed.

(** X19: a closed row is final: once a lookup of id i returns a CLOSED
    row, every later lookup of i returns the same row, whatever scans,
    cycles and restarts follow. *)
Theorem closed_row_is_final tasks tasks' i r :
  db.fetchone i (table (run tasks boot)) = Some r ->
  db.status r = db.CLOSED ->
  db.fetchone i (table (run (tasks ++ tasks') boot)) = Some r.
Proof.
  intros Hf Hs. rewrite run_app. apply closed_row_kept.
  - apply run_NoDup, boot_NoDup.
  - exact Hf.
  - unfold db.is_open. rewrite Hs. reflexivity.
Qed.
End TableAlongRuns.

Lemma closed_row_is_final_witness :
  db.fetchone 1
    (SignalTracker.table
       (Engine.run (cfg := Scenario.config)
          ([Engine.Scan Scenario.position_a;
            Engine.Cycle (Scenario.quote 105);
            Engine.Cycle (Scenario.quote 94)]
           ++ [Engine.Cycle (Scenario.quote 200);
               Engine.Scan Scenario.position_b])
          Engine.boot))
  = db.fetchone 1
      (SignalTracker.table
         (Engine.run (cfg := Scenario.config)
            [Engine.Scan Scenario.position_a;
             Engine.Cycle (Scenario.quote 105);
             Engine.Cycle (Scenario.quote 94)]
            Engine.boot)).
Proof.
  destruct (db.fetchone 1
              (SignalTracker.table
                 (Engine.run (cfg := Scenario.config)
                    [Engine.Scan Scenario.position_a;
                     Engine.Cycle (Scenario.quote 105);
                     Engine.Cycle (Scenario.quote 94)]
                    Engine.boot))) as [r|] eqn:Hf.
  - apply (closed_row_is_final (cfg := Scenario.config)); [exact Hf|].
    revert Hf. vm_compute. intros [= <-]. reflexivity.
  - revert Hf. vm_compute. discriminate.
Defined.

(** ** The table against the notifier's log *)

Section TableAndLog.
Import SignalTracker Lifecycle Engine MoreProps.
Context {cfg : Config}.

Lemma row_after_recorded ty pnl r ty' :
  row_ok r -> db.is_open r = true -> row_blocked r ty = false ->
  (if row_recorded (row_after ty pnl r) ty' then 1 else 0)%nat
  = ((if row_recorded r ty' then 1 else 0)
     + (if bool_decide (ty = ty') then 1 else 0))%nat.
Proof.
  unfold row_ok, db.is_open. intros [H3 _] Ho Hb.
  destruct (db.status r) eqn:Hs; [|discriminate].
  assert (Hno3 : db.tp3_hit r = false).
  { destruct (db.tp3_hit r); [|reflexivity]. discriminate (H3 eq_refl). }
  destruct ty, ty'; simpl in *; unfold db.is_open; simpl;
    rewrite ?Hs, ?Hno3, ?Hb; simpl;
    try reflexivity;
    repeat match goal with
           | |- context [if ?b then _ else _] => destruct b
           end; reflexivity.
Qed.

Lemma recorded_open_trade t i ty symbol side entry_a entry_b stop tp1 tp2 tp3 :
  recorded (db.open_trade t symbol side entry_a entry_b stop tp1 tp2 tp3).2
    i ty
  = recorded t i ty.
Proof.
  unfold recorded, db.open_trade. simpl.
  destruct (db.fetchone i t) as [r|] eqn:Hf.
  - rewrite (fetchone_app_Some _ _ _ _ Hf). reflexivity.
  - destruct (Z.eq_dec (db.lastrowid t) i) as [Hi | Hi].
    + erewrite fetchone_app_new; [| exact Hf | exact Hi].
      destruct ty; reflexivity.
    + rewrite fetchone_app_other by exact Hi. rewrite Hf. reflexivity.
Qed.

Lemma count_events_snoc i ty log s p ty0 pnl :
  count_events i ty (log ++ [event s p ty0 pnl])
  = (count_events i ty log
     + if (db.id s =? i)%Z && bool_decide (ty0 = ty) then 1 else 0)%nat.
Proof.
  rewrite count_events_app. f_equal. unfold count_events. simpl.
  unfold matches, event_id. simpl.
  destruct ((db.id s =? i)%Z && bool_decide (ty0 = ty)); reflexivity.
Qed.

Lemma table_records_log tasks :
  Forall row_ok (table (run tasks boot))
  /\ forall i ty,
       count_events i ty (notified (run tasks boot))
       = (if recorded (table (run tasks boot)) i ty then 1 else 0)%nat.
Proof.
  refine (proj2 (run_table_log
                   (fun t log =>
                      Forall row_ok t
                      /\ forall i ty,
                           count_events i ty log
                           = (if recorded t i ty then 1 else 0)%nat)
                   _ _ tasks boot boot_NoDup _)).
  - intros t log symbol side entry_a entry_b stop tp1 tp2 tp3 _ [Hok Ht].
    split.
    + unfold db.open_trade. simpl. apply Forall_app. split; [exact Hok|].
      constructor; [|constructor].
      split; simpl; [discriminate | split; reflexivity].
    + intros i ty. rewrite recorded_open_trade. apply Ht.
  - intros s p ty pnl t log r Hnd [Hok Ht] Hr Hopen _ Hnb _ _.
    assert (Hrok : row_ok r).
    { rewrite Forall_forall in Hok. apply Hok.
      apply fetchone_Some in Hr. apply Hr. }
    split.
    + rewrite table_after_update.
      apply (update_where_id_Forall _ _ _ _ r Hnd Hr Hok).
      apply row_after_ok; assumption.
    + intros i ty'. rewrite count_events_snoc, Ht.
      unfold recorded. rewrite table_after_fetchone.
      destruct (Z.eqb_spec (db.id s) i) as [Hi | Hi]; simpl.
      * subst i. rewrite Hr. simpl.
        rewrite (row_after_recorded ty pnl r ty' Hrok Hopen Hnb).
        reflexivity.
      * lia.
  - split; [constructor | intros i ty; reflexivity].
Qed.

(** X20: the table is an exact record of what was notified: for every
    position id and event type, the log of every run holds one event when
    the row says so (closed with level 3 unset for the stop, the hit-flag
    for a level) and none otherwise; so a position has one closing event,
    stop or level 3 but not both, when its row is closed and none while it
    is open or does not exist. *)
Theorem table_records_every_event tasks i ty :
  let st := run tasks boot in
  count_events i ty (notified st)
  = (if recorded (table st) i ty then 1 else 0)%nat
  /\ (count_events i STOP_LOSS (notified st)
      + count_events i TP3_FULL (notified st))%nat
     = (if is_closed (table st) i then 1 else 0)%nat.
Proof.
  destruct (table_records_log tasks) as [Hok Hrec].
  split; [apply Hrec|]. rewrite !Hrec. unfold recorded, is_closed.
  destruct (db.fetchone i (table (run tasks boot))) as [r|] eqn:Hf;
    [|reflexivity].
  assert (Hrok : row_ok r).
  { rewrite Forall_forall in Hok. apply Hok.
    apply fetchone_Some in Hf. apply Hf. }
  destruct Hrok as [H3 _]. unfold row_recorded, db.is_open.
  destruct (db.tp3_hit r); [rewrite (H3 eq_refl); reflexivity|].
  destruct (db.status r); reflexivity.
Qed.

Lemma count_type_snoc ty log s p ty0 pnl :
  count_type ty (log ++ [event s p ty0 pnl])
  = (count_type ty log + if bool_decide (ty0 = ty) then 1 else 0)%nat.
Proof.
  unfold count_type. rewrite List.filter_app, length_app. simpl.
  destruct (bool_decide (ty0 = ty)); reflexivity.
Qed.

Lemma row_after_flag ty pnl r ty' :
  ty' <> STOP_LOSS -> row_blocked r ty = false ->
  row_blocked (row_after ty pnl r) ty'
  = row_blocked r ty' || bool_decide (ty = ty').
Proof.
  intros Hne Hb.
  destruct ty, ty'; try congruence; simpl in *;
    rewrite ?orb_false_r, ?orb_true_r; reflexivity.
Qed.

Lemma flags_count_log tasks ty :
  ty <> STOP_LOSS ->
  length (List.filter (fun r => row_blocked r ty) (table (run tasks boot)))
  = count_type ty (notified (run tasks boot)).
Proof.
  intros Hne.
  refine (proj2 (run_table_log
                   (fun t log =>
                      length (List.filter (fun r => row_blocked r ty) t)
                      = count_type ty log)
                   _ _ tasks boot boot_NoDup _)).
  - intros t log symbol side entry_a entry_b stop tp1 tp2 tp3 _ Ht.
    unfold db.open_trade. simpl. rewrite List.filter_app, length_app, Ht.
    destruct ty; try congruence; simpl; lia.
  - intros s p ty0 pnl t log r Hnd Ht Hr _ _ Hnb _ _.
    rewrite table_after_update, count_type_snoc, <- Ht.
    rewrite (filter_flag_update _ _ _ _ r Hnd Hr) by apply row_after_id.
    pose proof (filter_flag_le (fun r => row_blocked r ty) _ _ _ Hr) as Hle.
    simpl in Hle |- *. rewrite (row_after_flag ty0 pnl r ty Hne Hnb).
    destruct (bool_decide_reflect (ty0 = ty)) as [-> | Hty].
    + rewrite Hnb in *. rewrite orb_true_r. lia.
    + rewrite orb_false_r.
      destruct (row_blocked r ty); lia.
  - reflexivity.
Qed.

(** X21: the three counters of [get_tp_stats] are the numbers of TP1, TP2
    and TP3_FULL events the notifier was given, along every run. *)
Theorem tp_stats_count_the_events tasks :
  let st := run tasks boot in
  Aggregates.tp1_hits (Aggregates.get_tp_stats (table st))
  = Z.of_nat (count_type TP1 (notified st))
  /\ Aggregates.tp2_hits (Aggregates.get_tp_stats (table st))
     = Z.of_nat (count_type TP2 (notified st))
  /\ Aggregates.tp3_hits (Aggregates.get_tp_stats (table st))
     = Z.of_nat (count_type TP3_FULL (notified st)).
Proof.
  unfold Aggregates.get_tp_stats. simpl.
  rewrite <- !flags_count_log by discriminate.
  split; [|split]; reflexivity.
Qed.

Lemma closing_events_snoc log s p ty pnl :
  closing_events (log ++ [event s p ty pnl])
  = closing_events log ++ (if closes ty then [event s p ty pnl] else []).
Proof. unfold closing_events. rewrite List.filter_app. reflexivity. Qed.

Lemma log_pnl_snoc log e :
  (log_pnl (log ++ [e]) == log_pnl log + SignalTracker.pnl e)%Q.
Proof.
  induction log as [|a l IH]; simpl; [ring|]. rewrite IH. ring.
Qed.

Lemma stats_agree_close t log s p ty pnl r :
  closes ty = true ->
  NoDup (map db.id t) -> db.fetchone (db.id s) t = Some r ->
  db.is_open r = true ->
  stats_agree t log ->
  stats_agree (db.close_trade t (db.id s) pnl) (log ++ [event s p ty pnl]).
Proof.
  intros Hcl Hnd Hr Hopen (H1 & H2 & H3).
  destruct (stats_close t (db.id s) pnl r Hnd Hr Hopen) as (C1 & C2 & C3).
  unfold stats_agree. rewrite closing_events_snoc, Hcl.
  rewrite List.filter_app, !length_app.
  split; [|split].
  - rewrite C1, H1. simpl. lia.
  - rewrite C2, H2. simpl. destruct (Qgtb pnl 0); simpl; lia.
  - rewrite C3, H3, log_pnl_snoc. reflexivity.
Qed.

Lemma stats_agree_log tasks :
  stats_agree (table (run tasks boot)) (notified (run tasks boot)).
Proof.
  refine (proj2 (run_table_log stats_agree _ _ tasks boot boot_NoDup _)).
  - intros t log symbol side entry_a entry_b stop tp1 tp2 tp3 _ Ht.
    unfold stats_agree, db.open_trade. cbn [snd].
    rewrite stats_app_open by reflexivity. exact Ht.
  - intros s p ty pnl t log r Hnd Ht Hr Hopen _ _ _ _.
    destruct ty; simpl.
    + eapply stats_agree_close; eauto.
    + unfold stats_agree. rewrite stats_mark, closing_events_snoc.
      simpl. rewrite app_nil_r. exact Ht.
    + unfold stats_agree. rewrite stats_mark, closing_events_snoc.
      simpl. rewrite app_nil_r. exact Ht.
    + apply (stats_agree_close (db.mark_tp_hit t (db.id s) 3) log s p
               TP3_FULL pnl (db.set_tp_hit 3 r)).
      * reflexivity.
      * unfold db.mark_tp_hit. simpl. rewrite update_where_id_ids; auto.
      * unfold db.mark_tp_hit. simpl.
        rewrite fetchone_update, Z.eqb_refl, Hr by reflexivity.
        reflexivity.
      * exact Hopen.
      * unfold stats_agree. rewrite stats_mark. exact Ht.
  - split; [reflexivity|]. split; reflexivity.
Qed.

(** X22: what [stats] reports is what the notifier was told: along every
    run the number of closed trades is the number of STOP_LOSS and TP3_FULL
    events, the number of wins is the number of those with a positive pnl,
    and the pnl total is the sum of their pnl. *)
Theorem stats_sum_the_closing_events tasks :
  let st := run tasks boot in
  let closing := closing_events (notified st) in
  (Aggregates.stats (table st)).1.1 = Z.of_nat (length closing)
  /\ (Aggregates.stats (table st)).1.2
     = Z.of_nat (length (List.filter
                           (fun e => Qgtb (SignalTracker.pnl e) 0) closing))
  /\ ((Aggregates.stats (table st)).2 == log_pnl closing)%Q.
Proof. exact (stats_agree_log tasks). Qed.

Lemma backed_log tasks :
  Forall (backed (table (run tasks boot))) (notified (run tasks boot)).
Proof.
  refine (proj2 (run_table_log (fun t log => Forall (backed t) log)
                   _ _ tasks boot boot_NoDup _)).
  - intros t log symbol side entry_a entry_b stop tp1 tp2 tp3 _ Ht.
    unfold db.open_trade. simpl.
    eapply Forall_impl; [exact Ht|]. intros e (r & Hf & Hrest).
    exists r. split; [apply fetchone_app_Some; exact Hf | exact Hrest].
  - intros s p ty pnl t log r Hnd Ht Hr Hopen Hst Hnb _ _.
    apply Forall_app. split.
    + eapply Forall_impl; [exact Ht|].
      intros e (r0 & Hf & Hs0 & Hb0 & Hc0).
      rewrite <- (row_after_static ty pnl) in Hs0.
      exists (if (db.id s =? event_id e)%Z then row_after ty pnl r0 else r0).
      rewrite table_after_fetchone, Hf.
      destruct (Z.eqb_spec (db.id s) (event_id e)) as [Hi | Hi]; simpl.
      * rewrite Hi, Hf in Hr. injection Hr as <-.
        split; [reflexivity|]. split; [exact Hs0|].
        split; [apply row_after_blocked_mono; exact Hb0|].
        intros Hc. destruct (Hc0 Hc) as [Hclosed _]. congruence.
      * rewrite row_after_static in Hs0. auto.
    + constructor; [|constructor].
      exists (row_after ty pnl r). unfold event_id. simpl.
      rewrite table_after_fetchone, Z.eqb_refl, Hr. simpl.
      split; [reflexivity|]. split; [rewrite row_after_static; exact Hst|].
      split; [apply row_after_blocks|].
      destruct ty; simpl; intros Hc; try discriminate Hc;
        split; reflexivity.
  - constructor.
Qed.

(** X23: every event the notifier was given is backed by the table: the
    row of its id exists and has the symbol, side and levels the event was
    sent with; the level's hit-flag is set, or the row is closed for a stop;
    and for a STOP_LOSS or TP3_FULL event the row is CLOSED and stores the
    pnl the event reported. *)
Theorem notified_event_is_backed tasks e :
  e ∈ notified (run tasks boot) ->
  exists r,
    db.fetchone (event_id e) (table (run tasks boot)) = Some r
    /\ static r = static (signal e)
    /\ row_blocked r (type e) = true
    /\ (closes (type e) = true ->
        db.status r = db.CLOSED /\ db.pnl r = Some (SignalTracker.pnl e)).
Proof.
  intros Hin. pose proof (backed_log tasks) as H.
  rewrite Forall_forall in H. destruct (H e Hin) as (r & Hf & Hs & Hb & Hc).
  exists r. split; [exact Hf|]. split; [exact Hs|]. split; [exact Hb|].
  intros Hcl. destruct (Hc Hcl) as [Ho Hp]. split; [|exact Hp].
  unfold db.is_open in Ho. destruct (db.status r); [discriminate|reflexivity].
Qed.
End TableAndLog.

Lemma notified_event_is_backed_witness :
  exists e r,
    e ∈ SignalTracker.notified Scenario.stopped
    /\ db.fetchone (Lifecycle.event_id e)
         (SignalTracker.table Scenario.stopped) = Some r
    /\ db.pnl r = Some (SignalTracker.pnl e).
Proof.
  destruct (SignalTracker.notified Scenario.stopped) as [|e0 [|e l]] eqn:Hlog;
    [revert Hlog; vm_compute; discriminate
    |revert Hlog; vm_compute; discriminate|].
  assert (Hin : e ∈ SignalTracker.notified Scenario.stopped).
  { rewrite Hlog. right. left. }
  assert (Hcl : Lifecycle.closes (SignalTracker.type e) = true).
  { revert Hlog. vm_compute. intros [= _ <- _]. reflexivity. }
  destruct (notified_event_is_backed (cfg := Scenario.config) _ e Hin)
    as (r & Hf & _ & _ & Hc).
  exists e, r. split; [rewrite <- Hlog; exact Hin|].
  split; [exact Hf | apply (Hc Hcl)].
Defined.

(** ** One pass and one cycle: errors and priorities *)

Section PassFacts.
Import SignalTracker Lifecycle Engine MoreProps.
Context {cfg : Config}.

Ltac run_pass :=
  unfold _check_signal, mbind, M_bind, mret, M_ret, read, write_table,
    send_signal_result, of_option, raise; simpl.

Ltac split_ifs :=
  repeat match goal with
         | |- context [if ?b then _ else _] => destruct b eqn:?; simpl
         end.

Lemma check_signal_zero_entry s st :
  Qis_zero (entry_avg s) = true -> (_check_signal s st).2 = st.
Proof.
  intros Hz. run_pass.
  destruct (price_cache st !! db.symbol s) as [p|]; [|reflexivity].
  destruct (Qis_zero p); [reflexivity|].
  fold (entry_avg s). unfold _calculate_pnl. rewrite Hz.
  split_ifs; reflexivity.
Qed.

Lemma check_signal_nonzero_entry s st :
  Qis_zero (entry_avg s) = false ->
  exists res, (_check_signal s st).1 = Ok res.
Proof.
  intros Hz. run_pass.
  destruct (price_cache st !! db.symbol s) as [p|]; [|eexists; reflexivity].
  destruct (Qis_zero p); [eexists; reflexivity|].
  fold (entry_avg s). unfold _calculate_pnl. rewrite Hz.
  split_ifs; eexists; reflexivity.
Qed.

Lemma check_each_returns active : forall results st,
  (forall s, s ∈ active -> Qis_zero (entry_avg s) = false) ->
  exists l, (check_each active results st).1 = Ok l.
Proof.
  induction active as [|s rest IH]; intros results st Hnz; simpl.
  - eexists. reflexivity.
  - unfold mbind, M_bind.
    destruct (check_signal_nonzero_entry s st (Hnz s ltac:(left)))
      as (res & Hres).
    destruct (_check_signal s st) as [o st1]. simpl in Hres. subst o.
    apply IH. intros s' Hin. apply Hnz. right. exact Hin.
Qed.

(** X24: a pass of [_check_signal] raises only for a position whose
    weighted entry is zero, and such a position is never changed or
    notified by a pass; a raise leaves the state as it was and ends the
    loop of the cycle there: the positions after it are not checked and
    the results collected so far are not returned. *)
Theorem check_signal_raises_on_zero_entry s st :
  (Qis_zero (entry_avg s) = false ->
     exists res, (_check_signal s st).1 = Ok res)
  /\ (Qis_zero (entry_avg s) = true -> (_check_signal s st).2 = st)
  /\ ((_check_signal s st).1 = Raised ->
        Qis_zero (entry_avg s) = true
        /\ forall rest results,
             check_each (s :: rest) results st = (Raised, st)).
Proof.
  split; [apply check_signal_nonzero_entry|].
  split; [apply check_signal_zero_entry|].
  intros Hr.
  assert (Hz : Qis_zero (entry_avg s) = true).
  { destruct (Qis_zero (entry_avg s)) eqn:Hz; [reflexivity|].
    destruct (check_signal_nonzero_entry s st Hz) as (res & Hres).
    congruence. }
  split; [exact Hz|]. intros rest results. simpl. unfold mbind, M_bind.
  pose proof (check_signal_zero_entry s st Hz) as Hst.
  destruct (_check_signal s st) as [o st1]. simpl in *. subst o st1.
  reflexivity.
Qed.

(** X25: a check cycle returns a list, without raising, whenever no open
    position of the table has a zero weighted entry. *)
Theorem cycle_returns_without_zero_entry exchange st :
  (forall r, r ∈ table st -> db.status r = db.OPEN ->
             Qis_zero (entry_avg r) = false) ->
  exists results, (check_all_signals exchange st).1 = Ok results.
Proof.
  intros Hnz. unfold check_all_signals, mbind, M_bind, read. simpl.
  destruct (db.get_open_trades (table st)) as [|s rest] eqn:Hact.
  - eexists. reflexivity.
  - set (symbols := elements _).
    destruct (update_prices_spec exchange symbols st) as (Hok & _).
    destruct (_update_prices exchange symbols st) as [o st1]. simpl in *.
    subst o. apply (check_each_returns (s :: rest) [] st1).
    intros s' Hin. rewrite <- Hact in Hin.
    apply get_open_trades_spec in Hin. destruct Hin as [Hin Hopen].
    apply Hnz; [exact Hin|]. unfold db.is_open in Hopen.
    destruct (db.status s'); [reflexivity | discriminate].
Qed.

(** X26: when the cached price has crossed the stop, the pass closes the
    position at the stop level and reports one STOP_LOSS event, whatever
    take-profit levels the same price has also crossed: the table is
    changed by [close_trade] alone and no hit-flag is set. *)
Theorem stop_takes_priority s st p :
  price_cache st !! db.symbol s = Some p ->
  Qis_zero p = false ->
  crossed s p STOP_LOSS = true ->
  Qis_zero (entry_avg s) = false ->
  exists pnl,
    _calculate_pnl (entry_avg s) (db.stop s) (is_long_side (db.side s))
    = Some pnl
    /\ _check_signal s st
       = (Ok (Some (event s p STOP_LOSS pnl)),
          {| table := db.close_trade (table st) (db.id s) pnl;
             price_cache := price_cache st;
             notified := notified st ++ [event s p STOP_LOSS pnl] |}).
Proof.
  intros Hp Hz Hstop Hnz. unfold crossed, exit_level in Hstop.
  destruct (_calculate_pnl (entry_avg s) (db.stop s)
              (is_long_side (db.side s))) as [pnl|] eqn:Hpnl.
  - exists pnl. split; [reflexivity|].
    unfold entry_avg in Hpnl. run_pass. rewrite Hp, Hz, Hstop, Hpnl.
    reflexivity.
  - unfold _calculate_pnl in Hpnl. rewrite Hnz in Hpnl.
    destruct (is_long_side (db.side s)); discriminate.
Qed.
End PassFacts.

Section PassWitnesses.
Import SignalTracker Lifecycle Engine.

Lemma check_signal_raises_on_zero_entry_witness :
  exists res,
    (_check_signal (cfg := Scenario.config) Sample.flat_row
       Sample.flat_state).1 = Ok res.
Proof.
  destruct (check_signal_raises_on_zero_entry (cfg := Scenario.config)
              Sample.flat_row Sample.flat_state) as (Hok & _ & _).
  apply Hok. vm_compute. reflexivity.
Defined.

Lemma cycle_returns_without_zero_entry_witness :
  exists results,
    (check_all_signals (cfg := Scenario.config) (Scenario.quote 105)
       Scenario.opened).1 = Ok results.
Proof.
  apply (cycle_returns_without_zero_entry (cfg := Scenario.config)).
  intros r Hin _. apply list_elem_of_In in Hin. vm_compute in Hin.
  destruct Hin as [<- | []]. vm_compute. reflexivity.
Defined.

Lemma stop_takes_priority_witness :
  exists pnl,
    (_check_signal (cfg := Scenario.config) Sample.flat_row
       Sample.flat_state).1
    = Ok (Some (event Sample.flat_row 100 STOP_LOSS pnl))
    /\ crossed Sample.flat_row 100 TP1 = true.
Proof.
  destruct (stop_takes_priority (cfg := Scenario.config) Sample.flat_row
              Sample.flat_state 100) as (pnl & _ & H).
  - vm_compute. reflexivity.
  - reflexivity.
  - reflexivity.
  - vm_compute. reflexivity.
  - exists pnl. rewrite H. split; reflexivity.
Defined.
End PassWitnesses.

(** ** Prices and pnl *)

Section PriceFacts.
Import SignalTracker Lifecycle Engine MoreProps.
Context {cfg : Config}.

(** The refreshed cache, at the symbol of an open position. *)
Lemma refreshed_cache_open exchange st s :
  s ∈ db.get_open_trades (table st) ->
  price_cache (refreshed exchange st) !! db.symbol s
  = if Qgtb (DataFetcher.get_current_price exchange (db.symbol s)) 0
    then Some (DataFetcher.get_current_price exchange (db.symbol s))
    else price_cache st !! db.symbol s.
Proof.
  intros Hin. unfold refreshed.
  destruct (db.get_open_trades (table st)) as [|a rest] eqn:Hact;
    [inversion Hin|].
  destruct (update_prices_spec exchange
              (elements (list_to_set (map db.symbol (a :: rest))
                         : gset string)) st) as (_ & _ & _ & Hc).
  rewrite Hc. rewrite bool_decide_eq_true_2; [reflexivity|].
  apply elem_of_elements, elem_of_list_to_set, list_elem_of_fmap.
  exists s. auto.
Qed.

(** X27: every event of a check cycle is triggered at one price per
    symbol: the price fetched in this cycle when it is strictly positive,
    and otherwise (the fetch raised, or returned zero or less) the price the
    cache held before the cycle. *)
Theorem cycle_trigger_price exchange st evs e :
  notified (check_all_signals exchange st).2 = notified st ++ evs ->
  e ∈ evs ->
  let sym := db.symbol (signal e) in
  let fetched := DataFetcher.get_current_price exchange sym in
  Some (hit_price e)
  = if Qgtb fetched 0 then Some fetched else price_cache st !! sym.
Proof.
  intros Hlog Hin.
  destruct (check_signals_effect exchange st)
    as (evs' & Hn & _ & _ & _ & _ & Hev & _).
  unfold check_signals in Hn. rewrite Hn in Hlog.
  apply app_inv_head in Hlog. subst evs'.
  rewrite Forall_forall in Hev.
  destruct (Hev e Hin) as (Hopen & p & Hp & _ & Hfact).
  destruct Hfact as (_ & Hhit & _). simpl.
  rewrite <- (refreshed_cache_open exchange st _ Hopen), Hp, Hhit.
  reflexivity.
Qed.
End PriceFacts.

Section PnlFacts.
Import SignalTracker.
Context {cfg : Config}.
Local Open Scope Q_scope.

Lemma Qis_zero_false (x : Q) : Qis_zero x = false <-> ~ x == 0.
Proof.
  rewrite <- not_true_iff_false, Qis_zero_true. reflexivity.
Qed.

(** X28: for a positive weighted entry [_calculate_pnl] returns a number:
    the LONG figure is positive exactly when the exit is above the entry,
    zero exactly at the entry, and never below -100 for an exit that is not
    negative; the SHORT figure at the same exit is its opposite. *)
Theorem pnl_sign a x :
  0 < a ->
  exists long short,
    _calculate_pnl a x true = Some long
    /\ _calculate_pnl a x false = Some short
    /\ long + short == 0
    /\ (0 < long <-> a < x)
    /\ (long == 0 <-> x == a)
    /\ (0 < short <-> x < a)
    /\ (0 <= x <-> -100 <= long).
Proof.
  intros Ha. unfold _calculate_pnl.
  assert (Hz : Qis_zero a = false) by (apply Qis_zero_false; lra).
  rewrite Hz. eexists. eexists.
  split; [reflexivity|]. split; [reflexivity|].
  assert (Hne : ~ a == 0) by lra.
  set (y := x / a).
  assert (Hy : y * a == x) by (unfold y; field; exact Hne).
  assert (Hl : (x - a) / a * 100 == (y - 1) * 100)
    by (unfold y; field; exact Hne).
  assert (Hs : (a - x) / a * 100 == (1 - y) * 100)
    by (unfold y; field; exact Hne).
  rewrite Hl, Hs. clearbody y.
  split; [ring|].
  split; [split; intros; nra|].
  split; [split; intros; nra|].
  split; [split; intros; nra|].
  split; intros; nra.
Qed.

(** X29: with position sizes that are not negative and add up to one,
    the weighted entry of a two-phase position lies between its two
    entries, so it is positive when both entries are; a position without
    second entry is weighted at its first entry. *)
Theorem weighted_entry_between a b :
  0 <= POSITION_SIZE_A -> 0 <= POSITION_SIZE_B ->
  POSITION_SIZE_A + POSITION_SIZE_B == 1 ->
  _calculate_weighted_entry a None = a
  /\ (a <= b ->
      a <= _calculate_weighted_entry a (Some b) <= b)
  /\ (b <= a ->
      b <= _calculate_weighted_entry a (Some b) <= a)
  /\ (0 < a -> 0 < b -> 0 < _calculate_weighted_entry a (Some b)).
Proof.
  intros HA HB Hsum. unfold _calculate_weighted_entry.
  split; [reflexivity|].
  assert (HAeq : POSITION_SIZE_A == 1 - POSITION_SIZE_B) by lra.
  rewrite HAeq.
  assert (HB1 : POSITION_SIZE_B <= 1) by lra.
  generalize dependent POSITION_SIZE_B. intros B HB _ _ HB1.
  split; [intros; split; nra|].
  split; [intros; split; nra|].
  intros; nra.
Qed.
End PnlFacts.

Lemma cycle_trigger_price_witness :
  exists e,
    SignalTracker.notified
      (SignalTracker.check_all_signals (cfg := Scenario.config)
         (Scenario.quote 105) Scenario.opened).2 = [e]
    /\ Some (SignalTracker.hit_price e) = Some 105%Q.
Proof.
  destruct (SignalTracker.notified
              (SignalTracker.check_all_signals (cfg := Scenario.config)
                 (Scenario.quote 105) Scenario.opened).2)
    as [|e [|e' l]] eqn:Hlog;
    [revert Hlog; vm_compute; discriminate
    | | revert Hlog; vm_compute; discriminate].
  exists e. split; [reflexivity|].
  assert (Hsym : db.symbol (SignalTracker.signal e) = "BTC"%string).
  { revert Hlog. vm_compute. intros [= <-]. reflexivity. }
  pose proof (cycle_trigger_price (cfg := Scenario.config)
                (Scenario.quote 105) Scenario.opened [e] e) as H.
  simpl in H. rewrite Hsym in H. apply H.
  - rewrite Hlog. reflexivity.
  - left.
Defined.

Lemma pnl_sign_witness :
  exists long,
    SignalTracker._calculate_pnl 100 105 true = Some long /\ (0 < long)%Q.
Proof.
  destruct (pnl_sign 100 105) as (long & short & Hl & _ & _ & Hpos & _).
  - reflexivity.
  - exists long. split; [exact Hl|]. apply Hpos. reflexivity.
Defined.

Lemma weighted_entry_between_witness :
  (98 <= SignalTracker._calculate_weighted_entry (cfg := Scenario.config)
           100 (Some 98%Q) <= 100)%Q.
Proof.
  destruct (weighted_entry_between (cfg := Scenario.config) 100 98)
    as (_ & _ & H & _).
  - vm_compute. discriminate.
  - vm_compute. discriminate.
  - reflexivity.
  - apply H. vm_compute. discriminate.
Defined.

(** ** The market scan *)

Section ScanFacts.
Import SignalGenerator Main.
Context {cfg : Config} {sk : MLPredictor.Sklearn} {ta : Indicators}.
Variable MAX_SIGNALS_PER_RUN : Z.

Lemma generate_symbol ml df symbol s :
  (generate ml df symbol).1 = Some s -> SignalGenerator.symbol s = symbol.
Proof.
  intros H. apply generate_Some_full in H.
  destruct H as (frame & st & last & _ & _ & _ & _ & _ & _ & _ & ->).
  unfold levels. destruct (_ =? 1)%Z; reflexivity.
Qed.

Lemma scan_spec all_data : forall sent ml table,
  exists rows,
    (scan MAX_SIGNALS_PER_RUN all_data sent ml table).1.1 = table ++ rows
    /\ (Z.of_nat (length rows)
        <= Z.max (MAX_SIGNALS_PER_RUN - sent) 1)%Z
    /\ (scan MAX_SIGNALS_PER_RUN all_data sent ml table).2
       = (sent + Z.of_nat (length rows))%Z
    /\ Forall (fun r => db.status r = db.OPEN
                        /\ db.symbol r ∈ map fst all_data) rows.
Proof.
  induction all_data as [|[symbol df] rest IH]; intros sent ml table; simpl.
  - exists []. rewrite app_nil_r. simpl.
    split; [reflexivity|]. split; [lia|]. split; [lia | constructor].
  - destruct (generate ml df symbol) as [[sig|] ml'] eqn:Hgen.
    + pose proof (generate_symbol ml df symbol sig) as Hsym.
      rewrite Hgen in Hsym. specialize (Hsym eq_refl).
      unfold db.open_trade. cbn [snd].
      set (row := {| db.id := db.lastrowid table |}).
      assert (Hrow : db.status row = db.OPEN
                     /\ db.symbol row ∈ symbol :: map fst rest).
      { split; [reflexivity|]. simpl. rewrite Hsym. left. }
      destruct (sent + 1 >=? MAX_SIGNALS_PER_RUN)%Z eqn:Hmax.
      * exists [row]. simpl.
        split; [reflexivity|]. split; [lia|]. split; [lia|].
        constructor; [exact Hrow | constructor].
      * rewrite Z.geb_leb in Hmax. apply Z.leb_gt in Hmax.
        destruct (IH (sent + 1)%Z ml' (table ++ [row]))
          as (rows & Ht & Hlen & Hsent & Hall).
        exists (row :: rows). rewrite Ht, Hsent, <- app_assoc. simpl.
        split; [reflexivity|]. split; [lia|]. split; [lia|].
        constructor; [exact Hrow|].
        eapply Forall_impl; [exact Hall|].
        intros r [Ho Hin]. split; [exact Ho | right; exact Hin].
    + destruct (sent >=? MAX_SIGNALS_PER_RUN)%Z eqn:Hmax.
      * exists []. rewrite app_nil_r. simpl.
        split; [reflexivity|]. split; [lia|]. split; [lia | constructor].
      * destruct (IH sent ml' table) as (rows & Ht & Hlen & Hsent & Hall).
        exists rows. split; [exact Ht|]. split; [exact Hlen|].
        split; [exact Hsent|].
        eapply Forall_impl; [exact Hall|].
        intros r [Ho Hin]. split; [exact Ho | right; exact Hin].
Qed.

(** X30: a market scan only appends rows to the table, all OPEN and each
    on a symbol of the scanned frames, one for every message it counts as
    sent; it appends at most MAX_SIGNALS_PER_RUN of them, and at most one
    when that limit is zero or negative. *)
Theorem scan_opens_at_most_the_limit all_data ml table :
  exists rows,
    (run MAX_SIGNALS_PER_RUN all_data ml table).1.1 = table ++ rows
    /\ (Z.of_nat (length rows) <= Z.max MAX_SIGNALS_PER_RUN 1)%Z
    /\ (run MAX_SIGNALS_PER_RUN all_data ml table).2
       = Z.of_nat (length rows)
    /\ Forall (fun r => db.status r = db.OPEN
                        /\ db.symbol r ∈ map fst all_data) rows.
Proof.
  unfold run.
  destruct (scan_spec all_data 0 ml table) as (rows & Ht & Hlen & Hs & Hall).
  exists rows. rewrite Z.sub_0_r in *.
  split; [exact Ht|]. split; [exact Hlen|]. split; [exact Hs | exact Hall].
Qed.
End ScanFacts.
